(** * libsnapshot: the snapshot lifecycle manager of fs_mgr

    A shallow embedding of [fs_mgr/libsnapshot/snapshot.cpp],
    [fs_mgr/libsnapshot/utility.cpp] and [fs_mgr/libdm/dm.cpp], and the
    properties of the update state machine, the snapshot record store and
    the device stacks that the specification states about them.

    The C++ methods mutate three things: the kernel's device-mapper tables,
    the files under the metadata directory, and the members of the
    [SnapshotManager] object.  All three are fields of one [World] record
    that every method threads through a small state monad.  A method that
    returns [bool] becomes a computation of type [M bool]; a failed [CHECK]
    aborts the process, which the monad represents by [None]. *)

From stdpp Require Import gmap strings list fin_maps.
From Stdlib Require Import ZArith Lia Ascii.

Local Open Scope Z_scope.

(** ** android::base helpers (strings.h, parseint.h) *)

Module base.

(** Modelled from the spec: [android::base::Split] lives in base/strings.cpp,
    which is not part of the sources at hand.  It cuts [s] at every
    character of [delimiters] and keeps empty pieces, so a string without
    delimiter yields one piece and a trailing delimiter yields a trailing
    empty piece. *)
Fixpoint is_delimiter (c : ascii) (delimiters : string) : bool :=
  match delimiters with
  | EmptyString => false
  | String d ds => if Ascii.eqb c d then true else is_delimiter c ds
  end.

Fixpoint Split (s : string) (delimiters : string) : list string :=
  match s with
  | EmptyString => [EmptyString]
  | String c rest =>
      if is_delimiter c delimiters then EmptyString :: Split rest delimiters
      else match Split rest delimiters with
           | p :: ps => String c p :: ps
           | [] => [String c EmptyString]
           end
  end.

(** Modelled from the spec: [android::base::Join] (base/strings.h). *)
Fixpoint Join (things : list string) (separator : string) : string :=
  match things with
  | [] => EmptyString
  | [x] => x
  | x :: xs => x +:+ separator +:+ Join xs separator
  end.

(** Modelled from the spec: [android::base::StartsWith]. *)
Definition StartsWith (s prefix : string) : bool := String.prefix prefix s.

(** [isspace] of the C locale. *)
Definition isspace (c : ascii) : bool :=
  let n := N_of_ascii c in (n =? 32)%N || ((9 <=? n)%N && (n <=? 13)%N).

Fixpoint skip_spaces (s : string) : string :=
  match s with
  | String c rest => if isspace c then skip_spaces rest else s
  | EmptyString => EmptyString
  end.

Definition ULLONG_MAX : Z := 2 ^ 64 - 1.

Definition digit_value (radix : Z) (c : ascii) : option Z :=
  let n := Z.of_N (N_of_ascii c) in
  if (48 <=? n) && (n <=? 57) then Some (n - 48)
  else if (radix =? 16) && (97 <=? n) && (n <=? 102) then Some (n - 87)
  else if (radix =? 16) && (65 <=? n) && (n <=? 70) then Some (n - 55)
  else None.

(** The digit loop of [strtoull]: the value read so far, whether it went
    out of range (the value then sticks at [ULLONG_MAX]), whether a digit
    was consumed, and the unread rest. *)
Fixpoint strtoull_digits (radix : Z) (s : string) (acc : Z) (erange any : bool)
  : Z * bool * bool * string :=
  match s with
  | String c rest =>
      match digit_value radix c with
      | Some d =>
          let acc' := acc * radix + d in
          if erange || (ULLONG_MAX <? acc')
          then strtoull_digits radix rest ULLONG_MAX true true
          else strtoull_digits radix rest acc' false true
      | None => (acc, erange, any, s)
      end
  | EmptyString => (acc, erange, any, EmptyString)
  end.

Definition has_hex_prefix (s : string) : bool :=
  match s with
  | String "0" (String c _) => Ascii.eqb c "x" || Ascii.eqb c "X"
  | _ => false
  end.

Definition skip_sign (s : string) : string :=
  match s with
  | String "+" rest => rest
  | _ => s
  end.

Definition skip_hex_prefix (radix : Z) (s : string) : string :=
  if (radix =? 16) && has_hex_prefix s
  then match s with
       | String _ (String _ rest) => rest
       | _ => s
       end
  else s.

(** Modelled from the spec: C's [strtoull], returning the value, the end
    pointer (as the unread rest) and whether [errno] was set to [ERANGE].
    When no digit can be read the end pointer is the start of the input. *)
Definition strtoull (s : string) (radix : Z) : Z * string * bool :=
  match strtoull_digits radix
          (skip_hex_prefix radix (skip_sign (skip_spaces s))) 0 false false with
  | (v, erange, true, rest) => (v, rest, erange)
  | (_, _, false, _) => (0, s, false)
  end.

Definition has_minus_sign (s : string) : bool :=
  match s with
  | String "-" _ => true
  | _ => false
  end.

(** Modelled from the spec: [android::base::ParseUint] (base/parseint.h)
    for an unsigned type whose largest value is [max].  Leading white
    space is skipped, a minus sign is refused, a [0x] prefix selects
    base 16, and anything left after the digits makes the parse fail. *)
Definition ParseUint (s : string) (max : Z) : option Z :=
  let s := skip_spaces s in
  if has_minus_sign s then None else
  let radix := if has_hex_prefix s then 16 else 10 in
  match strtoull s radix with
  | (v, endp, erange) =>
      if erange then None
      else if bool_decide (endp = s) then None
      else if negb (bool_decide (endp = EmptyString)) then None
      else if max <? v then None
      else Some v
  end.

Definition digit_char (d : Z) : ascii := ascii_of_N (Z.to_N (48 + d)).

Fixpoint to_string_aux (fuel : nat) (n : Z) (acc : string) : string :=
  match fuel with
  | O => acc
  | S fuel' =>
      let acc' := String (digit_char (n mod 10)) acc in
      if n <? 10 then acc' else to_string_aux fuel' (n / 10) acc'
  end.

(** [std::to_string] of a [uint64_t]: at most twenty decimal digits. *)
Definition to_string (n : Z) : string := to_string_aux 20 n EmptyString.

End base.


(** ** Enumerations *)

(** [enum class UpdateState] (snapshot.h), in declaration order. *)
Module UpdateState.
Inductive t :=
| None | Initiated | Unverified | Merging
| MergeNeedsReboot | MergeCompleted | MergeFailed | Cancelled.
End UpdateState.

(** [enum class SnapshotState] (snapshot.h). *)
Module SnapshotState.
Inductive t := None | Created | Merging | MergeCompleted.
End SnapshotState.

(** [enum class DmDeviceState] (dm.h). *)
Module DmDeviceState.
Inductive t := INVALID | SUSPENDED | ACTIVE.
End DmDeviceState.

(** Modelled from the spec: [enum class SnapshotStorageMode] of dm_target.h,
    the [mode] of a snapshot target. *)
Module SnapshotStorageMode.
Inductive t := Persistent | Transient | Merge.
End SnapshotStorageMode.

(** The two modes of [flock] that [LockedFile::lock_mode] can report. *)
Inductive LockMode := LOCK_SH | LOCK_EX.

#[global] Instance UpdateState_eq_dec : EqDecision UpdateState.t.
Proof. solve_decision. Defined.
#[global] Instance SnapshotState_eq_dec : EqDecision SnapshotState.t.
Proof. solve_decision. Defined.
#[global] Instance DmDeviceState_eq_dec : EqDecision DmDeviceState.t.
Proof. solve_decision. Defined.
#[global] Instance SnapshotStorageMode_eq_dec : EqDecision SnapshotStorageMode.t.
Proof. solve_decision. Defined.
#[global] Instance LockMode_eq_dec : EqDecision LockMode.
Proof. solve_decision. Defined.

(** ** Data *)

Definition kSectorSize : Z := 512.
Definition kSnapshotChunkSize : Z := 8.
Definition UINT64_MAX : Z := base.ULLONG_MAX.

(** [struct SnapshotStatus] (snapshot.h); the sizes are [uint64_t]. *)
Record SnapshotStatus := {
  state : SnapshotState.t;
  device_size : Z;
  snapshot_size : Z;
  cow_partition_size : Z;
  cow_file_size : Z;
  sectors_allocated : Z;
  metadata_sectors : Z;
}.

(** The value-initialised [SnapshotStatus] of the header. *)
Definition SnapshotStatus_default : SnapshotStatus :=
  {| state := SnapshotState.None; device_size := 0; snapshot_size := 0;
     cow_partition_size := 0; cow_file_size := 0;
     sectors_allocated := 0; metadata_sectors := 0 |}.

(** [struct dm_target_spec] of the kernel interface, as far as the code
    reads it, and [DeviceMapper::TargetInfo] (dm.h). *)
Record dm_target_spec := {
  sector_start : Z;
  spec_length : Z;
  target_type : string;
}.

Record TargetInfo := {
  spec : dm_target_spec;
  data : string;
}.

(** Modelled from the spec: the targets of dm_target.h that the snapshot
    code builds, a tagged variant as section 9 of the specification
    proposes. *)
Inductive DmTarget :=
| DmTargetLinear (start len : Z) (block_device : string) (physical_sector : Z)
| DmTargetSnapshot (start len : Z) (base_device cow_device : string)
                   (mode : SnapshotStorageMode.t) (chunk_size : Z).

Definition DmTable := list DmTarget.

(** [DmTargetSnapshot::Status] (dm_target.h). *)
Record SnapshotTargetStatus := {
  st_sectors_allocated : Z;
  st_total_sectors : Z;
  st_metadata_sectors : Z;
}.

(** A device of the kernel's device mapper: its minor number, its uuid,
    whether it is suspended, how many holders keep it open, and its
    active table as [DM_TABLE_STATUS] reports it (the empty list stands
    for a device without an active table). *)
Record DmDevice := {
  dev_minor : Z;
  dev_uuid : string;
  dev_suspended : bool;
  dev_open_count : nat;
  dev_table : list TargetInfo;
}.

(** Modelled from the spec: the partition metadata of liblp.  A partition
    has a name, attribute bits, the group it belongs to and its extents in
    the superpartition. *)
Record LpExtent := {
  num_sectors : Z;
  target_data : Z;
}.

Record LpPartition := {
  lp_name : string;
  lp_attributes : Z;
  lp_group : string;
  lp_extents : list LpExtent;
}.

Definition LpMetadata := list LpPartition.

Definition LP_PARTITION_ATTR_READONLY : Z := 1.
Definition LP_PARTITION_ATTR_UPDATED : Z := 4.
Definition kCowGroupName : string := "cow".

(** Modelled from the spec: [CreateLogicalPartitionParams] of
    fs_mgr_dm_linear.h. *)
Record CreateLogicalPartitionParams := {
  block_device : string;
  metadata_slot : option Z;
  partition_name : string;
  partition : option LpPartition;
  metadata : option LpMetadata;
  device_name : string;
  force_writable : bool;
  timeout_ms : Z;
}.

(** [LockedFile] (snapshot.h): the proof of lock handed to the private
    methods.  The descriptor designates the state file of the world. *)
Record LockedFile := {
  lock_mode : LockMode;
}.

(** ** The world

    - the kernel: the device-mapper devices by name, the major number of
      the device mapper, the next minor number it hands out, for every COW
      device the status line the kernel derives from its exception store,
      whether ueventd creates the device nodes, and the sizes of the block
      device nodes by path;
    - the metadata directory: the state file, the boot indicator and the
      snapshots directory with one record file per snapshot.  [None] means
      that the file or the directory does not exist;
    - what [IDeviceInfo] and the collaborators answer: the slot suffix, the
      superpartition names and metadata, the image manager's reachability,
      its backing images and the device they live on;
    - the members of [SnapshotManager]: [images_] and
      [has_local_image_manager_];
    - the contents of an uninitialised [DmTargetSnapshot::Status] local. *)
Record World := {
  dm_devices : gmap string DmDevice;
  dm_major : Z;
  next_minor : Z;
  snapshot_stores : gmap string string;
  ueventd : bool;
  block_devices : gmap string Z;
  state_file : option string;
  boot_indicator : option string;
  snapshots_dir : option (gmap string string);
  slot_suffix : string;
  super_devices : gmap Z string;
  lp_metadata : gmap (string * Z) LpMetadata;
  gsid_available : bool;
  backing_images : gmap string Z;
  image_block_device : string;
  images_ : bool;
  has_local_image_manager_ : bool;
  indeterminate_status : SnapshotTargetStatus;
}.

Definition set_dm_devices (f : gmap string DmDevice -> gmap string DmDevice) (w : World) : World :=
  {| dm_devices := f (dm_devices w); dm_major := dm_major w; next_minor := next_minor w;
     snapshot_stores := snapshot_stores w; ueventd := ueventd w;
     block_devices := block_devices w; state_file := state_file w;
     boot_indicator := boot_indicator w; snapshots_dir := snapshots_dir w;
     slot_suffix := slot_suffix w; super_devices := super_devices w;
     lp_metadata := lp_metadata w; gsid_available := gsid_available w;
     backing_images := backing_images w; image_block_device := image_block_device w;
     images_ := images_ w; has_local_image_manager_ := has_local_image_manager_ w;
     indeterminate_status := indeterminate_status w |}.

Definition set_next_minor (n : Z) (w : World) : World :=
  {| dm_devices := dm_devices w; dm_major := dm_major w; next_minor := n;
     snapshot_stores := snapshot_stores w; ueventd := ueventd w;
     block_devices := block_devices w; state_file := state_file w;
     boot_indicator := boot_indicator w; snapshots_dir := snapshots_dir w;
     slot_suffix := slot_suffix w; super_devices := super_devices w;
     lp_metadata := lp_metadata w; gsid_available := gsid_available w;
     backing_images := backing_images w; image_block_device := image_block_device w;
     images_ := images_ w; has_local_image_manager_ := has_local_image_manager_ w;
     indeterminate_status := indeterminate_status w |}.

Definition set_state_file (c : option string) (w : World) : World :=
  {| dm_devices := dm_devices w; dm_major := dm_major w; next_minor := next_minor w;
     snapshot_stores := snapshot_stores w; ueventd := ueventd w;
     block_devices := block_devices w; state_file := c;
     boot_indicator := boot_indicator w; snapshots_dir := snapshots_dir w;
     slot_suffix := slot_suffix w; super_devices := super_devices w;
     lp_metadata := lp_metadata w; gsid_available := gsid_available w;
     backing_images := backing_images w; image_block_device := image_block_device w;
     images_ := images_ w; has_local_image_manager_ := has_local_image_manager_ w;
     indeterminate_status := indeterminate_status w |}.

Definition set_boot_indicator (c : option string) (w : World) : World :=
  {| dm_devices := dm_devices w; dm_major := dm_major w; next_minor := next_minor w;
     snapshot_stores := snapshot_stores w; ueventd := ueventd w;
     block_devices := block_devices w; state_file := state_file w;
     boot_indicator := c; snapshots_dir := snapshots_dir w;
     slot_suffix := slot_suffix w; super_devices := super_devices w;
     lp_metadata := lp_metadata w; gsid_available := gsid_available w;
     backing_images := backing_images w; image_block_device := image_block_device w;
     images_ := images_ w; has_local_image_manager_ := has_local_image_manager_ w;
     indeterminate_status := indeterminate_status w |}.

Definition set_snapshots_dir (d : option (gmap string string)) (w : World) : World :=
  {| dm_devices := dm_devices w; dm_major := dm_major w; next_minor := next_minor w;
     snapshot_stores := snapshot_stores w; ueventd := ueventd w;
     block_devices := block_devices w; state_file := state_file w;
     boot_indicator := boot_indicator w; snapshots_dir := d;
     slot_suffix := slot_suffix w; super_devices := super_devices w;
     lp_metadata := lp_metadata w; gsid_available := gsid_available w;
     backing_images := backing_images w; image_block_device := image_block_device w;
     images_ := images_ w; has_local_image_manager_ := has_local_image_manager_ w;
     indeterminate_status := indeterminate_status w |}.

Definition set_backing_images (b : gmap string Z) (w : World) : World :=
  {| dm_devices := dm_devices w; dm_major := dm_major w; next_minor := next_minor w;
     snapshot_stores := snapshot_stores w; ueventd := ueventd w;
     block_devices := block_devices w; state_file := state_file w;
     boot_indicator := boot_indicator w; snapshots_dir := snapshots_dir w;
     slot_suffix := slot_suffix w; super_devices := super_devices w;
     lp_metadata := lp_metadata w; gsid_available := gsid_available w;
     backing_images := b; image_block_device := image_block_device w;
     images_ := images_ w; has_local_image_manager_ := has_local_image_manager_ w;
     indeterminate_status := indeterminate_status w |}.

Definition set_images_ (b : bool) (w : World) : World :=
  {| dm_devices := dm_devices w; dm_major := dm_major w; next_minor := next_minor w;
     snapshot_stores := snapshot_stores w; ueventd := ueventd w;
     block_devices := block_devices w; state_file := state_file w;
     boot_indicator := boot_indicator w; snapshots_dir := snapshots_dir w;
     slot_suffix := slot_suffix w; super_devices := super_devices w;
     lp_metadata := lp_metadata w; gsid_available := gsid_available w;
     backing_images := backing_images w; image_block_device := image_block_device w;
     images_ := b; has_local_image_manager_ := has_local_image_manager_ w;
     indeterminate_status := indeterminate_status w |}.

(** ** The monad of the methods

    A computation reads and updates the world and yields a value, or aborts
    the process ([None]) when a [CHECK] fails. *)
Definition M (A : Type) : Type := World -> option (A * World).

Definition ret {A} (a : A) : M A := fun w => Some (a, w).

Definition bind {A B} (m : M A) (k : A -> M B) : M B :=
  fun w => match m w with
           | Some (a, w') => k a w'
           | None => None
           end.

Definition get : M World := fun w => Some (w, w).
Definition modify (f : World -> World) : M unit := fun w => Some (tt, f w).
Definition abort {A} : M A := fun _ => None.
Definition CHECK (b : bool) : M unit := if b then ret tt else abort.

Notation "x <- m ;; k" := (bind m (fun x => k))
  (at level 100, m at next level, right associativity).
Notation "m ;;; k" := (bind m (fun _ => k))
  (at level 100, right associativity).

(** ** Device-mapper targets (dm_target.h, dm_table.h) *)

(** Modelled from the spec: the target type and the parameter string of a
    target (section 6): a linear target is ["<device> <start_sector>"], a
    snapshot target ["<base> <cow> <mode> <chunk>"], and a snapshot target
    in merge mode has the type [snapshot-merge]. *)
Definition DmTarget_name (t : DmTarget) : string :=
  match t with
  | DmTargetLinear _ _ _ _ => "linear"
  | DmTargetSnapshot _ _ _ _ SnapshotStorageMode.Merge _ => "snapshot-merge"
  | DmTargetSnapshot _ _ _ _ _ _ => "snapshot"
  end.

Definition SnapshotStorageMode_string (mode : SnapshotStorageMode.t) : string :=
  match mode with
  | SnapshotStorageMode.Persistent => "P"
  | SnapshotStorageMode.Transient => "N"
  | SnapshotStorageMode.Merge => "merge"
  end.

Definition GetParameterString (t : DmTarget) : string :=
  match t with
  | DmTargetLinear _ _ block_device physical_sector =>
      block_device +:+ " " +:+ base.to_string physical_sector
  | DmTargetSnapshot _ _ base_device cow_device mode chunk_size =>
      base_device +:+ " " +:+ cow_device +:+ " " +:+
      SnapshotStorageMode_string mode +:+ " " +:+ base.to_string chunk_size
  end.

Definition DmTarget_spec (t : DmTarget) : dm_target_spec :=
  match t with
  | DmTargetLinear start len _ _
  | DmTargetSnapshot start len _ _ _ _ =>
      {| sector_start := start; spec_length := len; target_type := DmTarget_name t |}
  end.

(** What the kernel keeps of a loaded target: its spec and its parameters. *)
Definition DmTarget_Serialize (t : DmTarget) : TargetInfo :=
  {| spec := DmTarget_spec t; data := GetParameterString t |}.

Module DmTargetSnapshotParse.

(** Modelled from the spec: [DmTargetSnapshot::GetDevicesFromParams]
    splits the four space-separated parameters of a snapshot target and
    returns the first two. *)
Definition GetDevicesFromParams (params : string) : option (string * string) :=
  match base.Split params " " with
  | [base_device; cow_device; _; _] => Some (base_device, cow_device)
  | _ => None
  end.

(** [ParseUint] leaves its output untouched when it fails. *)
Definition parse_into (s : string) (old : Z) : bool * Z :=
  match base.ParseUint s UINT64_MAX with
  | Some v => (true, v)
  | None => (false, old)
  end.

(** Modelled from the spec: [DmTargetSnapshot::ParseStatusText] reads
    ["<sectors_allocated>/<total_sectors> <metadata_sectors>"] into
    [status], which keeps its former contents where parsing stops. *)
Definition ParseStatusText (text : string) (status : SnapshotTargetStatus)
  : bool * SnapshotTargetStatus :=
  match base.Split text " " with
  | [sector_info; metadata] =>
      match base.Split sector_info "/" with
      | [allocated; total] =>
          let (ok1, a) := parse_into allocated (st_sectors_allocated status) in
          if negb ok1 then (false, status) else
          let (ok2, t) := parse_into total (st_total_sectors status) in
          let status1 := {| st_sectors_allocated := a;
                            st_total_sectors := st_total_sectors status;
                            st_metadata_sectors := st_metadata_sectors status |} in
          if negb ok2 then (false, status1) else
          let (ok3, m) := parse_into metadata (st_metadata_sectors status) in
          let status2 := {| st_sectors_allocated := a; st_total_sectors := t;
                            st_metadata_sectors := st_metadata_sectors status |} in
          if negb ok3 then (false, status2) else
          (true, {| st_sectors_allocated := a; st_total_sectors := t;
                    st_metadata_sectors := m |})
      | _ => (false, status)
      end
  | _ => (false, status)
  end.

End DmTargetSnapshotParse.

(** ** libdm: [DeviceMapper] (dm.cpp) over the kernel of the world *)

Module DeviceMapper.

Definition DM_NAME_LEN : Z := 128.

(** The [DM_DEV_STATUS] ioctl: it fails exactly when no device has the
    name. *)
Definition DM_DEV_STATUS (name : string) : M (option DmDevice) :=
  w <- get;; ret (dm_devices w !! name).

(** [DeviceMapper::GetState]. *)
Definition GetState (name : string) : M DmDeviceState.t :=
  io <- DM_DEV_STATUS name;;
  match io with
  | None => ret DmDeviceState.INVALID
  | Some d =>
      if negb (bool_decide (dev_table d = [])) && negb (dev_suspended d)
      then ret DmDeviceState.ACTIVE
      else ret DmDeviceState.SUSPENDED
  end.

(** [DeviceMapper::DeleteDevice].  The kernel refuses [DM_DEV_REMOVE] for
    a device that does not exist or that is held open; it always raises
    the uevent that the [CHECK] asks for. *)
Definition DeleteDevice (name : string) : M bool :=
  w <- get;;
  match dm_devices w !! name with
  | Some d =>
      if bool_decide (dev_open_count d = 0%nat)
      then modify (set_dm_devices (delete name));;; ret true
      else ret false
  | None => ret false
  end.

(** [DeviceMapper::DeleteDeviceIfExists]. *)
Definition DeleteDeviceIfExists (name : string) : M bool :=
  st <- GetState name;;
  if bool_decide (st = DmDeviceState.INVALID) then ret true
  else DeleteDevice name.

(** [GenerateUuid] draws a random uuid; the model derives a fresh one
    from the minor number the device is going to get. *)
Definition GenerateUuid : M string :=
  w <- get;; ret ("uuid-" +:+ base.to_string (next_minor w)).

(** The private [DeviceMapper::CreateDevice(name, uuid)].  [DM_DEV_CREATE]
    fails when the name is taken; the new device has no table and nobody
    holds it open, as the two [CHECK]s expect. *)
Definition CreateDevice_uuid (name uuid : string) : M bool :=
  if bool_decide (name = "") then ret false
  else if DM_NAME_LEN <=? Z.of_nat (String.length name) then ret false
  else
    w <- get;;
    match dm_devices w !! name with
    | Some _ => ret false
    | None =>
        let d := {| dev_minor := next_minor w; dev_uuid := uuid;
                    dev_suspended := false; dev_open_count := 0;
                    dev_table := [] |} in
        modify (fun w => set_next_minor (next_minor w + 1)
                           (set_dm_devices (insert name d) w));;;
        ret true
    end.

(** [DeviceMapper::LoadTableAndActivate]: [DM_TABLE_LOAD] followed by the
    resuming [DM_DEV_SUSPEND].  The kernel refuses to load a table into a
    device that does not exist and refuses a table without targets. *)
Definition LoadTableAndActivate (name : string) (table : DmTable) : M bool :=
  w <- get;;
  match dm_devices w !! name with
  | None => ret false
  | Some d =>
      if bool_decide (table = []) then ret false
      else
        let d' := {| dev_minor := dev_minor d; dev_uuid := dev_uuid d;
                     dev_suspended := false; dev_open_count := dev_open_count d;
                     dev_table := DmTarget_Serialize <$> table |} in
        modify (set_dm_devices (insert name d'));;; ret true
  end.

(** [DeviceMapper::GetDeviceUniquePath]. *)
Definition GetDeviceUniquePath (name : string) : M (option string) :=
  io <- DM_DEV_STATUS name;;
  match io with
  | None => ret None
  | Some d =>
      if bool_decide (dev_uuid d = "") then ret None
      else ret (Some ("/dev/block/mapper/by-uuid/" +:+ dev_uuid d))
  end.

(** [DeviceMapper::GetDmDevicePathByName]. *)
Definition GetDmDevicePathByName (name : string) : M (option string) :=
  io <- DM_DEV_STATUS name;;
  match io with
  | None => ret None
  | Some d => ret (Some ("/dev/block/dm-" +:+ base.to_string (dev_minor d)))
  end.

(** [DeviceMapper::GetDeviceNumber], as the pair of major and minor. *)
Definition GetDeviceNumber (name : string) : M (option (Z * Z)) :=
  io <- DM_DEV_STATUS name;;
  w <- get;;
  match io with
  | None => ret None
  | Some d => ret (Some (dm_major w, dev_minor d))
  end.

(** [DeviceMapper::GetDeviceString]. *)
Definition GetDeviceString (name : string) : M (option string) :=
  num <- GetDeviceNumber name;;
  match num with
  | None => ret None
  | Some (major, minor) =>
      ret (Some (base.to_string major +:+ ":" +:+ base.to_string minor))
  end.

(** Modelled from the spec: [WaitForFile] of fs_mgr; the node of a new
    device appears within the timeout when ueventd is at work. *)
Definition WaitForFile (path : string) (timeout_ms : Z) : M bool :=
  w <- get;; ret (ueventd w).

(** [DeviceMapper::CreateDevice(name, table, path, timeout_ms)]; the
    path is returned next to the result. *)
Definition CreateDevice (name : string) (table : DmTable) (timeout_ms : Z)
  : M (bool * string) :=
  uuid <- GenerateUuid;;
  created <- CreateDevice_uuid name uuid;;
  if negb created then ret (false, "") else
  loaded <- LoadTableAndActivate name table;;
  if negb loaded then DeleteDevice name;;; ret (false, "") else
  unique_path <- GetDeviceUniquePath name;;
  match unique_path with
  | None => DeleteDevice name;;; ret (false, "")
  | Some unique_path =>
      path <- GetDmDevicePathByName name;;
      match path with
      | None => DeleteDevice name;;; ret (false, "")
      | Some path =>
          if timeout_ms <=? 0 then ret (true, path)
          else
            found <- WaitForFile unique_path timeout_ms;;
            if negb found then DeleteDevice name;;; ret (false, path)
            else ret (true, path)
      end
  end.

(** The kernel's status line of a target: empty for a linear target, and
    for a snapshot target the line the exception store of its COW device
    (the second parameter) currently yields. *)
Definition status_line (w : World) (t : TargetInfo) : string :=
  if bool_decide (target_type (spec t) = "snapshot")
     || bool_decide (target_type (spec t) = "snapshot-merge")
  then match base.Split (data t) " " with
       | _ :: cow :: _ => default "" (snapshot_stores w !! cow)
       | _ => ""
       end
  else "".

(** The private [DeviceMapper::GetTable]: one [TargetInfo] per target of
    the active table, carrying the parameters when [DM_STATUS_TABLE_FLAG]
    is set and the status line otherwise. *)
Definition GetTable (name : string) (table_flag : bool) : M (option (list TargetInfo)) :=
  w <- get;;
  match dm_devices w !! name with
  | None => ret None
  | Some d =>
      if table_flag then ret (Some (dev_table d))
      else ret (Some ((fun t => {| spec := spec t; data := status_line w t |})
                        <$> dev_table d))
  end.

Definition GetTableStatus (name : string) := GetTable name false.
Definition GetTableInfo (name : string) := GetTable name true.

(** [DeviceMapper::GetTargetType]. *)
Definition GetTargetType (s : dm_target_spec) : string := target_type s.

End DeviceMapper.

(** ** Collaborators: liblp, fs_mgr_dm_linear and the image manager *)

(** Modelled from the spec: [SlotNumberForSlotSuffix] of liblp. *)
Definition SlotNumberForSlotSuffix (suffix : string) : Z :=
  if bool_decide (suffix = "b") || bool_decide (suffix = "_b") then 1 else 0.

(** [IDeviceInfo::GetSlotSuffix] and [IDeviceInfo::GetSuperDevice]. *)
Definition GetSlotSuffix : M string := w <- get;; ret (slot_suffix w).
Definition GetSuperDevice (slot : Z) : M string :=
  w <- get;; ret (default "super" (super_devices w !! slot)).

(** Modelled from the spec: [ReadMetadata] and [FindPartition] of liblp. *)
Definition ReadMetadata (super_device : string) (slot : Z) : M (option LpMetadata) :=
  w <- get;; ret (lp_metadata w !! (super_device, slot)).

Fixpoint FindPartition (md : LpMetadata) (name : string) : option LpPartition :=
  match md with
  | [] => None
  | p :: rest => if bool_decide (lp_name p = name) then Some p else FindPartition rest name
  end.

Module fs_mgr.

(** Modelled from the spec: [CreateLogicalPartitionParams::GetPartitionName]
    and [GetDeviceName] of fs_mgr_dm_linear.cpp. *)
Definition GetPartitionName (params : CreateLogicalPartitionParams) : string :=
  if negb (bool_decide (partition_name params = "")) then partition_name params
  else match partition params with
       | Some p => lp_name p
       | None => "<unknown partition>"
       end.

Definition GetDeviceName (params : CreateLogicalPartitionParams) : string :=
  if negb (bool_decide (device_name params = "")) then device_name params
  else GetPartitionName params.

(** Modelled from the spec: [CreateLogicalPartitionParams::InitDefaults]
    fills in the metadata (read from the block device at the given slot)
    and the partition (looked up by name), and checks them for
    consistency. *)
Definition InitDefaults (params : CreateLogicalPartitionParams)
  : M (option CreateLogicalPartitionParams) :=
  if bool_decide (block_device params = "") then ret None else
  md <- match metadata params with
        | Some md => ret (Some md)
        | None => match metadata_slot params with
                  | None => ret None
                  | Some slot => ReadMetadata (block_device params) slot
                  end
        end;;
  match md with
  | None => ret None
  | Some md =>
      let part := match partition params with
                  | Some p => Some p
                  | None => if bool_decide (partition_name params = "") then None
                            else FindPartition md (partition_name params)
                  end in
      match part with
      | None => ret None
      | Some p =>
          if negb (bool_decide (partition_name params = ""))
             && negb (bool_decide (partition_name params = lp_name p))
          then ret None
          else ret (Some {| block_device := block_device params;
                            metadata_slot := metadata_slot params;
                            partition_name := partition_name params;
                            partition := Some p;
                            metadata := Some md;
                            device_name := if bool_decide (device_name params = "")
                                           then lp_name p else device_name params;
                            force_writable := force_writable params;
                            timeout_ms := timeout_ms params |})
      end
  end.

(** Modelled from the spec: the table of a logical partition, one linear
    target per extent of the superpartition, laid out back to back. *)
Fixpoint extents_table (super_device : string) (sector : Z) (extents : list LpExtent)
  : DmTable :=
  match extents with
  | [] => []
  | e :: rest =>
      DmTargetLinear sector (num_sectors e) super_device (target_data e)
      :: extents_table super_device (sector + num_sectors e) rest
  end.

(** Modelled from the spec: [CreateDmTable] of fs_mgr_dm_linear.cpp. *)
Definition CreateDmTable (params : CreateLogicalPartitionParams) : M (option DmTable) :=
  params <- InitDefaults params;;
  match params with
  | None => ret None
  | Some params =>
      match partition params with
      | None => ret None
      | Some p => ret (Some (extents_table (block_device params) 0 (lp_extents p)))
      end
  end.

(** Modelled from the spec: [CreateLogicalPartition] of
    fs_mgr_dm_linear.cpp maps the partition's table under
    [params.device_name]. *)
Definition CreateLogicalPartition (params : CreateLogicalPartitionParams)
  : M (bool * string) :=
  params <- InitDefaults params;;
  match params with
  | None => ret (false, "")
  | Some params =>
      match partition params with
      | None => ret (false, "")
      | Some p =>
          DeviceMapper.CreateDevice (device_name params)
            (extents_table (block_device params) 0 (lp_extents p))
            (timeout_ms params)
      end
  end.

End fs_mgr.

(** Modelled from the spec: the image manager of libfiemap creates, finds,
    deletes, maps and unmaps a named backing file; a mapped image is the
    device-mapper device of the same name. *)
Module ImageManager.

Definition BackingImageExists (name : string) : M bool :=
  w <- get;; ret (bool_decide (is_Some (backing_images w !! name))).

Definition IsImageMapped (name : string) : M bool :=
  st <- DeviceMapper.GetState name;;
  ret (negb (bool_decide (st = DmDeviceState.INVALID))).

Definition MapImageDevice (name : string) (timeout_ms : Z) : M (bool * string) :=
  w <- get;;
  match backing_images w !! name with
  | None => ret (false, "")
  | Some size =>
      DeviceMapper.CreateDevice name
        [DmTargetLinear 0 (size / kSectorSize) (image_block_device w) 0] timeout_ms
  end.

Definition MapImageWithDeviceMapper (name : string) : M (bool * string) :=
  MapImageDevice name 0.

Definition UnmapImageIfExists (name : string) : M bool :=
  mapped <- IsImageMapped name;;
  if negb mapped then ret true else DeviceMapper.DeleteDevice name.

Definition DeleteBackingImage (name : string) : M bool :=
  mapped <- IsImageMapped name;;
  if mapped then ret false else
  w <- get;;
  match backing_images w !! name with
  | None => ret false
  | Some _ => modify (set_backing_images (delete name (backing_images w)));;; ret true
  end.

End ImageManager.

(** ** utility.cpp: the list of devices to clean up *)

Inductive AutoDevice :=
| AutoUnmapDevice (name_ : string)
| AutoUnmapImage (name_ : string).

Definition AutoDeviceList := list AutoDevice.

(** [AutoDevice::Release]. *)
Definition AutoDevice_Release (d : AutoDevice) : AutoDevice :=
  match d with
  | AutoUnmapDevice _ => AutoUnmapDevice ""
  | AutoUnmapImage _ => AutoUnmapImage ""
  end.

(** [AutoDeviceList::Release]. *)
Definition AutoDeviceList_Release (l : AutoDeviceList) : AutoDeviceList :=
  AutoDevice_Release <$> l.

(** [AutoUnmapDevice::~AutoUnmapDevice] and [AutoUnmapImage::~AutoUnmapImage]. *)
Definition AutoDevice_destroy (d : AutoDevice) : M unit :=
  match d with
  | AutoUnmapDevice name_ =>
      if bool_decide (name_ = "") then ret tt
      else DeviceMapper.DeleteDeviceIfExists name_;;; ret tt
  | AutoUnmapImage name_ =>
      if bool_decide (name_ = "") then ret tt
      else ImageManager.UnmapImageIfExists name_;;; ret tt
  end.

Fixpoint destroy_each (l : list AutoDevice) : M unit :=
  match l with
  | [] => ret tt
  | d :: rest => AutoDevice_destroy d;;; destroy_each rest
  end.

(** [AutoDeviceList::~AutoDeviceList]: the devices go in reverse order. *)
Definition AutoDeviceList_destroy (l : AutoDeviceList) : M unit :=
  destroy_each (rev l).

(** ** snapshot.cpp: names, lock and state file *)

Definition GetCowName (snapshot_name : string) : string := snapshot_name +:+ "-cow".
Definition GetCowImageDeviceName (snapshot_name : string) : string :=
  snapshot_name +:+ "-cow-img".
Definition GetBaseDeviceName (partition_name : string) : string :=
  partition_name +:+ "-base".
Definition GetSnapshotExtraDeviceName (snapshot_name : string) : string :=
  snapshot_name +:+ "-inner".

(** [SnapshotManager::GetSnapshotDeviceName]. *)
Definition GetSnapshotDeviceName (snapshot_name : string) (status : SnapshotStatus) : string :=
  if negb (device_size status =? snapshot_size status)
  then GetSnapshotExtraDeviceName snapshot_name
  else snapshot_name.

(** [SnapshotManager::LockExclusive] opens the state file with [O_CREAT],
    which creates it empty when it is missing; [LockShared] opens it
    read-only and fails when it is missing.  Within one process [flock]
    always succeeds, and the lock is dropped when the caller returns. *)
Definition LockExclusive : M (option LockedFile) :=
  modify (fun w => set_state_file (Some (default "" (state_file w))) w);;;
  ret (Some {| lock_mode := LOCK_EX |}).

Definition LockShared : M (option LockedFile) :=
  w <- get;;
  match state_file w with
  | Some _ => ret (Some {| lock_mode := LOCK_SH |})
  | None => ret None
  end.

(** [SnapshotManager::ReadUpdateState]. *)
Definition ReadUpdateState (file : LockedFile) : M UpdateState.t :=
  w <- get;;
  let contents := default "" (state_file w) in
  if bool_decide (contents = "") || bool_decide (contents = "none")
  then ret UpdateState.None
  else if bool_decide (contents = "initiated") then ret UpdateState.Initiated
  else if bool_decide (contents = "unverified") then ret UpdateState.Unverified
  else if bool_decide (contents = "merging") then ret UpdateState.Merging
  else if bool_decide (contents = "merge-completed") then ret UpdateState.MergeCompleted
  else if bool_decide (contents = "merge-needs-reboot") then ret UpdateState.MergeNeedsReboot
  else if bool_decide (contents = "merge-failed") then ret UpdateState.MergeFailed
  else ret UpdateState.None.

(** [operator<<(std::ostream&, UpdateState)]: what the stream receives.
    The [default] branch, taken for [Cancelled], writes nothing. *)
Definition UpdateState_print (st : UpdateState.t) : string :=
  match st with
  | UpdateState.None => "none"
  | UpdateState.Initiated => "initiated"
  | UpdateState.Unverified => "unverified"
  | UpdateState.Merging => "merging"
  | UpdateState.MergeCompleted => "merge-completed"
  | UpdateState.MergeNeedsReboot => "merge-needs-reboot"
  | UpdateState.MergeFailed => "merge-failed"
  | _ => ""
  end.

(** [SnapshotManager::Truncate]; [ftruncate] fails on the read-only
    descriptor of a shared lock. *)
Definition Truncate (file : LockedFile) : M bool :=
  if bool_decide (lock_mode file = LOCK_SH) then ret false
  else modify (set_state_file (Some ""));;; ret true.

(** [SnapshotManager::WriteUpdateState]. *)
Definition WriteUpdateState (file : LockedFile) (st : UpdateState.t) : M bool :=
  let contents := UpdateState_print st in
  if bool_decide (contents = "") then ret false else
  truncated <- Truncate file;;
  if negb truncated then ret false else
  modify (set_state_file (Some contents));;; ret true.

(** ** snapshot.cpp: the snapshot records *)

(** [SnapshotManager::to_string(SnapshotState)]. *)
Definition to_string (st : SnapshotState.t) : string :=
  match st with
  | SnapshotState.None => "none"
  | SnapshotState.Created => "created"
  | SnapshotState.Merging => "merging"
  | SnapshotState.MergeCompleted => "merge-completed"
  end.

(** The record file of a snapshot, addressed by the snapshot's name under
    the snapshots directory ([GetSnapshotStatusFilePath]). *)
Definition status_file (w : World) (name : string) : option string :=
  snapshots_dir w ≫= (.!! name).

(** [SnapshotManager::ReadSnapshotStatus]; [None] is the [false] result. *)
Definition ReadSnapshotStatus (lock : LockedFile) (name : string) : M (option SnapshotStatus) :=
  w <- get;;
  match status_file w name with
  | None => ret None
  | Some contents =>
      let pieces := base.Split contents " " in
      if negb (bool_decide (length pieces = 7%nat)) then ret None else
      match pieces with
      | [p0; p1; p2; p3; p4; p5; p6] =>
          let st :=
            if bool_decide (p0 = "none") then Some SnapshotState.None
            else if bool_decide (p0 = "created") then Some SnapshotState.Created
            else if bool_decide (p0 = "merging") then Some SnapshotState.Merging
            else if bool_decide (p0 = "merge-completed") then Some SnapshotState.MergeCompleted
            else None in
          ret (st ← st;
               device_size ← base.ParseUint p1 UINT64_MAX;
               snapshot_size ← base.ParseUint p2 UINT64_MAX;
               cow_partition_size ← base.ParseUint p3 UINT64_MAX;
               cow_file_size ← base.ParseUint p4 UINT64_MAX;
               sectors_allocated ← base.ParseUint p5 UINT64_MAX;
               metadata_sectors ← base.ParseUint p6 UINT64_MAX;
               Some {| state := st; device_size := device_size;
                       snapshot_size := snapshot_size;
                       cow_partition_size := cow_partition_size;
                       cow_file_size := cow_file_size;
                       sectors_allocated := sectors_allocated;
                       metadata_sectors := metadata_sectors |})
      | _ => ret None
      end
  end.

Fixpoint string_drop (n : nat) (s : string) : string :=
  match n, s with
  | O, _ => s
  | S n', String _ rest => string_drop n' rest
  | S _, EmptyString => EmptyString
  end.

(** Writing [contents] at offset zero of a file that was opened without
    [O_TRUNC]: the bytes of the old contents beyond the written ones stay. *)
Definition write_at_start (old contents : string) : string :=
  contents +:+ string_drop (String.length contents) old.

(** The line [WriteSnapshotStatus] composes. *)
Definition status_line_of (status : SnapshotStatus) : string :=
  base.Join [to_string (state status);
             base.to_string (device_size status);
             base.to_string (snapshot_size status);
             base.to_string (cow_partition_size status);
             base.to_string (cow_file_size status);
             base.to_string (sectors_allocated status);
             base.to_string (metadata_sectors status)] " ".

(** [SnapshotManager::WriteSnapshotStatus].  The file is opened with
    [O_RDWR | O_CREAT | O_SYNC] and no [O_TRUNC]. *)
Definition WriteSnapshotStatus (lock : LockedFile) (name : string) (status : SnapshotStatus)
  : M bool :=
  CHECK (bool_decide (lock_mode lock = LOCK_EX));;;
  w <- get;;
  match snapshots_dir w with
  | None => ret false
  | Some files =>
      let contents := status_line_of status in
      let old := default "" (files !! name) in
      modify (set_snapshots_dir (Some (<[name := write_at_start old contents]> files)));;;
      ret true
  end.

(** [SnapshotManager::ListSnapshots]. *)
Definition ListSnapshots (lock : LockedFile) : M (option (list string)) :=
  w <- get;;
  match snapshots_dir w with
  | None => ret None
  | Some files => ret (Some (map_to_list files).*1)
  end.

(** ** snapshot.cpp: image manager and unmapping *)

(** [SnapshotManager::EnsureImageManager]. *)
Definition EnsureImageManager : M bool :=
  w <- get;;
  if images_ w then ret true
  else if gsid_available w then modify (set_images_ true);;; ret true
  else ret false.

(** [SnapshotManager::UnmapSnapshot]. *)
Definition UnmapSnapshot (lock : LockedFile) (name : string) : M bool :=
  deleted <- DeviceMapper.DeleteDeviceIfExists name;;
  if negb deleted then ret false else
  let snapshot_extra_device := GetSnapshotExtraDeviceName name in
  deleted <- DeviceMapper.DeleteDeviceIfExists snapshot_extra_device;;
  if negb deleted then ret false else
  ret true.

(** [SnapshotManager::UnmapCowDevices]. *)
Definition UnmapCowDevices (lock : LockedFile) (name : string) : M bool :=
  ok <- EnsureImageManager;;
  if negb ok then ret false else
  let cow_name := GetCowName name in
  deleted <- DeviceMapper.DeleteDeviceIfExists cow_name;;
  if negb deleted then ret false else
  let cow_image_name := GetCowImageDeviceName name in
  unmapped <- ImageManager.UnmapImageIfExists cow_image_name;;
  if negb unmapped then ret false else
  ret true.

(** [SnapshotManager::UnmapPartitionWithSnapshot]. *)
Definition UnmapPartitionWithSnapshot (lock : LockedFile) (target_partition_name : string)
  : M bool :=
  ok <- UnmapSnapshot lock target_partition_name;;
  if negb ok then ret false else
  ok <- UnmapCowDevices lock target_partition_name;;
  if negb ok then ret false else
  let base_name := GetBaseDeviceName target_partition_name in
  deleted <- DeviceMapper.DeleteDeviceIfExists base_name;;
  if negb deleted then ret false else
  ret true.

(** [SnapshotManager::DeleteSnapshot]. *)
Definition DeleteSnapshot (lock : LockedFile) (name : string) : M bool :=
  CHECK (bool_decide (lock_mode lock = LOCK_EX));;;
  ok <- EnsureImageManager;;
  if negb ok then ret false else
  ok <- UnmapCowDevices lock name;;
  if negb ok then ret false else
  let cow_image_name := GetCowImageDeviceName name in
  image_exists <- ImageManager.BackingImageExists cow_image_name;;
  deleted <- (if image_exists then ImageManager.DeleteBackingImage cow_image_name
              else ret true);;
  if negb deleted then ret false else
  modify (fun w => set_snapshots_dir (delete name <$> snapshots_dir w) w);;;
  ret true.

(** [SnapshotManager::RemoveAllSnapshots]. *)
Fixpoint RemoveAllSnapshots_loop (lock : LockedFile) (snapshots : list string) (ok : bool)
  : M bool :=
  match snapshots with
  | [] => ret ok
  | name :: rest =>
      unmapped <- UnmapPartitionWithSnapshot lock name;;
      removed <- (if unmapped then DeleteSnapshot lock name else ret false);;
      RemoveAllSnapshots_loop lock rest (ok && removed)
  end.

Definition RemoveAllSnapshots (lock : LockedFile) : M bool :=
  snapshots <- ListSnapshots lock;;
  match snapshots with
  | None => ret false
  | Some snapshots => RemoveAllSnapshots_loop lock snapshots true
  end.

(** [SnapshotManager::RemoveSnapshotBootIndicator]. *)
Definition RemoveSnapshotBootIndicator : M unit :=
  modify (set_boot_indicator None).

(** [SnapshotManager::RemoveAllUpdateState]. *)
Definition RemoveAllUpdateState (lock : LockedFile) : M bool :=
  removed <- RemoveAllSnapshots lock;;
  if negb removed then ret false else
  RemoveSnapshotBootIndicator;;;
  WriteUpdateState lock UpdateState.None.

(** [SnapshotManager::FinishedSnapshotWrites]. *)
Definition FinishedSnapshotWrites : M bool :=
  lock <- LockExclusive;;
  match lock with
  | None => ret false
  | Some lock =>
      update_state <- ReadUpdateState lock;;
      if bool_decide (update_state = UpdateState.Unverified) then ret true else
      if negb (bool_decide (update_state = UpdateState.Initiated)) then ret false else
      contents <- GetSlotSuffix;;
      modify (set_boot_indicator (Some contents));;;
      WriteUpdateState lock UpdateState.Unverified
  end.

(** ** snapshot.cpp: mapping *)

(** [std::chrono::milliseconds::min()]. *)
Definition milliseconds_min : Z := - 2 ^ 63.

(** [GetRemainingTime].  The steady clock does not advance in this model:
    no time has passed since [begin]. *)
Definition GetRemainingTime (timeout : Z) : Z :=
  if timeout =? 0 then 0
  else
    let passed_time := 0 in
    let remaining_time := timeout - passed_time in
    if remaining_time <=? 0 then milliseconds_min else remaining_time.

(** [SnapshotManager::MapSnapshot]; the second component is [dev_path],
    which is meaningful when the result is [true]. *)
Definition MapSnapshot (lock : LockedFile) (name base_device cow_device : string)
    (timeout_ms : Z) : M (bool * string) :=
  ok <- EnsureImageManager;;
  if negb ok then ret (false, "") else
  status <- ReadSnapshotStatus lock name;;
  match status with
  | None => ret (false, "")
  | Some status =>
      if bool_decide (state status = SnapshotState.MergeCompleted) then ret (false, "") else
      size_ok <-
        (if base.StartsWith base_device "/" then
           w <- get;;
           match block_devices w !! base_device with
           | None => ret false
           | Some dev_size =>
               if dev_size =? 0 then ret false
               else if negb (device_size status =? dev_size) then ret false
               else ret true
           end
         else ret true);;
      if negb size_ok then ret (false, "") else
      if negb (device_size status mod kSectorSize =? 0) then ret (false, "") else
      if negb (snapshot_size status mod kSectorSize =? 0)
         || (device_size status <? snapshot_size status)
      then ret (false, "") else
      let snapshot_sectors := snapshot_size status / kSectorSize in
      let linear_sectors := (device_size status - snapshot_size status) / kSectorSize in
      update_state <- ReadUpdateState lock;;
      let mode :=
        match update_state with
        | UpdateState.MergeCompleted
        | UpdateState.MergeNeedsReboot => None
        | UpdateState.Merging
        | UpdateState.MergeFailed => Some SnapshotStorageMode.Merge
        | _ => Some SnapshotStorageMode.Persistent
        end in
      match mode with
      | None => ret (false, "")
      | Some mode =>
          let snap_name := if 0 <? linear_sectors
                           then GetSnapshotExtraDeviceName name else name in
          let table := [DmTargetSnapshot 0 snapshot_sectors base_device cow_device
                          mode kSnapshotChunkSize] in
          created <- DeviceMapper.CreateDevice snap_name table timeout_ms;;
          if negb created.1 then ret (false, created.2) else
          if negb (linear_sectors =? 0) then
            snap_dev <- DeviceMapper.GetDeviceString snap_name;;
            match snap_dev with
            | None => ret (false, created.2)
            | Some snap_dev =>
                let table := [DmTargetLinear 0 snapshot_sectors snap_dev 0;
                              DmTargetLinear snapshot_sectors linear_sectors
                                base_device snapshot_sectors] in
                outer <- DeviceMapper.CreateDevice name table timeout_ms;;
                if negb outer.1
                then DeviceMapper.DeleteDevice snap_name;;; ret (false, outer.2)
                else ret (true, outer.2)
            end
          else ret (true, created.2)
      end
  end.

(** [SnapshotManager::MapCowImage]. *)
Definition MapCowImage (name : string) (timeout_ms : Z) : M bool :=
  ok <- EnsureImageManager;;
  if negb ok then ret false else
  let cow_image_name := GetCowImageDeviceName name in
  w <- get;;
  mapped <- (if has_local_image_manager_ w
             then ImageManager.MapImageWithDeviceMapper cow_image_name
             else ImageManager.MapImageDevice cow_image_name timeout_ms);;
  ret mapped.1.

Definition with_cow_partition (params : CreateLogicalPartitionParams) (cow_name : string)
  : CreateLogicalPartitionParams :=
  {| block_device := block_device params; metadata_slot := metadata_slot params;
     partition_name := cow_name; partition := None; metadata := metadata params;
     device_name := ""; force_writable := force_writable params;
     timeout_ms := timeout_ms params |}.

(** [SnapshotManager::MapCowDevices].  The result carries the list of
    created devices as the caller finds it afterwards, and [cow_name]. *)
Definition MapCowDevices (lock : LockedFile) (params : CreateLogicalPartitionParams)
    (snapshot_status : SnapshotStatus) (created_devices : AutoDeviceList)
  : M (bool * AutoDeviceList * string) :=
  ok <- EnsureImageManager;;
  let partition_name := fs_mgr.GetPartitionName params in
  let cow_image_name := GetCowImageDeviceName partition_name in
  let cow_name := GetCowName partition_name in
  if negb ok then ret (false, created_devices, "") else
  CHECK (0 <? (cow_partition_size snapshot_status + cow_file_size snapshot_status)
               mod 2 ^ 64);;;
  image <-
    (if 0 <? cow_file_size snapshot_status then
       let remaining_time := GetRemainingTime (timeout_ms params) in
       if remaining_time <? 0 then ret (false, created_devices) else
       mapped <- MapCowImage partition_name remaining_time;;
       if negb mapped then ret (false, created_devices)
       else ret (true, created_devices ++ [AutoUnmapImage cow_image_name])
     else ret (true, created_devices));;
  let created_devices := image.2 in
  if negb image.1 then ret (false, created_devices, cow_name) else
  if (0 <? cow_file_size snapshot_status) && (cow_partition_size snapshot_status =? 0)
  then ret (true, created_devices, cow_image_name) else
  let remaining_time := GetRemainingTime (timeout_ms params) in
  if remaining_time <? 0 then ret (false, created_devices, cow_name) else
  CHECK (0 <? cow_partition_size snapshot_status);;;
  let cow_partition_params := with_cow_partition params cow_name in
  table <- fs_mgr.CreateDmTable cow_partition_params;;
  match table with
  | None => ret (false, created_devices, cow_name)
  | Some table =>
      table <-
        (if 0 <? cow_file_size snapshot_status then
           cow_image_device <- DeviceMapper.GetDeviceString cow_image_name;;
           match cow_image_device with
           | None => ret None
           | Some cow_image_device =>
               let cow_partition_sectors := cow_partition_size snapshot_status / kSectorSize in
               let cow_image_sectors := cow_file_size snapshot_status / kSectorSize in
               ret (Some (table ++ [DmTargetLinear cow_partition_sectors cow_image_sectors
                                      cow_image_device 0]))
           end
         else ret (Some table));;
      match table with
      | None => ret (false, created_devices, cow_name)
      | Some table =>
          created <- DeviceMapper.CreateDevice cow_name table remaining_time;;
          if negb created.1 then ret (false, created_devices, cow_name)
          else ret (true, created_devices ++ [AutoUnmapDevice cow_name], cow_name)
      end
  end.

Definition with_base_device (params : CreateLogicalPartitionParams)
  : CreateLogicalPartitionParams :=
  {| block_device := block_device params; metadata_slot := metadata_slot params;
     partition_name := partition_name params; partition := partition params;
     metadata := metadata params;
     device_name := GetBaseDeviceName (fs_mgr.GetPartitionName params);
     force_writable := true; timeout_ms := timeout_ms params |}.

Definition with_timeout (params : CreateLogicalPartitionParams) (t : Z)
  : CreateLogicalPartitionParams :=
  {| block_device := block_device params; metadata_slot := metadata_slot params;
     partition_name := partition_name params; partition := partition params;
     metadata := metadata params; device_name := device_name params;
     force_writable := force_writable params; timeout_ms := t |}.

(** The [do { ... } while (0)] block of [MapPartitionWithSnapshot] that
    determines [live_snapshot_status]; the outer [None] is its
    [return false]. *)
Definition live_snapshot (lock : LockedFile) (params : CreateLogicalPartitionParams)
    (part : LpPartition) : M (option (option SnapshotStatus)) :=
  if Z.land (lp_attributes part) LP_PARTITION_ATTR_UPDATED =? 0 then ret (Some None) else
  w <- get;;
  match status_file w (fs_mgr.GetPartitionName params) with
  | None => ret (Some None)
  | Some _ =>
      status <- ReadSnapshotStatus lock (fs_mgr.GetPartitionName params);;
      match status with
      | None => ret None
      | Some status =>
          if bool_decide (state status = SnapshotState.MergeCompleted)
          then ret (Some None)
          else ret (Some (Some status))
      end
  end.

(** [SnapshotManager::MapPartitionWithSnapshot]; the second component is
    [path].  Every [return] after the declaration of [created_devices]
    runs the destructor of the list. *)
Definition MapPartitionWithSnapshot (lock : LockedFile) (params : CreateLogicalPartitionParams)
  : M (bool * string) :=
  if negb (bool_decide (fs_mgr.GetPartitionName params = fs_mgr.GetDeviceName params))
  then ret (false, "") else
  params <- fs_mgr.InitDefaults params;;
  match params with
  | None => ret (false, "")
  | Some params =>
      match partition params with
      | None => ret (false, "")
      | Some part =>
          if bool_decide (lp_extents part = []) then ret (true, "") else
          live_snapshot_status <- live_snapshot lock params part;;
          match live_snapshot_status with
          | None => ret (false, "")
          | Some live_snapshot_status =>
              let params := if live_snapshot_status is Some _
                            then with_base_device params else params in
              created <- fs_mgr.CreateLogicalPartition params;;
              if negb created.1 then ret (false, "") else
              let created_devices := [AutoUnmapDevice (fs_mgr.GetDeviceName params)] in
              match live_snapshot_status with
              | None =>
                  AutoDeviceList_destroy (AutoDeviceList_Release created_devices);;;
                  ret (true, "")
              | Some status =>
                  base_device <- DeviceMapper.GetDeviceString (fs_mgr.GetDeviceName params);;
                  match base_device with
                  | None => AutoDeviceList_destroy created_devices;;; ret (false, "")
                  | Some base_device =>
                      let remaining_time := GetRemainingTime (timeout_ms params) in
                      if remaining_time <? 0
                      then AutoDeviceList_destroy created_devices;;; ret (false, "") else
                      let cow_params := with_timeout params remaining_time in
                      cow <- MapCowDevices lock cow_params status created_devices;;
                      let created_devices := cow.1.2 in
                      let cow_name := cow.2 in
                      if negb cow.1.1
                      then AutoDeviceList_destroy created_devices;;; ret (false, "") else
                      cow_device <- DeviceMapper.GetDeviceString cow_name;;
                      match cow_device with
                      | None => AutoDeviceList_destroy created_devices;;; ret (false, "")
                      | Some cow_device =>
                          let remaining_time := GetRemainingTime (timeout_ms params) in
                          if remaining_time <? 0
                          then AutoDeviceList_destroy created_devices;;; ret (false, "") else
                          mapped <- MapSnapshot lock (fs_mgr.GetPartitionName params)
                                      base_device cow_device remaining_time;;
                          if negb mapped.1
                          then AutoDeviceList_destroy created_devices;;; ret (false, mapped.2)
                          else
                            AutoDeviceList_destroy (AutoDeviceList_Release created_devices);;;
                            ret (true, mapped.2)
                      end
                  end
              end
          end
      end
  end.

(** ** snapshot.cpp: merging *)

Inductive TableQuery := Table | Status.

(** The static [GetSingleTarget]. *)
Definition GetSingleTarget (dm_name : string) (query : TableQuery) : M (option TargetInfo) :=
  st <- DeviceMapper.GetState dm_name;;
  if bool_decide (st = DmDeviceState.INVALID) then ret None else
  targets <- (match query with
              | Status => DeviceMapper.GetTableStatus dm_name
              | Table => DeviceMapper.GetTableInfo dm_name
              end);;
  match targets with
  | None => ret None
  | Some [target] => ret (Some target)
  | Some _ => ret None
  end.

(** [SnapshotManager::IsSnapshotDevice]; [Some target] is the [true] result. *)
Definition IsSnapshotDevice (dm_name : string) : M (option TargetInfo) :=
  snap_target <- GetSingleTarget dm_name Status;;
  match snap_target with
  | None => ret None
  | Some snap_target =>
      let type := DeviceMapper.GetTargetType (spec snap_target) in
      if negb (bool_decide (type = "snapshot")) && negb (bool_decide (type = "snapshot-merge"))
      then ret None
      else ret (Some snap_target)
  end.

(** [SnapshotManager::QuerySnapshotStatus].  [status] is the caller's
    variable on entry; the result holds the success flag, the target type
    and the caller's variable on exit. *)
Definition QuerySnapshotStatus (dm_name : string) (status : SnapshotTargetStatus)
  : M (bool * string * SnapshotTargetStatus) :=
  target <- IsSnapshotDevice dm_name;;
  match target with
  | None => ret (false, "", status)
  | Some target =>
      let parsed := DmTargetSnapshotParse.ParseStatusText (data target) status in
      if negb parsed.1 then ret (false, "", parsed.2)
      else ret (true, DeviceMapper.GetTargetType (spec target), parsed.2)
  end.

(** [SnapshotManager::RewriteSnapshotDeviceTable]. *)
Definition RewriteSnapshotDeviceTable (dm_name : string) : M bool :=
  old_targets <- DeviceMapper.GetTableInfo dm_name;;
  match old_targets with
  | None => ret false
  | Some [old_target] =>
      if negb (bool_decide (DeviceMapper.GetTargetType (spec old_target) = "snapshot"))
      then ret false else
      match DmTargetSnapshotParse.GetDevicesFromParams (data old_target) with
      | None => ret false
      | Some (base_device, cow_device) =>
          let table := [DmTargetSnapshot 0 (spec_length (spec old_target))
                          base_device cow_device
                          SnapshotStorageMode.Merge kSnapshotChunkSize] in
          DeviceMapper.LoadTableAndActivate dm_name table
      end
  | Some _ => ret false
  end.

Definition set_merge_progress (status : SnapshotStatus) (st : SnapshotState.t)
    (dm_status : SnapshotTargetStatus) : SnapshotStatus :=
  {| state := st; device_size := device_size status;
     snapshot_size := snapshot_size status;
     cow_partition_size := cow_partition_size status;
     cow_file_size := cow_file_size status;
     sectors_allocated := st_sectors_allocated dm_status;
     metadata_sectors := st_metadata_sectors dm_status |}.

Definition set_state (status : SnapshotStatus) (st : SnapshotState.t) : SnapshotStatus :=
  {| state := st; device_size := device_size status;
     snapshot_size := snapshot_size status;
     cow_partition_size := cow_partition_size status;
     cow_file_size := cow_file_size status;
     sectors_allocated := sectors_allocated status;
     metadata_sectors := metadata_sectors status |}.

(** [SnapshotManager::SwitchSnapshotToMerge].  [dm_status] is an
    uninitialised local that a failing query leaves (partly) as it was. *)
Definition SwitchSnapshotToMerge (lock : LockedFile) (name : string) : M bool :=
  status <- ReadSnapshotStatus lock name;;
  match status with
  | None => ret false
  | Some status =>
      let dm_name := GetSnapshotDeviceName name status in
      rewrote <- RewriteSnapshotDeviceTable dm_name;;
      if negb rewrote then ret false else
      w <- get;;
      queried <- QuerySnapshotStatus dm_name (indeterminate_status w);;
      let status := set_merge_progress status SnapshotState.Merging queried.2 in
      WriteSnapshotStatus lock name status;;;
      ret true
  end.

(** The two loops of [InitiateMerge]. *)
Fixpoint all_mapped (snapshots : list string) : M bool :=
  match snapshots with
  | [] => ret true
  | snapshot :: rest =>
      st <- DeviceMapper.GetState snapshot;;
      if bool_decide (st = DmDeviceState.INVALID) then ret false
      else all_mapped rest
  end.

Fixpoint switch_all (lock : LockedFile) (snapshots : list string) (rewrote_all : bool)
  : M bool :=
  match snapshots with
  | [] => ret rewrote_all
  | snapshot :: rest =>
      switched <- SwitchSnapshotToMerge lock snapshot;;
      switch_all lock rest (if negb switched then false else rewrote_all)
  end.

(** [SnapshotManager::InitiateMerge]. *)
Definition InitiateMerge : M bool :=
  lock <- LockExclusive;;
  match lock with
  | None => ret false
  | Some lock =>
      st <- ReadUpdateState lock;;
      if negb (bool_decide (st = UpdateState.Unverified)) then ret false else
      w <- get;;
      match boot_indicator w with
      | None => ret false
      | Some old_slot =>
          new_slot <- GetSlotSuffix;;
          if bool_decide (new_slot = old_slot) then ret false else
          snapshots <- ListSnapshots lock;;
          match snapshots with
          | None => ret false
          | Some snapshots =>
              mapped <- all_mapped snapshots;;
              if negb mapped then ret false else
              written <- WriteUpdateState lock UpdateState.Merging;;
              if negb written then ret false else
              rewrote_all <- switch_all lock snapshots true;;
              (if negb rewrote_all
               then WriteUpdateState lock UpdateState.MergeFailed;;; ret tt
               else ret tt);;;
              ret true
          end
      end
  end.

(** [SnapshotManager::IsCancelledSnapshot]. *)
Definition IsCancelledSnapshot (snapshot_name : string) : M bool :=
  suffix <- GetSlotSuffix;;
  let slot := SlotNumberForSlotSuffix suffix in
  super_device <- GetSuperDevice slot;;
  md <- ReadMetadata super_device slot;;
  match md with
  | None => ret false
  | Some md =>
      match FindPartition md snapshot_name with
      | None => ret false
      | Some p => ret (Z.land (lp_attributes p) LP_PARTITION_ATTR_UPDATED =? 0)
      end
  end.

(** [SnapshotManager::CollapseSnapshotDevice]; the sector counts are
    [uint64_t], so their sum wraps. *)
Definition CollapseSnapshotDevice (name : string) (status : SnapshotStatus) : M bool :=
  let dm_name := GetSnapshotDeviceName name status in
  target <- GetSingleTarget dm_name Table;;
  match target with
  | None => ret false
  | Some target =>
      if negb (bool_decide (DeviceMapper.GetTargetType (spec target) = "snapshot-merge"))
      then ret false else
      match DmTargetSnapshotParse.GetDevicesFromParams (data target) with
      | None => ret false
      | Some _ =>
          let snapshot_sectors := snapshot_size status / kSectorSize in
          if negb (snapshot_sectors * kSectorSize =? snapshot_size status) then ret false else
          outer_ok <-
            (if negb (bool_decide (dm_name = name)) then
               outer_table <- DeviceMapper.GetTableInfo name;;
               match outer_table with
               | None => ret false
               | Some [t0; t1] =>
                   if negb (forallb (fun t => bool_decide
                              (DeviceMapper.GetTargetType (spec t) = "linear")) [t0; t1])
                   then ret false else
                   if negb (spec_length (spec t0) =? snapshot_sectors) then ret false else
                   let expected_device_sectors := device_size status / kSectorSize in
                   let actual_device_sectors :=
                     (spec_length (spec t0) + spec_length (spec t1)) mod 2 ^ 64 in
                   if negb (expected_device_sectors =? actual_device_sectors) then ret false
                   else ret true
               | Some _ => ret false
               end
             else ret true);;
          if negb outer_ok then ret false else
          suffix <- GetSlotSuffix;;
          let slot := SlotNumberForSlotSuffix suffix in
          super_device <- GetSuperDevice slot;;
          let base_device_params :=
            {| block_device := super_device; metadata_slot := Some slot;
               partition_name := name; partition := None; metadata := None;
               device_name := ""; force_writable := false; timeout_ms := 0 |} in
          table <- fs_mgr.CreateDmTable base_device_params;;
          match table with
          | None => ret false
          | Some table =>
              loaded <- DeviceMapper.LoadTableAndActivate name table;;
              if negb loaded then ret false else
              deleted <- (if negb (bool_decide (dm_name = name))
                          then DeviceMapper.DeleteDeviceIfExists dm_name
                          else ret true);;
              if negb deleted then ret false else
              let base_name := GetBaseDeviceName name in
              DeviceMapper.DeleteDeviceIfExists base_name;;;
              ret true
          end
      end
  end.

(** [SnapshotManager::OnSnapshotMergeComplete]. *)
Definition OnSnapshotMergeComplete (lock : LockedFile) (name : string)
    (status : SnapshotStatus) : M bool :=
  let dm_name := GetSnapshotDeviceName name status in
  is_snapshot <- IsSnapshotDevice dm_name;;
  collapsed <-
    (if is_snapshot is Some _ then
       w <- get;;
       queried <- QuerySnapshotStatus dm_name (indeterminate_status w);;
       if negb queried.1.1 then ret false else
       if negb (bool_decide (queried.1.2 = "snapshot-merge")) then ret false else
       if negb (st_sectors_allocated queried.2 =? st_metadata_sectors queried.2)
       then ret false else
       CollapseSnapshotDevice name status
     else ret true);;
  if negb collapsed then ret false else
  deleted <- DeleteSnapshot lock name;;
  if negb deleted then ret false else
  ret true.

(** [SnapshotManager::CheckTargetMergeState].  The [DCHECK] is compiled
    out of release builds. *)
Definition CheckTargetMergeState (lock : LockedFile) (name : string) : M UpdateState.t :=
  snapshot_status <- ReadSnapshotStatus lock name;;
  match snapshot_status with
  | None => ret UpdateState.MergeFailed
  | Some snapshot_status =>
      let dm_name := GetSnapshotDeviceName name snapshot_status in
      is_snapshot <- IsSnapshotDevice dm_name;;
      match is_snapshot with
      | None =>
          cancelled <- IsCancelledSnapshot name;;
          if cancelled then DeleteSnapshot lock name;;; ret UpdateState.Cancelled else
          if bool_decide (state snapshot_status = SnapshotState.MergeCompleted)
          then OnSnapshotMergeComplete lock name snapshot_status;;;
               ret UpdateState.MergeCompleted
          else ret UpdateState.MergeFailed
      | Some _ =>
          w <- get;;
          queried <- QuerySnapshotStatus dm_name (indeterminate_status w);;
          if negb queried.1.1 then ret UpdateState.MergeFailed else
          if negb (bool_decide (queried.1.2 = "snapshot-merge"))
          then ret UpdateState.MergeFailed else
          if negb (st_sectors_allocated queried.2 =? st_metadata_sectors queried.2) then
            if bool_decide (state snapshot_status = SnapshotState.MergeCompleted)
            then ret UpdateState.MergeFailed
            else ret UpdateState.Merging
          else
            let snapshot_status := set_state snapshot_status SnapshotState.MergeCompleted in
            written <- WriteSnapshotStatus lock name snapshot_status;;
            if negb written then ret UpdateState.MergeFailed else
            completed <- OnSnapshotMergeComplete lock name snapshot_status;;
            if negb completed then ret UpdateState.MergeNeedsReboot
            else ret UpdateState.MergeCompleted
      end
  end.

(** [SnapshotManager::HandleCancelledUpdate]. *)
Definition HandleCancelledUpdate (lock : LockedFile) : M bool :=
  w <- get;;
  match boot_indicator w with
  | None => ret false
  | Some old_slot =>
      suffix <- GetSlotSuffix;;
      if negb (bool_decide (suffix = old_slot)) then ret false else
      RemoveAllUpdateState lock;;;
      ret true
  end.

(** The four flags of the polling loop of [CheckMergeState(LockedFile* )]. *)
Record MergeFlags := {
  cancelled : bool;
  failed : bool;
  merging : bool;
  needs_reboot : bool;
}.

Definition no_flags : MergeFlags :=
  {| cancelled := false; failed := false; merging := false; needs_reboot := false |}.

(** The [switch] in the body of the loop. *)
Definition note_snapshot_state (fl : MergeFlags) (snapshot_state : UpdateState.t)
  : MergeFlags :=
  match snapshot_state with
  | UpdateState.MergeFailed =>
      {| cancelled := cancelled fl; failed := true; merging := merging fl;
         needs_reboot := needs_reboot fl |}
  | UpdateState.Merging =>
      {| cancelled := cancelled fl; failed := failed fl; merging := true;
         needs_reboot := needs_reboot fl |}
  | UpdateState.MergeNeedsReboot =>
      {| cancelled := cancelled fl; failed := failed fl; merging := merging fl;
         needs_reboot := true |}
  | UpdateState.MergeCompleted => fl
  | UpdateState.Cancelled =>
      {| cancelled := true; failed := failed fl; merging := merging fl;
         needs_reboot := needs_reboot fl |}
  | _ =>
      {| cancelled := cancelled fl; failed := true; merging := merging fl;
         needs_reboot := needs_reboot fl |}
  end.

(** The polling loop. *)
Fixpoint poll_snapshots (lock : LockedFile) (snapshots : list string) (fl : MergeFlags)
  : M MergeFlags :=
  match snapshots with
  | [] => ret fl
  | snapshot :: rest =>
      snapshot_state <- CheckTargetMergeState lock snapshot;;
      poll_snapshots lock rest (note_snapshot_state fl snapshot_state)
  end.

(** [SnapshotManager::CheckMergeState(LockedFile* )]. *)
Definition CheckMergeState_locked (lock : LockedFile) : M UpdateState.t :=
  st <- ReadUpdateState lock;;
  match st with
  | UpdateState.None
  | UpdateState.MergeCompleted => ret st
  | UpdateState.Unverified =>
      handled <- HandleCancelledUpdate lock;;
      if handled then ret UpdateState.Cancelled else ret st
  | UpdateState.Merging
  | UpdateState.MergeNeedsReboot
  | UpdateState.MergeFailed =>
      snapshots <- ListSnapshots lock;;
      match snapshots with
      | None => ret UpdateState.MergeFailed
      | Some snapshots =>
          fl <- poll_snapshots lock snapshots no_flags;;
          if merging fl then ret UpdateState.Merging else
          if failed fl then ret UpdateState.MergeFailed else
          if needs_reboot fl then
            WriteUpdateState lock UpdateState.MergeNeedsReboot;;;
            ret UpdateState.MergeNeedsReboot
          else
          if cancelled fl then ret UpdateState.Cancelled else
          ret UpdateState.MergeCompleted
      end
  | _ => ret st
  end.

(** [SnapshotManager::AcknowledgeMergeSuccess]. *)
Definition AcknowledgeMergeSuccess (lock : LockedFile) : M unit :=
  RemoveAllUpdateState lock;;; ret tt.

(** [SnapshotManager::CheckMergeState()]. *)
Definition CheckMergeState : M UpdateState.t :=
  lock <- LockExclusive;;
  match lock with
  | None => ret UpdateState.MergeFailed
  | Some lock =>
      st <- CheckMergeState_locked lock;;
      (if bool_decide (st = UpdateState.MergeCompleted) then AcknowledgeMergeSuccess lock
       else if bool_decide (st = UpdateState.Cancelled)
            then RemoveAllUpdateState lock;;; ret tt
            else ret tt);;;
      ret st
  end.

(** ** snapshot.cpp: the life cycle of an update *)

(** [SnapshotManager::TryCancelUpdate]; the second component of the result
    is [*needs_merge]. *)
Definition TryCancelUpdate : M (bool * bool) :=
  file <- LockExclusive;;
  match file with
  | None => ret (false, false)
  | Some file =>
      st <- ReadUpdateState file;;
      if bool_decide (st = UpdateState.None) then ret (true, false) else
      if bool_decide (st = UpdateState.Initiated) then
        removed <- RemoveAllUpdateState file;;
        ret (removed, false)
      else
      returned <-
        (if bool_decide (st = UpdateState.Unverified) then
           w <- get;;
           match boot_indicator w with
           | None =>
               removed <- RemoveAllUpdateState file;;
               ret (Some removed)
           | Some contents =>
               suffix <- GetSlotSuffix;;
               if bool_decide (suffix = contents) then
                 removed <- RemoveAllUpdateState file;;
                 ret (Some removed)
               else ret None
           end
         else ret None);;
      match returned with
      | Some removed => ret (removed, false)
      | None => ret (true, true)
      end
  end.

(** [SnapshotManager::CancelUpdate]. *)
Definition CancelUpdate : M bool :=
  cancelled <- TryCancelUpdate;;
  if negb cancelled.1 then ret false else
  ret (negb cancelled.2).

(** [SnapshotManager::AcknowledgeMergeFailure]. *)
Definition AcknowledgeMergeFailure : M unit :=
  lock <- LockExclusive;;
  match lock with
  | None => ret tt
  | Some lock =>
      st <- ReadUpdateState lock;;
      if negb (bool_decide (st = UpdateState.Merging))
         && negb (bool_decide (st = UpdateState.MergeNeedsReboot))
      then ret tt
      else WriteUpdateState lock UpdateState.MergeFailed;;; ret tt
  end.

(** [SnapshotManager::ProcessUpdateState].  The loop has no bound of its
    own; [polls] bounds the number of its rounds, and the result [None]
    says that the merge was still going on after that many.  [sleep] is
    what happens to the world during [sleep_for(2s)]. *)
Fixpoint ProcessUpdateState (sleep : M unit) (polls : nat) : M (option UpdateState.t) :=
  match polls with
  | O => ret None
  | S polls =>
      st <- CheckMergeState;;
      (if bool_decide (st = UpdateState.MergeFailed) then AcknowledgeMergeFailure
       else ret tt);;;
      if negb (bool_decide (st = UpdateState.Merging)) then ret (Some st)
      else sleep;;; ProcessUpdateState sleep polls
  end.

(** [SnapshotManager::BeginUpdate]; the result [None] says that the wait
    for the merge did not end within [polls] rounds. *)
Definition BeginUpdate (sleep : M unit) (polls : nat) : M (option bool) :=
  cancelled <- TryCancelUpdate;;
  if negb cancelled.1 then ret (Some false) else
  waited <- (if cancelled.2 then
               st <- ProcessUpdateState sleep polls;;
               ret (bool_decide (is_Some st))
             else ret true);;
  if negb waited then ret None else
  file <- LockExclusive;;
  match file with
  | None => ret (Some false)
  | Some file =>
      st <- ReadUpdateState file;;
      if negb (bool_decide (st = UpdateState.None)) then ret (Some false) else
      written <- WriteUpdateState file UpdateState.Initiated;;
      ret (Some written)
  end.

(** [SnapshotManager::CreateSnapshot]. *)
Definition CreateSnapshot (lock : LockedFile) (name : string) (status : SnapshotStatus)
  : M bool :=
  CHECK (bool_decide (lock_mode lock = LOCK_EX));;;
  if negb (device_size status mod kSectorSize =? 0) then ret false else
  if negb (snapshot_size status mod kSectorSize =? 0) then ret false else
  if negb (cow_partition_size status mod kSectorSize =? 0) then ret false else
  if negb (cow_file_size status mod kSectorSize =? 0) then ret false else
  let status :=
    {| state := SnapshotState.Created; device_size := device_size status;
       snapshot_size := snapshot_size status;
       cow_partition_size := cow_partition_size status;
       cow_file_size := cow_file_size status;
       sectors_allocated := 0; metadata_sectors := 0 |} in
  written <- WriteSnapshotStatus lock name status;;
  if negb written then ret false else
  ret true.

(** [SnapshotManager::NeedSnapshotsInFirstStageMount]; [LOG(FATAL)] aborts. *)
Definition NeedSnapshotsInFirstStageMount : M bool :=
  w <- get;;
  match boot_indicator w with
  | None => ret false
  | Some old_slot =>
      suffix <- GetSlotSuffix;;
      if bool_decide (suffix = old_slot) then ret false else
      lock <- LockShared;;
      match lock with
      | None => abort
      | Some lock =>
          st <- ReadUpdateState lock;;
          match st with
          | UpdateState.Unverified
          | UpdateState.Merging
          | UpdateState.MergeFailed => ret true
          | _ => ret false
          end
      end
  end.

(** [SnapshotManager::MapUpdateSnapshot]; [snapshot_path] is the caller's
    variable, which is cleared only once the mapping begins. *)
Definition MapUpdateSnapshot (params : CreateLogicalPartitionParams)
    (snapshot_path : string) : M (bool * string) :=
  lock <- LockShared;;
  match lock with
  | None => ret (false, snapshot_path)
  | Some lock =>
      unmapped <- UnmapPartitionWithSnapshot lock (fs_mgr.GetPartitionName params);;
      if negb unmapped then ret (false, snapshot_path) else
      MapPartitionWithSnapshot lock params
  end.

(** [SnapshotManager::UnmapUpdateSnapshot]. *)
Definition UnmapUpdateSnapshot (target_partition_name : string) : M bool :=
  lock <- LockShared;;
  match lock with
  | None => ret false
  | Some lock => UnmapPartitionWithSnapshot lock target_partition_name
  end.

(** The loop of [SnapshotManager::CreateLogicalAndSnapshotPartitions] over
    [metadata->partitions]; a partition of the group [kCowGroupName] is
    skipped, and the first partition that cannot be mapped ends the loop. *)
Fixpoint map_partitions (lock : LockedFile) (super_device : string) (md : LpMetadata)
    (partitions : list LpPartition) : M bool :=
  match partitions with
  | [] => ret true
  | p :: rest =>
      if bool_decide (lp_group p = kCowGroupName)
      then map_partitions lock super_device md rest
      else
        let params :=
          {| block_device := super_device; metadata_slot := None;
             partition_name := ""; partition := Some p; metadata := Some md;
             device_name := ""; force_writable := false; timeout_ms := 0 |} in
        mapped <- MapPartitionWithSnapshot lock params;;
        if negb mapped.1 then ret false
        else map_partitions lock super_device md rest
  end.

(** [SnapshotManager::CreateLogicalAndSnapshotPartitions]. *)
Definition CreateLogicalAndSnapshotPartitions (super_device : string) : M bool :=
  lock <- LockExclusive;;
  match lock with
  | None => ret false
  | Some lock =>
      suffix <- GetSlotSuffix;;
      let slot := SlotNumberForSlotSuffix suffix in
      metadata <- ReadMetadata super_device slot;;
      match metadata with
      | None => ret false
      | Some md => map_partitions lock super_device md md
      end
  end.

(** ** Predicates used in the statements *)

(** The lock that [LockExclusive] hands out. *)
Definition exclusive : LockedFile := {| lock_mode := LOCK_EX |}.

Fixpoint string_forall (P : ascii -> bool) (s : string) : bool :=
  match s with
  | EmptyString => true
  | String c rest => P c && string_forall P rest
  end.

Definition not_space (c : ascii) : bool := negb (Ascii.eqb c " ").

Definition is_digit (c : ascii) : bool :=
  let n := Z.of_N (N_of_ascii c) in (48 <=? n) && (n <=? 57).

(** The fields of a [SnapshotStatus] are [uint64_t]. *)
Definition in_range (status : SnapshotStatus) : Prop :=
  0 ≤ device_size status ≤ UINT64_MAX ∧ 0 ≤ snapshot_size status ≤ UINT64_MAX ∧
  0 ≤ cow_partition_size status ≤ UINT64_MAX ∧ 0 ≤ cow_file_size status ≤ UINT64_MAX ∧
  0 ≤ sectors_allocated status ≤ UINT64_MAX ∧ 0 ≤ metadata_sectors status ≤ UINT64_MAX.

(** ** Reasoning about computations

    [total m] says that [m] never aborts, [frame R m] that every run of [m]
    relates the world before to the world after by [R], and [yields Q m]
    that every result of [m] satisfies [Q]. *)

Definition total {A} (m : M A) : Prop := ∀ w, is_Some (m w).

Definition frame {A} (R : relation World) (m : M A) : Prop :=
  ∀ w a w', m w = Some (a, w') → R w w'.

Definition yields {A} (Q : A → Prop) (m : M A) : Prop :=
  ∀ w a w', m w = Some (a, w') → Q a.


(** ** What the methods leave alone

    No method changes what [IDeviceInfo] and the kernel's stores answer.
    [same_files] relates two worlds that differ at most in the kernel's
    devices and in [images_]; [same_update_state] lets the snapshot records
    and the backing images differ as well. *)

Definition same_config (w w' : World) : Prop :=
  dm_major w' = dm_major w ∧ snapshot_stores w' = snapshot_stores w ∧
  ueventd w' = ueventd w ∧ block_devices w' = block_devices w ∧
  slot_suffix w' = slot_suffix w ∧ super_devices w' = super_devices w ∧
  lp_metadata w' = lp_metadata w ∧ gsid_available w' = gsid_available w ∧
  image_block_device w' = image_block_device w ∧
  has_local_image_manager_ w' = has_local_image_manager_ w ∧
  indeterminate_status w' = indeterminate_status w.

Definition same_update_state (w w' : World) : Prop :=
  same_config w w' ∧ state_file w' = state_file w ∧
  boot_indicator w' = boot_indicator w.

Definition same_files (w w' : World) : Prop :=
  same_update_state w w' ∧ snapshots_dir w' = snapshots_dir w ∧
  backing_images w' = backing_images w.


(** [later w w']: the world [w'] has no device that [w] lacks, and the
    image manager stays open once it is. *)
Definition later (w w' : World) : Prop :=
  dm_devices w' ⊆ dm_devices w ∧ (images_ w = true → images_ w' = true) ∧
  gsid_available w' = gsid_available w.

(** A teardown step [m] settles: it only removes devices, once it has
    succeeded it succeeds without effect in every later world, and when it
    has failed it fails again without effect. *)
Definition settles (m : M bool) : Prop :=
  (∀ w b w', m w = Some (b, w') → later w w') ∧
  (∀ w w', m w = Some (true, w') → ∀ w'', later w' w'' → m w'' = Some (true, w'')) ∧
  (∀ w w', m w = Some (false, w') → m w' = Some (false, w')).

(** The kernel lets go of the device [name]: nobody holds it open. *)
Definition releasable (w : World) (name : string) : Prop :=
  ∀ d, dm_devices w !! name = Some d → dev_open_count d = 0%nat.

(** The stack of partition [P] can be torn down in [w]. *)
Definition teardown_possible (w : World) (P : string) : Prop :=
  (images_ w = true ∨ gsid_available w = true) ∧
  releasable w P ∧ releasable w (GetSnapshotExtraDeviceName P) ∧
  releasable w (GetCowName P) ∧ releasable w (GetCowImageDeviceName P) ∧
  releasable w (GetBaseDeviceName P).

(** What the snapshots report when they are polled in turn, and what the
    attempts to switch them to merge targets return: the traces of the two
    loops of [CheckMergeState] and [InitiateMerge]. *)
Fixpoint snapshot_reports (lock : LockedFile) (snapshots : list string)
  : M (list UpdateState.t) :=
  match snapshots with
  | [] => ret []
  | snapshot :: rest =>
      snapshot_state <- CheckTargetMergeState lock snapshot;;
      states <- snapshot_reports lock rest;;
      ret (snapshot_state :: states)
  end.

Fixpoint switch_results (lock : LockedFile) (snapshots : list string) : M (list bool) :=
  match snapshots with
  | [] => ret []
  | snapshot :: rest =>
      switched <- SwitchSnapshotToMerge lock snapshot;;
      results <- switch_results lock rest;;
      ret (switched :: results)
  end.

(** The state file holds [cancelled] in [w'] only if it did so in [w]. *)
Definition cancelled_not_written (w w' : World) : Prop :=
  state_file w' ≠ Some "cancelled" ∨ state_file w' = state_file w.

(** The global update state that the state file holds, and the record
    that the record file of a snapshot holds, as the readers see them. *)
Definition persisted_state (w : World) : UpdateState.t :=
  match ReadUpdateState exclusive w with
  | Some (st, _) => st
  | None => UpdateState.None
  end.

Definition record_of (w : World) (name : string) : option SnapshotStatus :=
  match ReadSnapshotStatus exclusive name w with
  | Some (status, _) => status
  | None => None
  end.

(** The mode in which a snapshot is mapped while the global state is [st]. *)
Definition mapping_mode (st : UpdateState.t) : SnapshotStorageMode.t :=
  match st with
  | UpdateState.Merging | UpdateState.MergeFailed => SnapshotStorageMode.Merge
  | _ => SnapshotStorageMode.Persistent
  end.

(** Nothing is left to snapshot for the partition [part] of name [name]: it
    was flashed again, or it has no record, or its record says that the
    merge is completed. *)
Definition no_live_snapshot (w : World) (name : string) (part : LpPartition) : Prop :=
  Z.land (lp_attributes part) LP_PARTITION_ATTR_UPDATED = 0 ∨
  status_file w name = None ∨
  ∃ status, record_of w name = Some status ∧ state status = SnapshotState.MergeCompleted.

(** The kernel accepts a new device [name], and its node shows up in time. *)
Definition creatable (w : World) (name : string) (timeout_ms : Z) : Prop :=
  name ≠ "" ∧ Z.of_nat (String.length name) < DeviceMapper.DM_NAME_LEN ∧
  dm_devices w !! name = None ∧ (timeout_ms ≤ 0 ∨ ueventd w = true).

(** ** Merging *)

(** The world that [LockExclusive] leaves: the state file exists. *)
Definition locked (w : World) : World :=
  set_state_file (Some (default "" (state_file w))) w.

(** The names that [ListSnapshots] yields. *)
Definition snapshot_names (w : World) : list string :=
  match snapshots_dir w with
  | Some files => (map_to_list files).*1
  | None => []
  end.

(** A merge may begin: the update is unverified, the device runs from
    another slot than the one the indicator names, and the kernel knows a
    device of the name of every snapshot. *)
Definition merge_allowed (w : World) : Prop :=
  persisted_state w = UpdateState.Unverified ∧
  (∃ old_slot, boot_indicator w = Some old_slot ∧ slot_suffix w ≠ old_slot) ∧
  is_Some (snapshots_dir w) ∧
  ∀ name, name ∈ snapshot_names w → is_Some (dm_devices w !! name).

(** The table of [d'] is the single snapshot target of [d] in merge mode. *)
Definition switched_to_merge (d d' : DmDevice) : Prop :=
  ∃ t base_device cow_device,
    dev_table d = [t] ∧ target_type (spec t) = "snapshot" ∧
    DmTargetSnapshotParse.GetDevicesFromParams (data t) = Some (base_device, cow_device) ∧
    dev_table d' =
      [DmTarget_Serialize
         (DmTargetSnapshot 0 (spec_length (spec t)) base_device cow_device
            SnapshotStorageMode.Merge kSnapshotChunkSize)].

Definition table_step (d d' : DmDevice) : Prop :=
  dev_table d' = dev_table d ∨ switched_to_merge d d'.

(** From [w] to [w'] no device came or went, and a table changed only by
    being switched to merge mode. *)
Definition merge_step (w w' : World) : Prop :=
  ∀ x, option_Forall2 table_step (dm_devices w !! x) (dm_devices w' !! x).

(** Device [x] was switched to merge mode between [w] and [w']. *)
Definition converted (w w' : World) (x : string) : Prop :=
  ∃ d d', dm_devices w !! x = Some d ∧ dm_devices w' !! x = Some d' ∧
          switched_to_merge d d'.

(** ** Predicates of the further statements *)

(** The four sizes of a status are multiples of the sector size. *)
Definition sector_aligned (status : SnapshotStatus) : bool :=
  (device_size status mod kSectorSize =? 0) && (snapshot_size status mod kSectorSize =? 0)
  && (cow_partition_size status mod kSectorSize =? 0)
  && (cow_file_size status mod kSectorSize =? 0).

(** The record that [CreateSnapshot] writes for the sizes of [status]. *)
Definition created_status (status : SnapshotStatus) : SnapshotStatus :=
  {| state := SnapshotState.Created; device_size := device_size status;
     snapshot_size := snapshot_size status;
     cow_partition_size := cow_partition_size status;
     cow_file_size := cow_file_size status;
     sectors_allocated := 0; metadata_sectors := 0 |}.

(** The update can still be cancelled: nothing was written yet, or the
    device has not booted into the new slot. *)
Definition can_cancel (w : World) : Prop :=
  persisted_state w = UpdateState.Initiated ∨
  (persisted_state w = UpdateState.Unverified ∧
   (boot_indicator w = None ∨ boot_indicator w = Some (slot_suffix w))).

(** The update has gone too far to be cancelled. *)
Definition needs_merge (w : World) : Prop :=
  persisted_state w ∈ [UpdateState.Merging; UpdateState.MergeNeedsReboot;
                       UpdateState.MergeCompleted; UpdateState.MergeFailed] ∨
  (persisted_state w = UpdateState.Unverified ∧
   ∃ old_slot, boot_indicator w = Some old_slot ∧ slot_suffix w ≠ old_slot).

(** ** Devices that a call leaves behind *)

(** The names of the (at most five) devices of the stack of partition [P]. *)
Definition stack_names (P : string) : list string :=
  [P; GetSnapshotExtraDeviceName P; GetCowName P; GetCowImageDeviceName P;
   GetBaseDeviceName P].

(** From [w] to [w'] exactly the devices [names] were added: they did not
    exist, they exist now and nobody holds them open, and every other
    device is as it was. *)
Definition added (w w' : World) (names : list string) : Prop :=
  NoDup names ∧
  (∀ n, n ∈ names →
        dm_devices w !! n = None ∧
        ∃ d, dm_devices w' !! n = Some d ∧ dev_open_count d = 0%nat) ∧
  (∀ x, x ∉ names → dm_devices w' !! x = dm_devices w !! x).

(** [AutoDevice::name_]. *)
Definition AutoDevice_name (d : AutoDevice) : string :=
  match d with
  | AutoUnmapDevice name_ => name_
  | AutoUnmapImage name_ => name_
  end.

(** The devices that [MapSnapshot] creates for a record: the snapshot
    device and, when the snapshot is smaller than the partition, the outer
    device on top of it. *)
Definition snapshot_devices (name : string) (status : SnapshotStatus) : list string :=
  if device_size status =? snapshot_size status then [name]
  else [GetSnapshotExtraDeviceName name; name].

(** From [w] to [w'] no device came and none changed, and only devices of
    [names] went. *)
Definition removed_only (names : list string) (w w' : World) : Prop :=
  ∀ x, dm_devices w' !! x = dm_devices w !! x ∨
       (x ∈ names ∧ dm_devices w' !! x = None).

(** ** Sample worlds

    The worlds the closed lemmas below evaluate the methods on: a device
    booted into slot [_b] after an update that was finished in slot [_a],
    with one snapshotted partition [system_b]. *)

Definition system_b : LpPartition :=
  {| lp_name := "system_b"; lp_attributes := LP_PARTITION_ATTR_UPDATED;
     lp_group := "default";
     lp_extents := [ {| num_sectors := 16; target_data := 2048 |} ] |}.

Definition system_b_cow : LpPartition :=
  {| lp_name := "system_b-cow"; lp_attributes := 0; lp_group := kCowGroupName;
     lp_extents := [ {| num_sectors := 8; target_data := 4096 |} ] |}.

(** A partition of the new slot that the update left empty. *)
Definition product_b : LpPartition :=
  {| lp_name := "product_b"; lp_attributes := 0; lp_group := "default";
     lp_extents := [] |}.

Definition no_status : SnapshotTargetStatus :=
  {| st_sectors_allocated := 0; st_total_sectors := 0; st_metadata_sectors := 0 |}.

(** The world before first-stage mount: nothing is mapped yet. *)
Definition booted (st : string) (indicator : option string)
    (records : gmap string string) : World :=
  {| dm_devices := ∅; dm_major := 253; next_minor := 0;
     snapshot_stores := ∅; ueventd := true; block_devices := ∅;
     state_file := Some st; boot_indicator := indicator;
     snapshots_dir := Some records;
     slot_suffix := "_b"; super_devices := ∅;
     lp_metadata := {[ ("super", 1) := [system_b; system_b_cow; product_b] ]};
     gsid_available := true; backing_images := ∅;
     image_block_device := "userdata";
     images_ := false; has_local_image_manager_ := false;
     indeterminate_status := no_status |}.

Definition system_b_params : CreateLogicalPartitionParams :=
  {| block_device := "super"; metadata_slot := Some 1; partition_name := "system_b";
     partition := None; metadata := None; device_name := "";
     force_writable := false; timeout_ms := 0 |}.

Definition product_b_params : CreateLogicalPartitionParams :=
  {| block_device := "super"; metadata_slot := Some 1; partition_name := "product_b";
     partition := None; metadata := None; device_name := "";
     force_writable := false; timeout_ms := 0 |}.

(** [system_b_params] with its defaults filled in. *)
Definition system_b_defaults : CreateLogicalPartitionParams :=
  {| block_device := "super"; metadata_slot := Some 1; partition_name := "system_b";
     partition := Some system_b; metadata := Some [system_b; system_b_cow; product_b];
     device_name := "system_b"; force_writable := false; timeout_ms := 0 |}.

(** The world of a boot after the merge of [system_b] was completed but
    before its record was removed. *)
Definition merged : World :=
  booted "merge-completed" None {[ "system_b" := "merge-completed 8192 4096 4096 0 0 0" ]}.

(** The result of a computation that is known not to abort. *)
Definition world_after {A} (m : M A) (w : World) : World :=
  match m w with
  | Some (_, w') => w'
  | None => w
  end.

(** After first-stage mount: the stack of [system_b] is mapped. *)
Definition unverified_mapped : World :=
  world_after (MapPartitionWithSnapshot exclusive system_b_params)
    (booted "unverified" (Some "_a")
       {[ "system_b" := "created 8192 4096 4096 0 0 0" ]}).

(** The same world with the top device suspended, or held open. *)
Definition with_device (name : string) (f : DmDevice → DmDevice) (w : World) : World :=
  set_dm_devices (alter f name) w.

Definition suspend (d : DmDevice) : DmDevice :=
  {| dev_minor := dev_minor d; dev_uuid := dev_uuid d; dev_suspended := true;
     dev_open_count := dev_open_count d; dev_table := dev_table d |}.

Definition hold_open (d : DmDevice) : DmDevice :=
  {| dev_minor := dev_minor d; dev_uuid := dev_uuid d; dev_suspended := dev_suspended d;
     dev_open_count := S (dev_open_count d); dev_table := dev_table d |}.

(** A record with counters of two digits, and a status whose line is
    shorter than that record. *)
Definition stale_record : string := "merging 8192 4096 4096 0 16 55".

Definition fresh_status : SnapshotStatus :=
  {| state := SnapshotState.Merging; device_size := 8192; snapshot_size := 4096;
     cow_partition_size := 4096; cow_file_size := 0;
     sectors_allocated := 8; metadata_sectors := 8 |}.

(** The world in which the exception store of the COW device [cow_device]
    yields the status line [line]. *)
Definition with_store (cow_device line : string) (w : World) : World :=
  {| dm_devices := dm_devices w; dm_major := dm_major w; next_minor := next_minor w;
     snapshot_stores := <[cow_device := line]> (snapshot_stores w);
     ueventd := ueventd w; block_devices := block_devices w;
     state_file := state_file w; boot_indicator := boot_indicator w;
     snapshots_dir := snapshots_dir w;
     slot_suffix := slot_suffix w; super_devices := super_devices w;
     lp_metadata := lp_metadata w;
     gsid_available := gsid_available w; backing_images := backing_images w;
     image_block_device := image_block_device w;
     images_ := images_ w; has_local_image_manager_ := has_local_image_manager_ w;
     indeterminate_status := indeterminate_status w |}.

(** The merge of [system_b] was initiated and is half way. *)
Definition merge_under_way : World :=
  with_store "253:1" "8/4096 16" (world_after InitiateMerge unverified_mapped).

(** The device rolled back: it runs from the slot that the indicator
    names.  In the second world the stack of [system_b] was mapped all the
    same and its top device is held open. *)
Definition rolled_back : World :=
  booted "unverified" (Some "_b") {[ "system_b" := "created 8192 4096 4096 0 0 0" ]}.

Definition rolled_back_busy : World :=
  with_device "system_b" hold_open
    (world_after (MapPartitionWithSnapshot exclusive system_b_params) rolled_back).

(** A status as a caller may pass it to [CreateSnapshot]. *)
Definition requested : SnapshotStatus :=
  {| state := SnapshotState.MergeCompleted; device_size := 8192; snapshot_size := 4096;
     cow_partition_size := 4096; cow_file_size := 0;
     sectors_allocated := 3; metadata_sectors := 5 |}.

(** The record of [system_b] is still live although the state file says
    that the merge is completed: the snapshot cannot be mapped. *)
Definition stale_merge : World :=
  booted "merge-completed" (Some "_a") {[ "system_b" := "created 8192 4096 4096 0 0 0" ]}.

(** The record of [system_b] while its merge is under way. *)
Definition merging_record : SnapshotStatus :=
  {| state := SnapshotState.Merging; device_size := 8192; snapshot_size := 4096;
     cow_partition_size := 4096; cow_file_size := 0;
     sectors_allocated := 0; metadata_sectors := 0 |}.

(** * Properties *)
(** ** Strings: splitting, printing and parsing numbers *)


Lemma string_app_nil (t : string) : "" +:+ t = t.
Proof. reflexivity. Qed.

Lemma string_app_cons c (s t : string) : String c s +:+ t = String c (s +:+ t).
Proof. reflexivity. Qed.

Lemma string_app_assoc (a b c : string) : (a +:+ b) +:+ c = a +:+ (b +:+ c).
Proof.
  induction a as [|x a IH]; [done|].
  by rewrite !string_app_cons, IH.
Qed.

Lemma Split_nonempty s d : base.Split s d ≠ [].
Proof.
  destruct s as [|c s]; simpl; [done|].
  destruct (base.is_delimiter c d); [done|].
  destruct (base.Split s d); done.
Qed.

Lemma Split_no_delimiter s :
  string_forall not_space s = true → base.Split s " " = [s].
Proof.
  induction s as [|c s IH]; simpl; [done|].
  intros [Hc Hs]%andb_true_iff. rewrite (IH Hs).
  unfold not_space in Hc. destruct (Ascii.eqb c " "); done.
Qed.

Lemma Split_app_space p rest :
  string_forall not_space p = true →
  base.Split (p +:+ String " " rest) " " = p :: base.Split rest " ".
Proof.
  induction p as [|c p IH]; [done|].
  rewrite string_app_cons. simpl.
  intros [Hc Hp]%andb_true_iff. rewrite (IH Hp).
  unfold not_space in Hc. destruct (Ascii.eqb c " "); done.
Qed.

Lemma digit_value_digit_char d :
  0 ≤ d < 10 → base.digit_value 10 (base.digit_char d) = Some d.
Proof.
  intros Hd.
  assert (d = 0 ∨ d = 1 ∨ d = 2 ∨ d = 3 ∨ d = 4 ∨ d = 5 ∨ d = 6 ∨ d = 7 ∨ d = 8 ∨ d = 9)
    as Hcases by lia.
  repeat (destruct Hcases as [-> | Hcases]; [reflexivity|]). by subst.
Qed.

Lemma is_digit_digit_char d : 0 ≤ d < 10 → is_digit (base.digit_char d) = true.
Proof.
  intros Hd.
  assert (d = 0 ∨ d = 1 ∨ d = 2 ∨ d = 3 ∨ d = 4 ∨ d = 5 ∨ d = 6 ∨ d = 7 ∨ d = 8 ∨ d = 9)
    as Hcases by lia.
  repeat (destruct Hcases as [-> | Hcases]; [reflexivity|]). by subst.
Qed.

Lemma strtoull_digits_to_string fuel : ∀ n acc any,
  0 ≤ n ≤ base.ULLONG_MAX → n < 10 ^ Z.of_nat (S fuel) →
  base.strtoull_digits 10 (base.to_string_aux (S fuel) n acc) 0 false any
  = base.strtoull_digits 10 acc n false true.
Proof.
  induction fuel as [|fuel IH]; intros n acc any Hn Hlt.
  - cbn [base.to_string_aux].
    assert ((n <? 10) = true) as -> by (apply Z.ltb_lt; simpl in Hlt; lia).
    cbn [base.strtoull_digits].
    rewrite Z.mod_small by (simpl in Hlt; lia).
    rewrite digit_value_digit_char by (simpl in Hlt; lia).
    replace (0 * 10 + n) with n by lia.
    assert ((base.ULLONG_MAX <? n) = false) as -> by (apply Z.ltb_ge; lia).
    reflexivity.
  - change (base.to_string_aux (S (S fuel)) n acc) with
      (if n <? 10 then String (base.digit_char (n mod 10)) acc
       else base.to_string_aux (S fuel) (n / 10) (String (base.digit_char (n mod 10)) acc)).
    destruct (n <? 10) eqn:Hsmall.
    + apply Z.ltb_lt in Hsmall. cbn [base.strtoull_digits].
      rewrite Z.mod_small by lia. rewrite digit_value_digit_char by lia.
      replace (0 * 10 + n) with n by lia.
      assert ((base.ULLONG_MAX <? n) = false) as -> by (apply Z.ltb_ge; lia).
      reflexivity.
    + apply Z.ltb_ge in Hsmall.
      rewrite IH.
      * cbn [base.strtoull_digits].
        rewrite digit_value_digit_char by (apply Z.mod_pos_bound; lia).
        replace (n / 10 * 10 + n mod 10) with n by (pose proof (Z.div_mod n 10 ltac:(lia)); lia).
        assert ((base.ULLONG_MAX <? n) = false) as -> by (apply Z.ltb_ge; lia).
        reflexivity.
      * split; [apply Z.div_pos; lia|].
        transitivity n; [|lia]. apply Z.div_le_upper_bound; lia.
      * apply Z.div_lt_upper_bound; [lia|].
        rewrite (Nat2Z.inj_succ (S fuel)), Z.pow_succ_r in Hlt by lia. lia.
Qed.

Lemma to_string_aux_digits fuel : ∀ n acc,
  0 ≤ n → string_forall is_digit acc = true →
  string_forall is_digit (base.to_string_aux fuel n acc) = true.
Proof.
  induction fuel as [|fuel IH]; intros n acc Hn Hacc; [done|].
  cbn [base.to_string_aux].
  assert (string_forall is_digit (String (base.digit_char (n mod 10)) acc) = true) as Hd.
  { simpl. rewrite is_digit_digit_char by (apply Z.mod_pos_bound; lia). done. }
  destruct (n <? 10); [done|].
  apply IH; [apply Z.div_pos; lia | done].
Qed.

Lemma to_string_aux_nonempty fuel n acc :
  base.to_string_aux (S fuel) n acc ≠ "".
Proof.
  revert n acc. induction fuel as [|fuel IH]; intros n acc.
  - simpl. by destruct (n <? 10).
  - change (base.to_string_aux (S (S fuel)) n acc) with
      (let acc' := String (base.digit_char (n mod 10)) acc in
       if n <? 10 then acc' else base.to_string_aux (S fuel) (n / 10) acc').
    simpl. destruct (n <? 10); [done | apply IH].
Qed.

Lemma is_digit_facts c :
  is_digit c = true →
  base.isspace c = false ∧ c ≠ "-"%char ∧ c ≠ "+"%char ∧
  Ascii.eqb c "x" = false ∧ Ascii.eqb c "X" = false ∧ not_space c = true.
Proof.
  destruct c as [[] [] [] [] [] [] [] []]; vm_compute; intros H;
    try discriminate H; repeat split; congruence.
Qed.

Lemma to_string_shape n :
  0 ≤ n → ∃ c r, base.to_string n = String c r ∧ string_forall is_digit (String c r) = true.
Proof.
  intros Hn. unfold base.to_string.
  pose proof (to_string_aux_digits 20 n "" Hn eq_refl) as Hd.
  pose proof (to_string_aux_nonempty 19 n "") as Hne.
  destruct (base.to_string_aux 20 n "") as [|c r]; [done|]. eauto.
Qed.

Lemma is_digit_prefixes c r :
  is_digit c = true → string_forall is_digit r = true →
  base.skip_spaces (String c r) = String c r ∧ base.skip_sign (String c r) = String c r ∧
  base.has_hex_prefix (String c r) = false ∧ base.has_minus_sign (String c r) = false.
Proof.
  intros Hc Hr. destruct (is_digit_facts c Hc) as (Hsp & Hminus & Hplus & Hx & HX & _).
  repeat split.
  - simpl. by rewrite Hsp.
  - destruct c as [[] [] [] [] [] [] [] []]; try reflexivity. done.
  - destruct r as [|c' r']; simpl.
    + destruct c as [[] [] [] [] [] [] [] []]; reflexivity.
    + simpl in Hr. apply andb_true_iff in Hr as [Hc' _].
      destruct (is_digit_facts c' Hc') as (_ & _ & _ & Hx' & HX' & _).
      rewrite Hx', HX'. destruct c as [[] [] [] [] [] [] [] []]; reflexivity.
  - destruct c as [[] [] [] [] [] [] [] []]; try reflexivity. done.
Qed.

Lemma ParseUint_to_string n :
  0 ≤ n ≤ UINT64_MAX → base.ParseUint (base.to_string n) UINT64_MAX = Some n.
Proof.
  intros Hn. unfold UINT64_MAX in *.
  destruct (to_string_shape n) as (c & r & Hs & Hd); [lia|].
  pose proof Hd as Hd'. simpl in Hd'. apply andb_true_iff in Hd' as [Hc Hr].
  destruct (is_digit_prefixes c r Hc Hr) as (Hsp & Hsign & Hhex & Hminus).
  assert (base.strtoull (String c r) 10 = (n, "", false)) as Hstr.
  { unfold base.strtoull. rewrite Hsp, Hsign. unfold base.skip_hex_prefix.
    change (10 =? 16) with false. cbn [andb].
    rewrite <- Hs. unfold base.to_string.
    rewrite strtoull_digits_to_string; [reflexivity | lia |].
    unfold base.ULLONG_MAX in Hn. simpl. lia. }
  unfold base.ParseUint. rewrite Hs, Hsp, Hminus, Hhex, Hstr. cbn [negb].
  rewrite bool_decide_false by done. rewrite bool_decide_true by done. cbn [negb].
  assert ((base.ULLONG_MAX <? n) = false) as -> by (apply Z.ltb_ge; lia).
  reflexivity.
Qed.

Lemma Split_Join ps :
  ps ≠ [] → Forall (λ p, string_forall not_space p = true) ps →
  base.Split (base.Join ps " ") " " = ps.
Proof.
  induction ps as [|p ps IH]; [done|]. intros _ Hall.
  inversion Hall as [|? ? Hp Hps]; subst.
  destruct ps as [|q ps].
  - simpl. by apply Split_no_delimiter.
  - change (base.Join (p :: q :: ps) " ") with (p +:+ String " " (base.Join (q :: ps) " ")).
    rewrite Split_app_space by done. f_equal. by apply IH.
Qed.

Lemma digits_no_space s : string_forall is_digit s = true → string_forall not_space s = true.
Proof.
  induction s as [|c s IH]; [done|]. simpl.
  intros [Hc Hs]%andb_true_iff.
  destruct (is_digit_facts c Hc) as (_ & _ & _ & _ & _ & ->). by apply IH.
Qed.

Lemma to_string_no_space n : 0 ≤ n → string_forall not_space (base.to_string n) = true.
Proof.
  intros Hn. destruct (to_string_shape n Hn) as (c & r & -> & Hd).
  by apply digits_no_space.
Qed.


Lemma Split_status_line status :
  in_range status →
  base.Split (status_line_of status) " "
  = [to_string (state status); base.to_string (device_size status);
     base.to_string (snapshot_size status); base.to_string (cow_partition_size status);
     base.to_string (cow_file_size status); base.to_string (sectors_allocated status);
     base.to_string (metadata_sectors status)].
Proof.
  intros (H1 & H2 & H3 & H4 & H5 & H6).
  unfold status_line_of. apply Split_Join; [done|].
  repeat constructor; try (apply to_string_no_space; lia).
  by destruct (state status).
Qed.

Lemma ReadSnapshotStatus_of_line lock name w status :
  in_range status →
  status_file w name = Some (status_line_of status) →
  ReadSnapshotStatus lock name w = Some (Some status, w).
Proof.
  intros Hr Hfile. pose proof Hr as (H1 & H2 & H3 & H4 & H5 & H6).
  unfold ReadSnapshotStatus, bind, get, ret. rewrite Hfile.
  rewrite (Split_status_line _ Hr). cbn [length bool_decide negb].
  rewrite !ParseUint_to_string by done.
  destruct status as [st ? ? ? ? ? ?]; destruct st; reflexivity.
Qed.

(** Trailing white space *)

Lemma isspace_not_digit radix c : base.isspace c = true → base.digit_value radix c = None.
Proof.
  destruct c as [[] [] [] [] [] [] [] []]; vm_compute; intros H; try discriminate H;
    destruct radix as [|[p|p|]|[p|p|]]; try reflexivity;
    repeat (match goal with p : positive |- _ => destruct p end; try reflexivity).
Qed.

Lemma strtoull_digits_rest radix c y : ∀ acc e any,
  base.digit_value radix c = None →
  (base.strtoull_digits radix (y +:+ String c "") acc e any).2 ≠ "".
Proof.
  induction y as [|d y IH]; intros acc e any Hc.
  - rewrite string_app_nil. simpl. by rewrite Hc.
  - rewrite string_app_cons. cbn [base.strtoull_digits].
    destruct (base.digit_value radix d); [|done].
    destruct (e || (base.ULLONG_MAX <? acc * radix + z)); by apply IH.
Qed.

Lemma skip_spaces_trailing c y :
  base.isspace c = true →
  base.skip_spaces (y +:+ String c "") = "" ∨
  ∃ d y', base.skip_spaces (y +:+ String c "") = String d (y' +:+ String c "")
          ∧ base.isspace d = false.
Proof.
  intros Hc. induction y as [|d y IH].
  - left. rewrite string_app_nil. simpl. by rewrite Hc.
  - rewrite string_app_cons. cbn [base.skip_spaces].
    destruct (base.isspace d) eqn:Hd; [done|]. right. eauto.
Qed.

Lemma strtoull_endp_trailing radix c d y :
  base.isspace c = true → base.isspace d = false →
  (base.strtoull (String d (y +:+ String c "")) radix).1.2 ≠ "".
Proof.
  intros Hc Hd. unfold base.strtoull.
  assert (base.skip_spaces (String d (y +:+ String c "")) = String d (y +:+ String c "")) as ->.
  { simpl. by rewrite Hd. }
  assert (∃ z, base.skip_sign (String d (y +:+ String c "")) = z +:+ String c "") as [z2 ->].
  { destruct (decide (d = "+"%char)) as [->|Hne].
    - by exists y.
    - exists (String d y).
      destruct d as [[] [] [] [] [] [] [] []]; try reflexivity. done. }
  assert (∃ z, base.skip_hex_prefix radix (z2 +:+ String c "") = z +:+ String c "") as [z3 ->].
  { unfold base.skip_hex_prefix.
    destruct ((radix =? 16) && base.has_hex_prefix (z2 +:+ String c "")) eqn:Hhex; [|eauto].
    apply andb_true_iff in Hhex as [_ Hhex].
    destruct z2 as [|a [|b z2]].
    - rewrite string_app_nil in Hhex. simpl in Hhex.
      destruct c as [[] [] [] [] [] [] [] []]; done.
    - exfalso. change (String a "" +:+ String c "") with (String a (String c "")) in Hhex.
      simpl in Hhex.
      destruct c as [[] [] [] [] [] [] [] []]; try discriminate Hc;
        destruct a as [[] [] [] [] [] [] [] []]; discriminate Hhex.
    - by exists z2. }
  pose proof (strtoull_digits_rest radix c z3 0 false false (isspace_not_digit radix c Hc)) as Hrest.
  destruct (base.strtoull_digits radix (z3 +:+ String c "") 0 false false)
    as [[[v e] any] rest]. simpl in Hrest.
  destruct any; simpl; done.
Qed.

Lemma ParseUint_trailing_space c y max :
  base.isspace c = true → base.ParseUint (y +:+ String c "") max = None.
Proof.
  intros Hc. unfold base.ParseUint.
  destruct (skip_spaces_trailing c y Hc) as [-> | (d & y' & -> & Hd)]; [reflexivity|].
  destruct (base.has_minus_sign _); [done|].
  set (radix := if base.has_hex_prefix _ then 16 else 10).
  pose proof (strtoull_endp_trailing radix c d y' Hc Hd) as Hend.
  destruct (base.strtoull (String d (y' +:+ String c "")) radix) as [[v endp] e].
  simpl in Hend.
  destruct e; [done|]. case_bool_decide; [done|].
  by rewrite bool_decide_false.
Qed.

Lemma Split_last_trailing x c :
  ∃ pieces p, base.Split (x +:+ String c "") " " = pieces ++ [p]
              ∧ ((p = "" ∧ pieces ≠ []) ∨ ∃ y, p = y +:+ String c "").
Proof.
  induction x as [|d x (pieces & p & IH & Hp)].
  - rewrite string_app_nil. simpl. destruct (Ascii.eqb c " ").
    + exists [""], "". split; [done | by left].
    + exists [], (String c ""). split; [done | right; by exists ""].
  - rewrite string_app_cons. cbn [base.Split]. rewrite IH.
    destruct (base.is_delimiter d " ").
    + exists ("" :: pieces), p. split; [done|].
      destruct Hp as [[-> _] | ?]; [by left | by right].
    + destruct pieces as [|q pieces]; simpl.
      * exists [], (String d p). split; [done|]. right.
        destruct Hp as [[_ ?] | [y ->]]; [done | by exists (String d y)].
      * exists (String d q :: pieces), p. split; [done|].
        destruct Hp as [[-> _] | ?]; [by left | by right].
Qed.

Lemma Split_last_unparsable x c max :
  base.isspace c = true →
  ∃ pieces p, base.Split (x +:+ String c "") " " = pieces ++ [p]
              ∧ base.ParseUint p max = None.
Proof.
  intros Hc. destruct (Split_last_trailing x c) as (pieces & p & Hsplit & Hp).
  exists pieces, p. split; [done|].
  destruct Hp as [[-> _] | [y ->]]; [reflexivity | by apply ParseUint_trailing_space].
Qed.

Lemma ReadSnapshotStatus_trailing_space lock name w x c :
  base.isspace c = true →
  status_file w name = Some (x +:+ String c "") →
  ReadSnapshotStatus lock name w = Some (None, w).
Proof.
  intros Hc Hfile. unfold ReadSnapshotStatus, bind, get, ret. rewrite Hfile.
  destruct (Split_last_unparsable x c UINT64_MAX Hc) as (pieces & p & -> & Hp).
  case_bool_decide as Hlen; [|done]. cbn [negb].
  destruct pieces as [|p0 [|p1 [|p2 [|p3 [|p4 [|p5 pieces]]]]]];
    try (simpl in Hlen; discriminate Hlen).
  destruct pieces as [|p6 pieces].
  - simpl. rewrite Hp.
    repeat match goal with |- context [base.ParseUint ?s ?m] =>
      destruct (base.ParseUint s m); simpl end;
    repeat case_bool_decide; reflexivity.
  - simpl in Hlen. rewrite length_app in Hlen. simpl in Hlen. lia.
Qed.

(** ** Rules for computations *)

Section rules.
Context {A B : Type}.

Lemma bind_Some (m : M A) (k : A → M B) w b w'' :
  bind m k w = Some (b, w'') ↔ ∃ a w', m w = Some (a, w') ∧ k a w' = Some (b, w'').
Proof.
  unfold bind. split.
  - destruct (m w) as [[a w']|]; [eauto | done].
  - by intros (a & w' & -> & ?).
Qed.

Lemma bind_run (m : M A) (k : A → M B) w a w' :
  m w = Some (a, w') → bind m k w = k a w'.
Proof. unfold bind. by intros ->. Qed.

Lemma total_ret (a : A) : total (ret a).
Proof. intros w. by eexists. Qed.

Lemma total_bind (m : M A) (k : A → M B) :
  total m → (∀ a, total (k a)) → total (bind m k).
Proof.
  intros Hm Hk w. unfold bind. destruct (Hm w) as [[a w'] ->]. apply Hk.
Qed.

Lemma total_modify f : total (modify f).
Proof. intros w. by eexists. Qed.

Lemma frame_ret `{!Reflexive R} (a : A) : frame R (ret a).
Proof. intros w a' w' [= _ <-]. reflexivity. Qed.

Lemma frame_bind `{!Transitive R} (m : M A) (k : A → M B) :
  frame R m → (∀ a, frame R (k a)) → frame R (bind m k).
Proof.
  intros Hm Hk w b w'' (a & w' & H1 & H2)%bind_Some.
  transitivity w'; [by eapply Hm | by eapply Hk].
Qed.

Lemma frame_abort R : frame R (@abort A).
Proof. by intros w a w'. Qed.

Lemma yields_ret (Q : A → Prop) (a : A) : Q a → yields Q (ret a).
Proof. by intros ? w a' w' [= <- _]. Qed.

Lemma yields_bind (Q : B → Prop) (m : M A) (k : A → M B) :
  (∀ a, yields Q (k a)) → yields Q (bind m k).
Proof. intros Hk w b w'' (a & w' & _ & H2)%bind_Some. by eapply Hk. Qed.

Lemma yields_abort (Q : A → Prop) : yields Q abort.
Proof. by intros w a w'. Qed.
End rules.

Lemma total_get : total get.
Proof. intros w. by eexists. Qed.

Lemma total_CHECK : total (CHECK true).
Proof. apply total_ret. Qed.

Lemma frame_get `{!Reflexive R} : frame R get.
Proof. intros w a w' [= _ <-]. reflexivity. Qed.

Lemma frame_modify (R : relation World) f : (∀ w, R w (f w)) → frame R (modify f).
Proof. intros Hf w a w' [= _ <-]. apply Hf. Qed.

Lemma frame_CHECK `{!Reflexive R} b : frame R (CHECK b).
Proof. destruct b; [apply frame_ret | apply frame_abort]. Qed.

Create HintDb total discriminated.
Create HintDb frame discriminated.

#[export] Hint Resolve total_get total_modify total_CHECK : total.

Ltac total_step :=
  lazymatch goal with
  | |- total (bind _ _) => apply total_bind; [|intros ?]
  | |- total (ret _) => apply total_ret
  | |- total (if ?b then _ else _) => destruct b
  | |- total (match ?x with _ => _ end) => destruct x
  | |- total _ => solve [auto with total]
  end.

Ltac total_tac := repeat total_step.

Ltac frame_step :=
  lazymatch goal with
  | |- frame _ (bind _ _) => apply frame_bind; [|intros ?]
  | |- frame _ (ret _) => apply frame_ret
  | |- frame _ get => apply frame_get
  | |- frame _ abort => apply frame_abort
  | |- frame _ (CHECK _) => apply frame_CHECK
  | |- frame _ (modify _) =>
      apply frame_modify; intros ?; first [by repeat split | by right | by left]
  | |- frame _ (if ?b then _ else _) => destruct b
  | |- frame _ (match ?x with _ => _ end) => destruct x
  | |- frame _ _ => solve [auto with frame]
  end.

Ltac frame_tac := repeat frame_step.

Ltac yields_step :=
  lazymatch goal with
  | |- yields _ (bind _ _) => apply yields_bind; intros ?
  | |- yields _ (ret _) => apply yields_ret
  | |- yields _ abort => apply yields_abort
  | |- yields _ (if ?b then _ else _) => destruct b
  | |- yields _ (match ?x with _ => _ end) => destruct x
  end.

Ltac yields_tac := repeat yields_step.

#[global] Instance same_config_preorder : PreOrder same_config.
Proof.
  split.
  - intros w. by repeat split.
  - intros w1 w2 w3 H12 H23. unfold same_config in *.
    destruct_and!. repeat split; congruence.
Qed.

#[global] Instance same_update_state_preorder : PreOrder same_update_state.
Proof.
  split.
  - intros w. by repeat split.
  - intros w1 w2 w3 [H12 [? ?]] [H23 [? ?]].
    split; [by transitivity w2|]. split; congruence.
Qed.

#[global] Instance same_files_preorder : PreOrder same_files.
Proof.
  split.
  - intros w. by repeat split.
  - intros w1 w2 w3 [H12 [? ?]] [H23 [? ?]].
    split; [by transitivity w2|]. split; congruence.
Qed.

Lemma same_files_update_state w w' : same_files w w' → same_update_state w w'.
Proof. by intros [? _]. Qed.

Lemma frame_weaken {A} (R R' : relation World) (m : M A) :
  (∀ w w', R w w' → R' w w') → frame R m → frame R' m.
Proof. intros HR Hm w a w' Hrun. apply HR. by eapply Hm. Qed.

(** Running a computation symbolically: unfold the monad, keep the methods. *)
Ltac msimpl := cbv beta iota delta [bind ret get modify abort CHECK].
Ltac msimpl_in H := cbv beta iota delta [bind ret get modify abort CHECK] in H.

(** Projections of updated worlds and devices. *)
Ltac wsimpl :=
  cbn [negb orb andb fst snd
       dm_devices dm_major next_minor snapshot_stores ueventd block_devices
       state_file boot_indicator snapshots_dir slot_suffix super_devices lp_metadata
       gsid_available backing_images image_block_device images_
       has_local_image_manager_ indeterminate_status
       set_dm_devices set_next_minor set_state_file set_boot_indicator
       set_snapshots_dir set_backing_images set_images_
       dev_minor dev_uuid dev_suspended dev_open_count dev_table].

(** ** The device mapper *)

Lemma GetState_run name w :
  DeviceMapper.GetState name w
  = Some (match dm_devices w !! name with
          | None => DmDeviceState.INVALID
          | Some d => if negb (bool_decide (dev_table d = [])) && negb (dev_suspended d)
                      then DmDeviceState.ACTIVE else DmDeviceState.SUSPENDED
          end, w).
Proof.
  unfold DeviceMapper.GetState, DeviceMapper.DM_DEV_STATUS, bind, get, ret.
  destruct (dm_devices w !! name) as [d|]; [|done].
  by destruct (negb (bool_decide (dev_table d = [])) && negb (dev_suspended d)).
Qed.

Lemma GetState_INVALID name w :
  (∃ w', DeviceMapper.GetState name w = Some (DmDeviceState.INVALID, w'))
  ↔ dm_devices w !! name = None.
Proof.
  rewrite GetState_run. destruct (dm_devices w !! name) as [d|]; split.
  - intros [w' [= H _]].
    by destruct (negb (bool_decide (dev_table d = [])) && negb (dev_suspended d)).
  - done.
  - done.
  - eauto.
Qed.

Lemma DeleteDeviceIfExists_absent name w :
  dm_devices w !! name = None →
  DeviceMapper.DeleteDeviceIfExists name w = Some (true, w).
Proof.
  intros Hn. unfold DeviceMapper.DeleteDeviceIfExists.
  rewrite (bind_run _ _ _ _ _ (GetState_run name w)). by rewrite Hn.
Qed.

Lemma DeleteDevice_run name w :
  DeviceMapper.DeleteDevice name w
  = match dm_devices w !! name with
    | Some d => if bool_decide (dev_open_count d = 0%nat)
                then Some (true, set_dm_devices (delete name) w)
                else Some (false, w)
    | None => Some (false, w)
    end.
Proof.
  unfold DeviceMapper.DeleteDevice, bind, get.
  destruct (dm_devices w !! name) as [d|]; [|done].
  by case_bool_decide.
Qed.

Lemma DeleteDeviceIfExists_run name w :
  DeviceMapper.DeleteDeviceIfExists name w
  = match dm_devices w !! name with
    | Some d => if bool_decide (dev_open_count d = 0%nat)
                then Some (true, set_dm_devices (delete name) w)
                else Some (false, w)
    | None => Some (true, w)
    end.
Proof.
  unfold DeviceMapper.DeleteDeviceIfExists.
  rewrite (bind_run _ _ _ _ _ (GetState_run name w)).
  pose proof (DeleteDevice_run name w) as Hdel.
  destruct (dm_devices w !! name) as [d|]; [|done].
  by destruct (negb (bool_decide (dev_table d = [])) && negb (dev_suspended d)).
Qed.

Lemma UnmapImageIfExists_run name w :
  ImageManager.UnmapImageIfExists name w = DeviceMapper.DeleteDeviceIfExists name w.
Proof.
  rewrite DeleteDeviceIfExists_run.
  unfold ImageManager.UnmapImageIfExists, ImageManager.IsImageMapped.
  unfold bind at 1. unfold bind at 1.
  rewrite GetState_run. unfold ret at 1.
  pose proof (DeleteDevice_run name w) as Hdel.
  destruct (dm_devices w !! name) as [d|]; [|done].
  by destruct (negb (bool_decide (dev_table d = [])) && negb (dev_suspended d)).
Qed.

Lemma EnsureImageManager_run w :
  EnsureImageManager w
  = if images_ w then Some (true, w)
    else if gsid_available w then Some (true, set_images_ true w)
         else Some (false, w).
Proof.
  unfold EnsureImageManager, bind, get.
  destruct (images_ w); [done|]. by destruct (gsid_available w).
Qed.

(** None of the device-mapper operations aborts. *)

Lemma total_DM_DEV_STATUS name : total (DeviceMapper.DM_DEV_STATUS name).
Proof. unfold DeviceMapper.DM_DEV_STATUS. total_tac. Qed.
#[export] Hint Resolve total_DM_DEV_STATUS : total.

Lemma total_GetState name : total (DeviceMapper.GetState name).
Proof. unfold DeviceMapper.GetState. total_tac. Qed.
#[export] Hint Resolve total_GetState : total.

Lemma total_DeleteDevice name : total (DeviceMapper.DeleteDevice name).
Proof. unfold DeviceMapper.DeleteDevice. total_tac. Qed.
#[export] Hint Resolve total_DeleteDevice : total.

Lemma total_DeleteDeviceIfExists name : total (DeviceMapper.DeleteDeviceIfExists name).
Proof. unfold DeviceMapper.DeleteDeviceIfExists. total_tac. Qed.
#[export] Hint Resolve total_DeleteDeviceIfExists : total.

Lemma total_LoadTableAndActivate name table :
  total (DeviceMapper.LoadTableAndActivate name table).
Proof. unfold DeviceMapper.LoadTableAndActivate. total_tac. Qed.
#[export] Hint Resolve total_LoadTableAndActivate : total.

Lemma total_GetTable name flag : total (DeviceMapper.GetTable name flag).
Proof. unfold DeviceMapper.GetTable. total_tac. Qed.
#[export] Hint Resolve total_GetTable : total.

Lemma total_GetTableInfo name : total (DeviceMapper.GetTableInfo name).
Proof. apply total_GetTable. Qed.
Lemma total_GetTableStatus name : total (DeviceMapper.GetTableStatus name).
Proof. apply total_GetTable. Qed.
#[export] Hint Resolve total_GetTableInfo total_GetTableStatus : total.

Lemma total_EnsureImageManager : total EnsureImageManager.
Proof. unfold EnsureImageManager. total_tac. Qed.
#[export] Hint Resolve total_EnsureImageManager : total.

Lemma total_UnmapImageIfExists name : total (ImageManager.UnmapImageIfExists name).
Proof.
  unfold ImageManager.UnmapImageIfExists, ImageManager.IsImageMapped. total_tac.
Qed.
#[export] Hint Resolve total_UnmapImageIfExists : total.

(** The device-mapper operations touch no file. *)

Lemma frame_DM_DEV_STATUS name : frame same_files (DeviceMapper.DM_DEV_STATUS name).
Proof. unfold DeviceMapper.DM_DEV_STATUS. frame_tac. Qed.
#[export] Hint Resolve frame_DM_DEV_STATUS : frame.

Lemma frame_GetState name : frame same_files (DeviceMapper.GetState name).
Proof. unfold DeviceMapper.GetState. frame_tac. Qed.
#[export] Hint Resolve frame_GetState : frame.

Lemma frame_DeleteDevice name : frame same_files (DeviceMapper.DeleteDevice name).
Proof. unfold DeviceMapper.DeleteDevice. frame_tac. Qed.
#[export] Hint Resolve frame_DeleteDevice : frame.

Lemma frame_DeleteDeviceIfExists name :
  frame same_files (DeviceMapper.DeleteDeviceIfExists name).
Proof. unfold DeviceMapper.DeleteDeviceIfExists. frame_tac. Qed.
#[export] Hint Resolve frame_DeleteDeviceIfExists : frame.

Lemma frame_LoadTableAndActivate name table :
  frame same_files (DeviceMapper.LoadTableAndActivate name table).
Proof. unfold DeviceMapper.LoadTableAndActivate. frame_tac. Qed.
#[export] Hint Resolve frame_LoadTableAndActivate : frame.

Lemma frame_GetTable name flag : frame same_files (DeviceMapper.GetTable name flag).
Proof. unfold DeviceMapper.GetTable. frame_tac. Qed.
#[export] Hint Resolve frame_GetTable : frame.

Lemma frame_GetTableInfo name : frame same_files (DeviceMapper.GetTableInfo name).
Proof. apply frame_GetTable. Qed.
Lemma frame_GetTableStatus name : frame same_files (DeviceMapper.GetTableStatus name).
Proof. apply frame_GetTable. Qed.
#[export] Hint Resolve frame_GetTableInfo frame_GetTableStatus : frame.

Lemma frame_EnsureImageManager : frame same_files EnsureImageManager.
Proof. unfold EnsureImageManager. frame_tac. Qed.
#[export] Hint Resolve frame_EnsureImageManager : frame.

Lemma frame_UnmapImageIfExists name :
  frame same_files (ImageManager.UnmapImageIfExists name).
Proof.
  unfold ImageManager.UnmapImageIfExists, ImageManager.IsImageMapped. frame_tac.
Qed.
#[export] Hint Resolve frame_UnmapImageIfExists : frame.

(** ** Tearing a stack down *)

#[global] Instance later_preorder : PreOrder later.
Proof.
  split.
  - intros w. by repeat split.
  - intros w1 w2 w3 (? & ? & ?) (? & ? & ?).
    split; [by transitivity (dm_devices w2)|]. split; [auto | congruence].
Qed.

Lemma settles_ret_true : settles (ret true).
Proof.
  split; [|split].
  - intros w b w' [= _ <-]. reflexivity.
  - done.
  - by intros w w' [= ?].
Qed.

(** The shape of every teardown method: stop at the first step that fails. *)
Lemma settles_and_then (m1 m2 : M bool) :
  settles m1 → settles m2 →
  settles (ok <- m1;; if negb ok then ret false else m2).
Proof.
  intros (L1 & T1 & F1) (L2 & T2 & F2). split; [|split].
  - intros w b w' (ok & u & H1 & H2)%bind_Some. destruct ok; simpl in H2.
    + transitivity u; eauto.
    + injection H2 as <- <-. eauto.
  - intros w w' (ok & u & H1 & H2)%bind_Some w'' Hlater.
    destruct ok; simpl in H2; [|done].
    assert (later u w'') as Hu by (transitivity w'; eauto).
    by rewrite (bind_run _ _ _ _ _ (T1 _ _ H1 _ Hu)); simpl; eauto.
  - intros w w' (ok & u & H1 & H2)%bind_Some. destruct ok; simpl in H2.
    + rewrite (bind_run _ _ _ _ _ (T1 _ _ H1 _ (L2 _ _ _ H2))). simpl. eauto.
    + injection H2 as <-. by rewrite (bind_run _ _ _ _ _ (F1 _ _ H1)).
Qed.

Lemma settles_DeleteDeviceIfExists name : settles (DeviceMapper.DeleteDeviceIfExists name).
Proof.
  split; [|split].
  - intros w b w'. rewrite DeleteDeviceIfExists_run.
    destruct (dm_devices w !! name) as [d|]; [case_bool_decide|];
      intros [= _ <-]; try reflexivity.
    split; [apply delete_subseteq | done].
  - intros w w' Hrun w'' (Hsub & _).
    apply DeleteDeviceIfExists_absent.
    assert (dm_devices w' !! name = None) as Hgone.
    { rewrite DeleteDeviceIfExists_run in Hrun.
      destruct (dm_devices w !! name) as [d|] eqn:Hd; [case_bool_decide|];
        simplify_eq; [apply lookup_delete_eq | done]. }
    by eapply lookup_weaken_None.
  - intros w w'. rewrite DeleteDeviceIfExists_run.
    destruct (dm_devices w !! name) as [d|] eqn:Hd; [case_bool_decide|];
      intros [= <-]. rewrite DeleteDeviceIfExists_run, Hd. by rewrite bool_decide_false.
Qed.

Lemma settles_UnmapImageIfExists name : settles (ImageManager.UnmapImageIfExists name).
Proof.
  destruct (settles_DeleteDeviceIfExists name) as (L & T & F).
  split; [|split]; intros w; intros *; rewrite !UnmapImageIfExists_run; eauto.
  intros Hrun w'' Hl. rewrite UnmapImageIfExists_run. eauto.
Qed.

Lemma settles_EnsureImageManager : settles EnsureImageManager.
Proof.
  split; [|split].
  - intros w b w'. rewrite EnsureImageManager_run.
    destruct (images_ w) eqn:Hi; [|destruct (gsid_available w)];
      intros [= _ <-]; try reflexivity.
    by repeat split.
  - intros w w' Hrun w'' (_ & Himg & _). rewrite EnsureImageManager_run.
    rewrite Himg; [done|]. rewrite EnsureImageManager_run in Hrun.
    destruct (images_ w) eqn:Hi; [|destruct (gsid_available w)]; by simplify_eq.
  - intros w w'. rewrite EnsureImageManager_run.
    destruct (images_ w) eqn:Hi; [|destruct (gsid_available w) eqn:Hg];
      intros [= <-]. by rewrite EnsureImageManager_run, Hi, Hg.
Qed.

Lemma settles_UnmapSnapshot lock name : settles (UnmapSnapshot lock name).
Proof.
  unfold UnmapSnapshot.
  repeat (apply settles_and_then; [apply settles_DeleteDeviceIfExists|]).
  apply settles_ret_true.
Qed.

Lemma settles_UnmapCowDevices lock name : settles (UnmapCowDevices lock name).
Proof.
  unfold UnmapCowDevices.
  apply settles_and_then; [apply settles_EnsureImageManager|].
  apply settles_and_then; [apply settles_DeleteDeviceIfExists|].
  apply settles_and_then; [apply settles_UnmapImageIfExists|].
  apply settles_ret_true.
Qed.

Lemma settles_UnmapPartitionWithSnapshot lock P :
  settles (UnmapPartitionWithSnapshot lock P).
Proof.
  unfold UnmapPartitionWithSnapshot.
  apply settles_and_then; [apply settles_UnmapSnapshot|].
  apply settles_and_then; [apply settles_UnmapCowDevices|].
  apply settles_and_then; [apply settles_DeleteDeviceIfExists|].
  apply settles_ret_true.
Qed.

Lemma total_UnmapSnapshot lock name : total (UnmapSnapshot lock name).
Proof. unfold UnmapSnapshot. total_tac. Qed.
#[export] Hint Resolve total_UnmapSnapshot : total.

Lemma total_UnmapCowDevices lock name : total (UnmapCowDevices lock name).
Proof. unfold UnmapCowDevices. total_tac. Qed.
#[export] Hint Resolve total_UnmapCowDevices : total.

Lemma total_UnmapPartitionWithSnapshot lock P : total (UnmapPartitionWithSnapshot lock P).
Proof. unfold UnmapPartitionWithSnapshot. total_tac. Qed.
#[export] Hint Resolve total_UnmapPartitionWithSnapshot : total.

Lemma frame_UnmapSnapshot lock name : frame same_files (UnmapSnapshot lock name).
Proof. unfold UnmapSnapshot. frame_tac. Qed.
#[export] Hint Resolve frame_UnmapSnapshot : frame.

Lemma frame_UnmapCowDevices lock name : frame same_files (UnmapCowDevices lock name).
Proof. unfold UnmapCowDevices. frame_tac. Qed.
#[export] Hint Resolve frame_UnmapCowDevices : frame.

Lemma frame_UnmapPartitionWithSnapshot lock P :
  frame same_files (UnmapPartitionWithSnapshot lock P).
Proof. unfold UnmapPartitionWithSnapshot. frame_tac. Qed.
#[export] Hint Resolve frame_UnmapPartitionWithSnapshot : frame.

Lemma releasable_later w w' name : later w w' → releasable w name → releasable w' name.
Proof.
  intros (Hsub & _) Hrel d Hd. apply Hrel. by eapply lookup_weaken.
Qed.

Lemma DeleteDeviceIfExists_releasable name w :
  releasable w name →
  ∃ w', DeviceMapper.DeleteDeviceIfExists name w = Some (true, w').
Proof.
  intros Hrel. rewrite DeleteDeviceIfExists_run.
  destruct (dm_devices w !! name) as [d|] eqn:Hd; [|eauto].
  rewrite bool_decide_true by eauto. eauto.
Qed.

Lemma UnmapPartitionWithSnapshot_possible lock P w :
  teardown_possible w P →
  ∃ w', UnmapPartitionWithSnapshot lock P w = Some (true, w').
Proof.
  intros (Himg & R1 & R2 & R3 & R4 & R5).
  unfold UnmapPartitionWithSnapshot, UnmapSnapshot, UnmapCowDevices.
  destruct (DeleteDeviceIfExists_releasable _ w R1) as [w1 H1].
  pose proof (proj1 (settles_DeleteDeviceIfExists _) _ _ _ H1) as L1.
  destruct (DeleteDeviceIfExists_releasable _ w1 (releasable_later _ _ _ L1 R2)) as [w2 H2].
  pose proof (proj1 (settles_DeleteDeviceIfExists _) _ _ _ H2) as L2.
  assert (later w w2) as L02 by (by transitivity w1).
  assert (∃ w3, EnsureImageManager w2 = Some (true, w3)) as [w3 H3].
  { rewrite EnsureImageManager_run. destruct (images_ w2) eqn:Hi; [eauto|].
    destruct L02 as (_ & Hkeep & ->).
    destruct Himg as [Himg | ->]; [|eauto]. rewrite (Hkeep Himg) in Hi. done. }
  pose proof (proj1 settles_EnsureImageManager _ _ _ H3) as L3.
  assert (later w w3) as L03 by (by transitivity w2).
  destruct (DeleteDeviceIfExists_releasable _ w3 (releasable_later _ _ _ L03 R3)) as [w4 H4].
  pose proof (proj1 (settles_DeleteDeviceIfExists _) _ _ _ H4) as L4.
  assert (later w w4) as L04 by (by transitivity w3).
  destruct (DeleteDeviceIfExists_releasable _ w4 (releasable_later _ _ _ L04 R4)) as [w5 H5].
  pose proof (proj1 (settles_DeleteDeviceIfExists _) _ _ _ H5) as L5.
  assert (later w w5) as L05 by (by transitivity w4).
  destruct (DeleteDeviceIfExists_releasable _ w5 (releasable_later _ _ _ L05 R5)) as [w6 H6].
  exists w6.
  rewrite <- UnmapImageIfExists_run in H5.
  unfold bind. rewrite H1. cbn [ret negb]. rewrite H2. cbn [ret negb].
  rewrite H3. cbn [ret negb]. rewrite H4. cbn [ret negb].
  rewrite H5. cbn [ret negb]. rewrite H6. done.
Qed.

(** ** The snapshot methods: what they leave alone, and that they return *)

Lemma ReadSnapshotStatus_pure lock name w r w' :
  ReadSnapshotStatus lock name w = Some (r, w') → w' = w.
Proof.
  unfold ReadSnapshotStatus, bind, get, ret.
  destruct (status_file w name) as [contents|]; [|by intros [= _ <-]].
  destruct (negb _); [by intros [= _ <-]|].
  destruct (base.Split contents " ") as [|? [|? [|? [|? [|? [|? [|? [|? ?]]]]]]]];
    by intros [= _ <-].
Qed.

Lemma total_ReadSnapshotStatus lock name : total (ReadSnapshotStatus lock name).
Proof. unfold ReadSnapshotStatus. total_tac. Qed.
#[export] Hint Resolve total_ReadSnapshotStatus : total.

Lemma frame_ReadSnapshotStatus lock name : frame same_files (ReadSnapshotStatus lock name).
Proof. intros w r w' ->%ReadSnapshotStatus_pure. reflexivity. Qed.
#[export] Hint Resolve frame_ReadSnapshotStatus : frame.

Lemma ReadUpdateState_pure file w st w' : ReadUpdateState file w = Some (st, w') → w' = w.
Proof.
  unfold ReadUpdateState, bind, get, ret.
  repeat (match goal with |- context [if ?b then _ else _] => destruct b end);
    by intros [= _ <-].
Qed.

Lemma total_ReadUpdateState file : total (ReadUpdateState file).
Proof. unfold ReadUpdateState. total_tac. Qed.
#[export] Hint Resolve total_ReadUpdateState : total.

Lemma frame_ReadUpdateState file : frame same_files (ReadUpdateState file).
Proof. intros w r w' ->%ReadUpdateState_pure. reflexivity. Qed.
#[export] Hint Resolve frame_ReadUpdateState : frame.

Lemma total_Truncate file : total (Truncate file).
Proof. unfold Truncate. total_tac. Qed.
#[export] Hint Resolve total_Truncate : total.

Lemma total_WriteUpdateState file st : total (WriteUpdateState file st).
Proof. unfold WriteUpdateState. total_tac. Qed.
#[export] Hint Resolve total_WriteUpdateState : total.

Lemma total_LockExclusive : total LockExclusive.
Proof. unfold LockExclusive. total_tac. Qed.
#[export] Hint Resolve total_LockExclusive : total.

Lemma total_GetSlotSuffix : total GetSlotSuffix.
Proof. unfold GetSlotSuffix. total_tac. Qed.
Lemma total_GetSuperDevice slot : total (GetSuperDevice slot).
Proof. unfold GetSuperDevice. total_tac. Qed.
Lemma total_ReadMetadata dev slot : total (ReadMetadata dev slot).
Proof. unfold ReadMetadata. total_tac. Qed.
#[export] Hint Resolve total_GetSlotSuffix total_GetSuperDevice total_ReadMetadata : total.

Lemma frame_GetSlotSuffix : frame same_files GetSlotSuffix.
Proof. unfold GetSlotSuffix. frame_tac. Qed.
Lemma frame_GetSuperDevice slot : frame same_files (GetSuperDevice slot).
Proof. unfold GetSuperDevice. frame_tac. Qed.
Lemma frame_ReadMetadata dev slot : frame same_files (ReadMetadata dev slot).
Proof. unfold ReadMetadata. frame_tac. Qed.
#[export] Hint Resolve frame_GetSlotSuffix frame_GetSuperDevice frame_ReadMetadata : frame.

Section exclusive_lock.
Variable lock : LockedFile.
Hypothesis Hlock : lock_mode lock = LOCK_EX.

Lemma CHECK_exclusive : CHECK (bool_decide (lock_mode lock = LOCK_EX)) = ret tt.
Proof. by rewrite bool_decide_true. Qed.

Lemma total_WriteSnapshotStatus name status : total (WriteSnapshotStatus lock name status).
Proof. unfold WriteSnapshotStatus. rewrite CHECK_exclusive. total_tac. Qed.

Lemma total_BackingImageExists name : total (ImageManager.BackingImageExists name).
Proof. unfold ImageManager.BackingImageExists. total_tac. Qed.

Lemma total_DeleteBackingImage name : total (ImageManager.DeleteBackingImage name).
Proof.
  unfold ImageManager.DeleteBackingImage, ImageManager.IsImageMapped. total_tac.
Qed.

Hint Resolve total_WriteSnapshotStatus total_BackingImageExists
  total_DeleteBackingImage : total.

Lemma total_DeleteSnapshot name : total (DeleteSnapshot lock name).
Proof. unfold DeleteSnapshot. rewrite CHECK_exclusive. total_tac. Qed.
Hint Resolve total_DeleteSnapshot : total.

Lemma total_RemoveAllSnapshots_loop snapshots :
  ∀ ok, total (RemoveAllSnapshots_loop lock snapshots ok).
Proof.
  induction snapshots as [|name rest IH]; intros ok; simpl; total_tac.
Qed.
Hint Resolve total_RemoveAllSnapshots_loop : total.

Lemma total_ListSnapshots : total (ListSnapshots lock).
Proof. unfold ListSnapshots. total_tac. Qed.
Hint Resolve total_ListSnapshots : total.

Lemma total_RemoveAllSnapshots : total (RemoveAllSnapshots lock).
Proof. unfold RemoveAllSnapshots. total_tac. Qed.
Hint Resolve total_RemoveAllSnapshots : total.

Lemma total_RemoveAllUpdateState : total (RemoveAllUpdateState lock).
Proof. unfold RemoveAllUpdateState, RemoveSnapshotBootIndicator. total_tac. Qed.
Hint Resolve total_RemoveAllUpdateState : total.

Lemma total_HandleCancelledUpdate : total (HandleCancelledUpdate lock).
Proof. unfold HandleCancelledUpdate. total_tac. Qed.
Hint Resolve total_HandleCancelledUpdate : total.

Lemma total_GetSingleTarget name query : total (GetSingleTarget name query).
Proof. unfold GetSingleTarget. total_tac. Qed.
Hint Resolve total_GetSingleTarget : total.

Lemma total_IsSnapshotDevice name : total (IsSnapshotDevice name).
Proof. unfold IsSnapshotDevice. total_tac. Qed.
Hint Resolve total_IsSnapshotDevice : total.

Lemma total_QuerySnapshotStatus name status : total (QuerySnapshotStatus name status).
Proof. unfold QuerySnapshotStatus. total_tac. Qed.
Hint Resolve total_QuerySnapshotStatus : total.

Lemma total_RewriteSnapshotDeviceTable name : total (RewriteSnapshotDeviceTable name).
Proof. unfold RewriteSnapshotDeviceTable. total_tac. Qed.
Hint Resolve total_RewriteSnapshotDeviceTable : total.

Lemma total_SwitchSnapshotToMerge name : total (SwitchSnapshotToMerge lock name).
Proof. unfold SwitchSnapshotToMerge. total_tac. Qed.
Hint Resolve total_SwitchSnapshotToMerge : total.

Lemma total_all_mapped snapshots : total (all_mapped snapshots).
Proof. induction snapshots as [|name rest IH]; simpl; total_tac. Qed.
Hint Resolve total_all_mapped : total.

Lemma total_switch_all snapshots : ∀ acc, total (switch_all lock snapshots acc).
Proof. induction snapshots as [|name rest IH]; intros acc; simpl; total_tac. Qed.
Hint Resolve total_switch_all : total.

Lemma total_IsCancelledSnapshot name : total (IsCancelledSnapshot name).
Proof. unfold IsCancelledSnapshot. total_tac. Qed.
Hint Resolve total_IsCancelledSnapshot : total.

Lemma total_InitDefaults params : total (fs_mgr.InitDefaults params).
Proof. unfold fs_mgr.InitDefaults. total_tac. Qed.
Hint Resolve total_InitDefaults : total.

Lemma total_CreateDmTable params : total (fs_mgr.CreateDmTable params).
Proof. unfold fs_mgr.CreateDmTable. total_tac. Qed.
Hint Resolve total_CreateDmTable : total.

Lemma total_CollapseSnapshotDevice name status :
  total (CollapseSnapshotDevice name status).
Proof. unfold CollapseSnapshotDevice. total_tac. Qed.
Hint Resolve total_CollapseSnapshotDevice : total.

Lemma total_OnSnapshotMergeComplete name status :
  total (OnSnapshotMergeComplete lock name status).
Proof. unfold OnSnapshotMergeComplete. total_tac. Qed.
Hint Resolve total_OnSnapshotMergeComplete : total.

Lemma total_CheckTargetMergeState name : total (CheckTargetMergeState lock name).
Proof. unfold CheckTargetMergeState. total_tac. Qed.
Hint Resolve total_CheckTargetMergeState : total.

Lemma total_poll_snapshots snapshots : ∀ fl, total (poll_snapshots lock snapshots fl).
Proof. induction snapshots as [|name rest IH]; intros fl; simpl; total_tac. Qed.
Hint Resolve total_poll_snapshots : total.

Lemma total_CheckMergeState_locked : total (CheckMergeState_locked lock).
Proof. unfold CheckMergeState_locked. total_tac. Qed.

End exclusive_lock.

(** Frames. *)

Lemma frame_files_update_state {A} (m : M A) :
  frame same_files m → frame same_update_state m.
Proof. apply frame_weaken, same_files_update_state. Qed.
#[export] Hint Resolve frame_files_update_state : frame.

Lemma frame_InitDefaults params : frame same_files (fs_mgr.InitDefaults params).
Proof. unfold fs_mgr.InitDefaults. frame_tac. Qed.
#[export] Hint Resolve frame_InitDefaults : frame.

Lemma frame_CreateDmTable params : frame same_files (fs_mgr.CreateDmTable params).
Proof. unfold fs_mgr.CreateDmTable. frame_tac. Qed.
#[export] Hint Resolve frame_CreateDmTable : frame.

Lemma frame_GetSingleTarget name query : frame same_files (GetSingleTarget name query).
Proof. unfold GetSingleTarget. frame_tac. Qed.
#[export] Hint Resolve frame_GetSingleTarget : frame.

Lemma frame_IsSnapshotDevice name : frame same_files (IsSnapshotDevice name).
Proof. unfold IsSnapshotDevice. frame_tac. Qed.
#[export] Hint Resolve frame_IsSnapshotDevice : frame.

Lemma frame_QuerySnapshotStatus name status :
  frame same_files (QuerySnapshotStatus name status).
Proof. unfold QuerySnapshotStatus. frame_tac. Qed.
#[export] Hint Resolve frame_QuerySnapshotStatus : frame.

Lemma frame_RewriteSnapshotDeviceTable name :
  frame same_files (RewriteSnapshotDeviceTable name).
Proof. unfold RewriteSnapshotDeviceTable. frame_tac. Qed.
#[export] Hint Resolve frame_RewriteSnapshotDeviceTable : frame.

Lemma frame_IsCancelledSnapshot name : frame same_files (IsCancelledSnapshot name).
Proof. unfold IsCancelledSnapshot. frame_tac. Qed.
#[export] Hint Resolve frame_IsCancelledSnapshot : frame.

Lemma frame_CollapseSnapshotDevice name status :
  frame same_files (CollapseSnapshotDevice name status).
Proof. unfold CollapseSnapshotDevice. frame_tac. Qed.
#[export] Hint Resolve frame_CollapseSnapshotDevice : frame.

Lemma frame_all_mapped snapshots : frame same_files (all_mapped snapshots).
Proof. induction snapshots as [|name rest IH]; simpl; frame_tac. Qed.
#[export] Hint Resolve frame_all_mapped : frame.

Lemma frame_ListSnapshots lock : frame same_files (ListSnapshots lock).
Proof. unfold ListSnapshots. frame_tac. Qed.
#[export] Hint Resolve frame_ListSnapshots : frame.

Lemma frame_WriteSnapshotStatus lock name status :
  frame same_update_state (WriteSnapshotStatus lock name status).
Proof. unfold WriteSnapshotStatus. frame_tac. Qed.
#[export] Hint Resolve frame_WriteSnapshotStatus : frame.

Lemma frame_BackingImageExists name : frame same_files (ImageManager.BackingImageExists name).
Proof. unfold ImageManager.BackingImageExists. frame_tac. Qed.
#[export] Hint Resolve frame_BackingImageExists : frame.

Lemma frame_DeleteBackingImage name :
  frame same_update_state (ImageManager.DeleteBackingImage name).
Proof.
  unfold ImageManager.DeleteBackingImage, ImageManager.IsImageMapped. frame_tac.
Qed.
#[export] Hint Resolve frame_DeleteBackingImage : frame.

Lemma frame_DeleteSnapshot lock name : frame same_update_state (DeleteSnapshot lock name).
Proof. unfold DeleteSnapshot. frame_tac. Qed.
#[export] Hint Resolve frame_DeleteSnapshot : frame.

Lemma frame_RemoveAllSnapshots_loop lock snapshots :
  ∀ ok, frame same_update_state (RemoveAllSnapshots_loop lock snapshots ok).
Proof. induction snapshots as [|name rest IH]; intros ok; simpl; frame_tac. Qed.
#[export] Hint Resolve frame_RemoveAllSnapshots_loop : frame.

Lemma frame_RemoveAllSnapshots lock : frame same_update_state (RemoveAllSnapshots lock).
Proof. unfold RemoveAllSnapshots. frame_tac. Qed.
#[export] Hint Resolve frame_RemoveAllSnapshots : frame.

Lemma frame_SwitchSnapshotToMerge lock name :
  frame same_update_state (SwitchSnapshotToMerge lock name).
Proof. unfold SwitchSnapshotToMerge. frame_tac. Qed.
#[export] Hint Resolve frame_SwitchSnapshotToMerge : frame.

Lemma frame_switch_all lock snapshots :
  ∀ acc, frame same_update_state (switch_all lock snapshots acc).
Proof. induction snapshots as [|name rest IH]; intros acc; simpl; frame_tac. Qed.
#[export] Hint Resolve frame_switch_all : frame.

Lemma frame_OnSnapshotMergeComplete lock name status :
  frame same_update_state (OnSnapshotMergeComplete lock name status).
Proof. unfold OnSnapshotMergeComplete. frame_tac. Qed.
#[export] Hint Resolve frame_OnSnapshotMergeComplete : frame.

Lemma frame_CheckTargetMergeState lock name :
  frame same_update_state (CheckTargetMergeState lock name).
Proof. unfold CheckTargetMergeState. frame_tac. Qed.
#[export] Hint Resolve frame_CheckTargetMergeState : frame.

Lemma frame_poll_snapshots lock snapshots :
  ∀ fl, frame same_update_state (poll_snapshots lock snapshots fl).
Proof. induction snapshots as [|name rest IH]; intros fl; simpl; frame_tac. Qed.
#[export] Hint Resolve frame_poll_snapshots : frame.

(** ** The state file *)

Lemma WriteUpdateState_run file st w :
  WriteUpdateState file st w
  = if bool_decide (UpdateState_print st = "") then Some (false, w)
    else if bool_decide (lock_mode file = LOCK_SH) then Some (false, w)
         else Some (true, set_state_file (Some (UpdateState_print st))
                            (set_state_file (Some "") w)).
Proof.
  unfold WriteUpdateState, Truncate, bind, modify, ret.
  case_bool_decide; [done|]. by case_bool_decide.
Qed.

Lemma set_state_file_same w c : state_file w = Some c → set_state_file (Some c) w = w.
Proof. destruct w. simpl. by intros ->. Qed.

Lemma ReadUpdateState_state_file file w w' st :
  ReadUpdateState file w = Some (st, w') →
  st ≠ UpdateState.None → state_file w = Some (UpdateState_print st).
Proof.
  unfold ReadUpdateState, bind, get, ret.
  destruct (state_file w) as [contents|]; simpl; [|by intros [= <- _]].
  repeat (case_bool_decide; simpl); intros [= <- _]; by subst.
Qed.

Lemma ReadUpdateState_locked file w :
  ReadUpdateState file (set_state_file (Some (default "" (state_file w))) w)
  = match ReadUpdateState file w with
    | Some (st, _) => Some (st, set_state_file (Some (default "" (state_file w))) w)
    | None => None
    end.
Proof.
  unfold ReadUpdateState, bind, get, ret. simpl.
  repeat (case_bool_decide; simpl); reflexivity.
Qed.


Lemma ReadUpdateState_run file w : ReadUpdateState file w = Some (persisted_state w, w).
Proof.
  unfold persisted_state.
  destruct (total_ReadUpdateState exclusive w) as [[st w'] Hrun].
  change (ReadUpdateState file w) with (ReadUpdateState exclusive w).
  rewrite Hrun. by rewrite (ReadUpdateState_pure _ _ _ _ Hrun).
Qed.

Lemma persisted_state_same w w' : state_file w' = state_file w → persisted_state w' = persisted_state w.
Proof.
  intros Heq. unfold persisted_state, ReadUpdateState. msimpl. rewrite Heq.
  repeat (match goal with |- context [if ?b then _ else _] => destruct b end);
    reflexivity.
Qed.

Lemma persisted_state_written w st :
  st ≠ UpdateState.Cancelled → state_file w = Some (UpdateState_print st) → persisted_state w = st.
Proof.
  intros Hst Hfile. unfold persisted_state, ReadUpdateState. msimpl. rewrite Hfile.
  by destruct st.
Qed.

Lemma ReadSnapshotStatus_run lock name w :
  ReadSnapshotStatus lock name w = Some (record_of w name, w).
Proof.
  unfold record_of.
  destruct (total_ReadSnapshotStatus exclusive name w) as [[st w'] Hrun].
  change (ReadSnapshotStatus lock name w) with (ReadSnapshotStatus exclusive name w).
  rewrite Hrun. by rewrite (ReadSnapshotStatus_pure _ _ _ _ _ Hrun).
Qed.

Lemma record_of_same w w' name :
  snapshots_dir w' = snapshots_dir w → record_of w' name = record_of w name.
Proof.
  intros Heq. unfold record_of, ReadSnapshotStatus, status_file. msimpl. rewrite Heq.
  destruct (snapshots_dir w ≫= _) as [contents|]; [|done].
  destruct (negb _); [done|].
  by destruct (base.Split contents " ") as [|? [|? [|? [|? [|? [|? [|? [|? ?]]]]]]]].
Qed.

(** ** Creating devices *)

(** The device that [CreateDevice] leaves behind when it succeeds. *)
Lemma CreateDevice_run name table timeout_ms w :
  DeviceMapper.CreateDevice name table timeout_ms w
  = let uuid := "uuid-" +:+ base.to_string (next_minor w) in
    let path := "/dev/block/dm-" +:+ base.to_string (next_minor w) in
    let d := {| dev_minor := next_minor w; dev_uuid := uuid; dev_suspended := false;
                dev_open_count := 0; dev_table := DmTarget_Serialize <$> table |} in
    let w1 := set_next_minor (next_minor w + 1) w in
    if bool_decide (name = "") then Some ((false, ""), w)
    else if DeviceMapper.DM_NAME_LEN <=? Z.of_nat (String.length name)
    then Some ((false, ""), w)
    else match dm_devices w !! name with
         | Some _ => Some ((false, ""), w)
         | None =>
             if bool_decide (table = [])
             then Some ((false, ""),
                        set_dm_devices (λ _, delete name (<[name := {|
                          dev_minor := next_minor w; dev_uuid := uuid;
                          dev_suspended := false; dev_open_count := 0;
                          dev_table := [] |}]> (dm_devices w))) w1)
             else if (timeout_ms <=? 0) || ueventd w
             then Some ((true, path), set_dm_devices (λ _, <[name := d]> (dm_devices w)) w1)
             else Some ((false, path),
                        set_dm_devices (λ _, delete name (<[name := d]> (dm_devices w))) w1)
         end.
Proof.
  unfold DeviceMapper.CreateDevice, DeviceMapper.GenerateUuid,
    DeviceMapper.CreateDevice_uuid, DeviceMapper.LoadTableAndActivate,
    DeviceMapper.GetDeviceUniquePath, DeviceMapper.GetDmDevicePathByName,
    DeviceMapper.DM_DEV_STATUS, DeviceMapper.WaitForFile, DeviceMapper.DeleteDevice.
  msimpl. cbv zeta.
  case_bool_decide as Hname; [reflexivity|].
  destruct (DeviceMapper.DM_NAME_LEN <=? Z.of_nat (String.length name)); [reflexivity|].
  destruct (dm_devices w !! name) as [d0|] eqn:Hd; [reflexivity|].
  wsimpl. rewrite lookup_insert_eq.
  case_bool_decide as Htable.
  - wsimpl. rewrite lookup_insert_eq. wsimpl. rewrite bool_decide_true by done.
    destruct w; reflexivity.
  - wsimpl. rewrite lookup_insert_eq. wsimpl. rewrite bool_decide_false by done.
    wsimpl. rewrite lookup_insert_eq. wsimpl.
    destruct (timeout_ms <=? 0); wsimpl.
    + destruct w; unfold set_dm_devices, set_next_minor; cbn; by rewrite insert_insert_eq.
    + destruct (ueventd w) eqn:Hu; wsimpl.
      * destruct w; unfold set_dm_devices, set_next_minor; cbn; by rewrite insert_insert_eq.
      * rewrite lookup_insert_eq. wsimpl. rewrite bool_decide_true by done.
        destruct w; unfold set_dm_devices, set_next_minor; cbn; by rewrite insert_insert_eq.
Qed.

Lemma CreateDevice_true name table timeout_ms w path w' :
  DeviceMapper.CreateDevice name table timeout_ms w = Some ((true, path), w') →
  dm_devices w !! name = None ∧
  ∃ d, dm_devices w' = <[name := d]> (dm_devices w) ∧
       dev_table d = DmTarget_Serialize <$> table ∧ dev_minor d = next_minor w ∧
       same_files w w'.
Proof.
  rewrite CreateDevice_run. cbv zeta.
  case_bool_decide; [done|].
  destruct (_ <=? Z.of_nat _); [done|].
  destruct (dm_devices w !! name); [done|].
  case_bool_decide; [done|].
  destruct (_ || _); [|done].
  intros [= <- <-]. split; [done|]. eexists. split; [reflexivity|].
  by repeat split.
Qed.

Lemma CreateDevice_false name table timeout_ms w path w' :
  DeviceMapper.CreateDevice name table timeout_ms w = Some ((false, path), w') →
  dm_devices w' = dm_devices w ∧ same_files w w'.
Proof.
  rewrite CreateDevice_run. cbv zeta.
  case_bool_decide; [by intros [= _ <-]|].
  destruct (_ <=? Z.of_nat _); [by intros [= _ <-]|].
  destruct (dm_devices w !! name) eqn:Hname; [by intros [= _ <-]|].
  case_bool_decide.
  - intros [= _ <-]. split; [|by repeat split].
    wsimpl. rewrite delete_insert_eq. by apply delete_id.
  - destruct (_ || _); [done|].
    intros [= _ <-]. split; [|by repeat split].
    wsimpl. rewrite delete_insert_eq. by apply delete_id.
Qed.

Lemma total_CreateDevice name table timeout_ms :
  total (DeviceMapper.CreateDevice name table timeout_ms).
Proof.
  intros w. rewrite CreateDevice_run. cbv zeta.
  repeat (match goal with |- context [if ?b then _ else _] => destruct b end);
    try (destruct (dm_devices w !! name)); eauto;
    repeat (match goal with |- context [if ?b then _ else _] => destruct b end); eauto.
Qed.
#[export] Hint Resolve total_CreateDevice : total.

Lemma frame_CreateDevice name table timeout_ms :
  frame same_files (DeviceMapper.CreateDevice name table timeout_ms).
Proof.
  intros w [[] path] w' Hrun.
  - by apply CreateDevice_true in Hrun as (_ & d & _ & _ & _ & ?).
  - by apply CreateDevice_false in Hrun as [_ ?].
Qed.
#[export] Hint Resolve frame_CreateDevice : frame.

Lemma string_app_length (s t : string) :
  String.length (s +:+ t) = (String.length s + String.length t)%nat.
Proof.
  induction s as [|c s IH]; [done|]. rewrite string_app_cons. simpl. by rewrite IH.
Qed.

Lemma string_app_ne (s t : string) : t ≠ "" → s +:+ t ≠ s.
Proof.
  intros Ht Heq. apply (f_equal String.length) in Heq.
  rewrite string_app_length in Heq. destruct t; [done|]. simpl in Heq. lia.
Qed.
(** ** Mapping a snapshot *)

Lemma EnsureImageManager_same w b w' :
  EnsureImageManager w = Some (b, w') → same_files w w' ∧ dm_devices w' = dm_devices w.
Proof.
  rewrite EnsureImageManager_run.
  destruct (images_ w); [|destruct (gsid_available w)]; intros [= _ <-]; by repeat split.
Qed.

Lemma snapshot_device_name name status :
  device_size status mod kSectorSize = 0 → snapshot_size status mod kSectorSize = 0 →
  snapshot_size status ≤ device_size status →
  (if 0 <? (device_size status - snapshot_size status) / kSectorSize
   then GetSnapshotExtraDeviceName name else name) = GetSnapshotDeviceName name status.
Proof.
  unfold GetSnapshotDeviceName, kSectorSize. intros Hd Hs Hle.
  destruct (device_size status =? snapshot_size status) eqn:Heq; simpl.
  - apply Z.eqb_eq in Heq. rewrite Heq, Z.sub_diag. reflexivity.
  - apply Z.eqb_neq in Heq.
    assert (0 < (device_size status - snapshot_size status) / 512) as ->%Z.ltb_lt; [|done].
    apply Z.div_str_pos. split; [lia|].
    apply Z.mod_divide in Hd, Hs; try lia.
    destruct Hd as [a Ha], Hs as [b Hb]. lia.
Qed.

Lemma MapSnapshot_inv lock name base_device cow_device timeout_ms w b path w' :
  MapSnapshot lock name base_device cow_device timeout_ms w = Some ((b, path), w') →
  (persisted_state w = UpdateState.MergeCompleted ∨
   persisted_state w = UpdateState.MergeNeedsReboot →
   b = false ∧ dm_devices w' = dm_devices w) ∧
  (b = true →
   ∃ status d,
     record_of w name = Some status ∧
     dm_devices w' !! GetSnapshotDeviceName name status = Some d ∧
     dev_table d = [DmTarget_Serialize
                      (DmTargetSnapshot 0 (snapshot_size status / kSectorSize)
                         base_device cow_device (mapping_mode (persisted_state w))
                         kSnapshotChunkSize)]).
Proof.
  unfold MapSnapshot. intros H.
  apply bind_Some in H as (ok & w1 & Hensure & H).
  apply EnsureImageManager_same in Hensure as [Hfiles Hdm].
  assert (persisted_state w1 = persisted_state w) as Hstate.
  { apply persisted_state_same. apply Hfiles. }
  assert (record_of w1 name = record_of w name) as Hrecord.
  { apply record_of_same. apply Hfiles. }
  destruct ok; cbn [negb] in H; [|injection H as <- <- <-; by split].
  apply bind_Some in H as (status & w2 & Hread & H).
  rewrite ReadSnapshotStatus_run in Hread. injection Hread as <- <-.
  rewrite Hrecord in H.
  destruct (record_of w name) as [status|]; [|injection H as <- <- <-; by split].
  case_bool_decide as Hcompleted; [injection H as <- <- <-; by split|].
  apply bind_Some in H as (size_ok & w2 & Hsize & H).
  assert (w2 = w1) as ->.
  { destruct (base.StartsWith base_device "/"); [|by injection Hsize as <- <-].
    unfold bind, get in Hsize. destruct (block_devices w1 !! base_device); [|by injection Hsize].
    repeat (match type of Hsize with context [if ?c then _ else _] => destruct c end);
      by injection Hsize. }
  clear Hsize.
  destruct size_ok; cbn [negb] in H; [|injection H as <- <- <-; by split].
  destruct (device_size status mod kSectorSize =? 0) eqn:Hdev; cbn [negb] in H;
    [|injection H as <- <- <-; by split].
  destruct (snapshot_size status mod kSectorSize =? 0) eqn:Hsnap; cbn [negb orb] in H;
    [|injection H as <- <- <-; by split].
  destruct (device_size status <? snapshot_size status) eqn:Hle; cbn [negb orb] in H;
    [injection H as <- <- <-; by split|].
  apply Z.eqb_eq in Hdev, Hsnap. apply Z.ltb_ge in Hle.
  apply bind_Some in H as (update_state & w2 & Hupdate & H).
  rewrite ReadUpdateState_run in Hupdate. injection Hupdate as <- <-.
  rewrite Hstate in H. rewrite snapshot_device_name in H by done.
  assert (∀ mode,
    (created <-
     DeviceMapper.CreateDevice (GetSnapshotDeviceName name status)
       [DmTargetSnapshot 0 (snapshot_size status / kSectorSize) base_device
          cow_device mode kSnapshotChunkSize] timeout_ms;;
     (if negb created.1 then ret (false, created.2) else
      if negb ((device_size status - snapshot_size status) / kSectorSize =? 0)
      then
        snap_dev <- DeviceMapper.GetDeviceString (GetSnapshotDeviceName name status);;
        match snap_dev with
        | Some snap_dev0 =>
            outer <-
            DeviceMapper.CreateDevice name
              [DmTargetLinear 0 (snapshot_size status / kSectorSize) snap_dev0 0;
               DmTargetLinear (snapshot_size status / kSectorSize)
                 ((device_size status - snapshot_size status) / kSectorSize)
                 base_device (snapshot_size status / kSectorSize)] timeout_ms;;
            (if negb outer.1
             then DeviceMapper.DeleteDevice (GetSnapshotDeviceName name status);;;
                  ret (false, outer.2)
             else ret (true, outer.2))
        | None => ret (false, created.2)
        end
      else ret (true, created.2))) w1 = Some (b, path, w') →
    b = true →
    ∃ d, dm_devices w' !! GetSnapshotDeviceName name status = Some d ∧
         dev_table d = [DmTarget_Serialize
                      (DmTargetSnapshot 0 (snapshot_size status / kSectorSize)
                         base_device cow_device mode kSnapshotChunkSize)]) as Htail.
  { clear H. intros mode H ->.
    apply bind_Some in H as ([created cpath] & w2 & Hcreate & H).
    destruct created; cbn [negb fst snd] in H; [|by injection H].
    apply CreateDevice_true in Hcreate as (_ & d & Hd & Htable & _ & _).
    destruct (_ =? 0) eqn:Hlinear; cbn [negb] in H.
    { injection H as _ <-. exists d. by rewrite Hd, lookup_insert_eq. }
    apply bind_Some in H as (snap_dev & w3 & Hstring & H).
    assert (w3 = w2) as ->.
    { unfold DeviceMapper.GetDeviceString, DeviceMapper.GetDeviceNumber,
        DeviceMapper.DM_DEV_STATUS, bind, get, ret in Hstring.
      destruct (dm_devices w2 !! _); by injection Hstring. }
    destruct snap_dev as [snap_dev|]; [|by injection H].
    apply bind_Some in H as ([outer opath] & w3 & Houter & H).
    destruct outer; cbn [negb fst snd] in H.
    - injection H as _ <-.
      apply CreateDevice_true in Houter as (_ & d' & Hd' & _).
      exists d. split; [|done]. rewrite Hd', lookup_insert_ne, Hd, lookup_insert_eq; [done|].
      unfold GetSnapshotDeviceName.
      destruct (device_size status =? snapshot_size status) eqn:Heq.
      + apply Z.eqb_eq in Heq. rewrite Heq, Z.sub_diag in Hlinear. done.
      + intros Hname. symmetry in Hname. by apply string_app_ne in Hname.
    - apply bind_Some in H as (? & ? & _ & H). by injection H. }
  destruct (persisted_state w) eqn:Hst;
    (split; [intros [?|?]; try done; by injection H as <- <- <- |]);
    try (by intros ->; injection H);
    intros Hb; destruct (Htail _ H Hb) as (d & ? & ?); by exists status, d.
Qed.

Lemma total_GetDeviceString name : total (DeviceMapper.GetDeviceString name).
Proof. unfold DeviceMapper.GetDeviceString, DeviceMapper.GetDeviceNumber. total_tac. Qed.

#[export] Hint Resolve total_GetDeviceString : total.

Lemma total_MapSnapshot lock name base_device cow_device timeout_ms :
  total (MapSnapshot lock name base_device cow_device timeout_ms).
Proof. unfold MapSnapshot. total_tac. Qed.
(** ** Mapping a partition that has no live snapshot *)

Lemma InitDefaults_inv params params' w w' :
  fs_mgr.InitDefaults params w = Some (Some params', w') →
  w' = w ∧ fs_mgr.InitDefaults params' w = Some (Some params', w) ∧
  block_device params' = block_device params ∧
  timeout_ms params' = timeout_ms params ∧
  fs_mgr.GetPartitionName params' = fs_mgr.GetPartitionName params ∧
  device_name params' = fs_mgr.GetDeviceName params.
Proof.
  unfold fs_mgr.InitDefaults, fs_mgr.GetDeviceName, fs_mgr.GetPartitionName, ReadMetadata,
    bind, get, ret.
  intros H.
  repeat (case_match; simplify_eq/=); repeat case_bool_decide; simplify_eq/=; try done.
Qed.

Lemma live_snapshot_none lock params part w :
  no_live_snapshot w (fs_mgr.GetPartitionName params) part →
  live_snapshot lock params part w = Some (Some None, w).
Proof.
  unfold live_snapshot. intros [Hattr|[Hfile|(status & Hrecord & Hstate)]].
  - by rewrite Hattr.
  - destruct (_ =? 0); [done|]. unfold bind, get. by rewrite Hfile.
  - destruct (_ =? 0); [done|]. unfold bind at 1, get.
    destruct (status_file w _) eqn:Hfile; [|done].
    unfold bind. rewrite ReadSnapshotStatus_run, Hrecord.
    by rewrite bool_decide_true.
Qed.

Lemma MapPartitionWithSnapshot_no_snapshot lock params params' part w :
  fs_mgr.GetPartitionName params = fs_mgr.GetDeviceName params →
  fs_mgr.InitDefaults params w = Some (Some params', w) →
  partition params' = Some part →
  no_live_snapshot w (fs_mgr.GetPartitionName params) part →
  MapPartitionWithSnapshot lock params w =
    if bool_decide (lp_extents part = []) then Some ((true, ""), w)
    else (created <- DeviceMapper.CreateDevice (fs_mgr.GetPartitionName params)
                       (fs_mgr.extents_table (block_device params) 0 (lp_extents part))
                       (timeout_ms params);;
          ret (created.1, "")) w.
Proof.
  intros Hname Hinit Hpart Hnone.
  destruct (InitDefaults_inv _ _ _ _ Hinit) as (_ & Hagain & Hblock & Htime & Hpname & Hdev).
  unfold MapPartitionWithSnapshot. rewrite bool_decide_true by done. cbn [negb].
  rewrite (bind_run _ _ _ _ _ Hinit). rewrite Hpart.
  case_bool_decide as Hextents; [done|].
  rewrite <- Hpname in Hnone.
  rewrite (bind_run _ _ _ _ _ (live_snapshot_none lock _ _ _ Hnone)).
  unfold fs_mgr.CreateLogicalPartition.
  unfold bind. rewrite Hagain, Hpart, Hdev, Hblock, Htime, <- Hname.
  destruct (DeviceMapper.CreateDevice _ _ _ w) as [[[[] path] w']|]; reflexivity.
Qed.

Lemma extents_table_linear super_device sector extents :
  Forall (λ t, target_type (spec t) = "linear")
    (DmTarget_Serialize <$> fs_mgr.extents_table super_device sector extents).
Proof.
  revert sector. induction extents as [|e rest IH]; intros sector; simpl.
  - constructor.
  - constructor; [reflexivity | apply IH].
Qed.
(** ** Switching snapshots to merge targets *)

Lemma switched_to_merge_type d d' :
  switched_to_merge d d' → ∃ t, dev_table d' = [t] ∧ target_type (spec t) = "snapshot-merge".
Proof. intros (t & base & cow & _ & _ & _ & ->). eexists. split; reflexivity. Qed.

Lemma table_step_refl d : table_step d d.
Proof. by left. Qed.

Lemma table_step_trans d1 d2 d3 : table_step d1 d2 → table_step d2 d3 → table_step d1 d3.
Proof.
  intros [H12|H12] [H23|H23].
  - left. congruence.
  - right. destruct H23 as (t & base & cow & Ht & ? & ? & ?).
    exists t, base, cow. rewrite <- H12. done.
  - right. destruct H12 as (t & base & cow & Ht & ? & ? & ?).
    exists t, base, cow. rewrite H23. done.
  - destruct (switched_to_merge_type _ _ H12) as (t' & Ht' & Htype).
    destruct H23 as (t & base & cow & Ht & Hsnap & _). congruence.
Qed.

#[global] Instance merge_step_preorder : PreOrder merge_step.
Proof.
  split.
  - intros w x. destruct (dm_devices w !! x); constructor. apply table_step_refl.
  - intros w1 w2 w3 H12 H23 x. specialize (H12 x). specialize (H23 x).
    destruct H12; inversion H23; simplify_eq; constructor.
    by eapply table_step_trans.
Qed.

Lemma same_devices_merge_step w w' : dm_devices w' = dm_devices w → merge_step w w'.
Proof. intros H x. rewrite H. destruct (dm_devices w !! x); constructor. by left. Qed.

Lemma QuerySnapshotStatus_pure name status : frame eq (QuerySnapshotStatus name status).
Proof.
  unfold QuerySnapshotStatus, IsSnapshotDevice, GetSingleTarget, DeviceMapper.GetState,
    DeviceMapper.DM_DEV_STATUS, DeviceMapper.GetTableStatus, DeviceMapper.GetTable.
  frame_tac.
Qed.

Lemma RewriteSnapshotDeviceTable_inv dm_name w b w' :
  RewriteSnapshotDeviceTable dm_name w = Some (b, w') →
  merge_step w w' ∧ same_files w w' ∧ (b = true → converted w w' dm_name).
Proof.
  unfold RewriteSnapshotDeviceTable, DeviceMapper.GetTableInfo, DeviceMapper.GetTable,
    DeviceMapper.LoadTableAndActivate, DeviceMapper.GetTargetType.
  unfold bind, get, ret, modify.
  destruct (dm_devices w !! dm_name) as [d|] eqn:Hd; [|by intros [= <- <-]].
  destruct (dev_table d) as [|t [|]] eqn:Htable; try by intros [= <- <-].
  case_bool_decide as Htype; cbn [negb]; [|by intros [= <- <-]].
  destruct (DmTargetSnapshotParse.GetDevicesFromParams (data t)) as [[base cow]|] eqn:Hparams;
    [|by intros [= <- <-]].
  rewrite Hd. rewrite bool_decide_false by done.
  intros [= <- <-]. split; [|split].
  - intros x. cbn. destruct (decide (x = dm_name)) as [->|Hne].
    + rewrite lookup_insert_eq, Hd. constructor. right. by exists t, base, cow.
    + rewrite lookup_insert_ne by done. destruct (dm_devices w !! x); constructor. by left.
  - by repeat split.
  - intros _. eexists d, _. split; [done|]. split; [cbn; apply lookup_insert_eq|].
    by exists t, base, cow.
Qed.

Lemma WriteSnapshotStatus_devices lock name status w b w' :
  WriteSnapshotStatus lock name status w = Some (b, w') →
  dm_devices w' = dm_devices w ∧ same_update_state w w'.
Proof.
  unfold WriteSnapshotStatus, CHECK, bind, get, modify, ret, abort.
  case_bool_decide; [|done].
  destruct (snapshots_dir w); intros [= <- <-]; by repeat split.
Qed.

Lemma GetSnapshotDeviceName_cases name status :
  GetSnapshotDeviceName name status = name ∨
  GetSnapshotDeviceName name status = GetSnapshotExtraDeviceName name.
Proof. unfold GetSnapshotDeviceName. destruct (_ =? _); auto. Qed.

Lemma SwitchSnapshotToMerge_inv lock name w b w' :
  SwitchSnapshotToMerge lock name w = Some (b, w') →
  merge_step w w' ∧ same_update_state w w' ∧
  (b = true → converted w w' name ∨ converted w w' (GetSnapshotExtraDeviceName name)).
Proof.
  unfold SwitchSnapshotToMerge. intros H.
  apply bind_Some in H as (status & w1 & Hread & H).
  apply ReadSnapshotStatus_pure in Hread as ->.
  destruct status as [status|]; [|by injection H as <- <-].
  apply bind_Some in H as (rewrote & w1 & Hrewrite & H).
  apply RewriteSnapshotDeviceTable_inv in Hrewrite as (Hstep & Hfiles & Hconv).
  destruct rewrote; cbn [negb] in H.
  2:{ injection H as <- <-. split; [done|]. split; [|done]. apply Hfiles. }
  apply bind_Some in H as (w1' & w2 & [= <- <-] & H).
  apply bind_Some in H as (queried & w2 & Hquery & H).
  apply QuerySnapshotStatus_pure in Hquery as <-.
  apply bind_Some in H as (written & w2 & Hwrite & [= <- <-]).
  apply WriteSnapshotStatus_devices in Hwrite as [Hdm Hstate].
  assert (∀ x, converted w w1 x → converted w w2 x) as Hkeep.
  { intros x (d & d' & ? & ? & ?). exists d, d'. by rewrite Hdm. }
  split; [|split].
  - etransitivity; [exact Hstep|]. by apply same_devices_merge_step.
  - etransitivity; [|exact Hstate]. apply Hfiles.
  - intros _. specialize (Hconv eq_refl).
    destruct (GetSnapshotDeviceName_cases name status) as [Heq|Heq];
      rewrite Heq in Hconv; auto.
Qed.

Lemma converted_before w w1 w' x : merge_step w w1 → converted w1 w' x → converted w w' x.
Proof.
  intros Hstep (d1 & d' & Hd1 & Hd' & Hconv). specialize (Hstep x).
  rewrite Hd1 in Hstep.
  destruct (dm_devices w !! x) as [d|] eqn:Hd; inversion Hstep as [?? Hts|]; subst.
  destruct Hts as [Hsame|Hsw].
  - exists d, d'. split; [done|]. split; [done|].
    destruct Hconv as (t & base & cow & ? & ? & ? & ?). exists t, base, cow.
    by rewrite <- Hsame.
  - destruct (switched_to_merge_type _ _ Hsw) as (t' & Ht' & Htype).
    destruct Hconv as (t & base & cow & Ht & Hsnap & _). congruence.
Qed.

Lemma converted_after w w1 w' x : converted w w1 x → merge_step w1 w' → converted w w' x.
Proof.
  intros (d & d1 & Hd & Hd1 & Hconv) Hstep. specialize (Hstep x).
  rewrite Hd1 in Hstep.
  destruct (dm_devices w' !! x) as [d'|] eqn:Hd'; inversion Hstep as [?? Hts|]; subst.
  destruct Hts as [Hsame|Hsw].
  - exists d, d'. split; [done|]. split; [done|].
    destruct Hconv as (t & base & cow & ? & ? & ? & ?). exists t, base, cow.
    by rewrite Hsame.
  - destruct (switched_to_merge_type _ _ Hconv) as (t' & Ht' & Htype).
    destruct Hsw as (t & base & cow & Ht & Hsnap & _). congruence.
Qed.

Lemma switch_results_inv lock snapshots : ∀ w results w',
  switch_results lock snapshots w = Some (results, w') →
  merge_step w w' ∧ same_update_state w w' ∧
  length results = length snapshots ∧
  ∀ name, (name, true) ∈ zip snapshots results →
          converted w w' name ∨ converted w w' (GetSnapshotExtraDeviceName name).
Proof.
  induction snapshots as [|snapshot rest IH]; intros w results w' H; simpl in H.
  - injection H as <- <-. repeat split; try done. intros name Hin. by apply elem_of_nil in Hin.
  - apply bind_Some in H as (switched & w1 & Hswitch & H).
    apply bind_Some in H as (results' & w2 & Hrest & [= <- <-]).
    apply SwitchSnapshotToMerge_inv in Hswitch as (Hstep1 & Hstate1 & Hconv1).
    apply IH in Hrest as (Hstep2 & Hstate2 & Hlen & Hconv2).
    split; [by etransitivity|]. split; [by etransitivity|]. split; [simpl; by rewrite Hlen|].
    intros name Hin. simpl in Hin. apply elem_of_cons in Hin as [Heq|Hin].
    + injection Heq as -> <-. destruct (Hconv1 eq_refl); [left | right]; by eapply converted_after.
    + destruct (Hconv2 name Hin); [left | right]; by eapply converted_before.
Qed.

Lemma switch_all_results lock snapshots : ∀ rewrote_all w,
  switch_all lock snapshots rewrote_all w =
  (results <- switch_results lock snapshots;; ret (rewrote_all && forallb id results)) w.
Proof.
  induction snapshots as [|snapshot rest IH]; intros rewrote_all w; simpl.
  - unfold bind, ret. by rewrite andb_true_r.
  - unfold bind. destruct (SwitchSnapshotToMerge lock snapshot w) as [[switched w1]|];
      [|done].
    rewrite IH. unfold bind, ret. destruct (switch_results lock rest w1) as [[results w2]|];
      [|done].
    by destruct switched, rewrote_all.
Qed.

Lemma all_mapped_run snapshots w :
  all_mapped snapshots w =
  Some (forallb (λ name, bool_decide (is_Some (dm_devices w !! name))) snapshots, w).
Proof.
  induction snapshots as [|snapshot rest IH]; simpl; [done|].
  unfold bind. rewrite GetState_run.
  destruct (dm_devices w !! snapshot) as [d|].
  - rewrite bool_decide_false; [|by destruct (_ && _)].
    rewrite IH. by rewrite bool_decide_true.
  - rewrite bool_decide_true by done. rewrite bool_decide_false; [done|].
    by intros [??].
Qed.

Lemma total_switch_results snapshots : total (switch_results exclusive snapshots).
Proof.
  induction snapshots as [|snapshot rest IH]; simpl; total_tac.
  apply total_SwitchSnapshotToMerge. reflexivity.
Qed.

Lemma persisted_state_locked w : persisted_state (locked w) = persisted_state w.
Proof.
  unfold persisted_state, ReadUpdateState, bind, get, ret, locked. cbn.
  destruct (state_file w) as [contents|]; cbn; by repeat case_bool_decide.
Qed.

Lemma InitiateMerge_run w :
  InitiateMerge w =
  if negb (bool_decide (persisted_state w = UpdateState.Unverified)) then Some (false, locked w)
  else match boot_indicator w with
       | None => Some (false, locked w)
       | Some old_slot =>
           if bool_decide (slot_suffix w = old_slot) then Some (false, locked w)
           else match snapshots_dir w with
                | None => Some (false, locked w)
                | Some _ =>
                    if negb (forallb (λ name, bool_decide (is_Some (dm_devices w !! name)))
                               (snapshot_names w))
                    then Some (false, locked w)
                    else
                      (WriteUpdateState exclusive UpdateState.Merging;;;
                       results <- switch_results exclusive (snapshot_names w);;
                       (if negb (forallb id results)
                        then WriteUpdateState exclusive UpdateState.MergeFailed;;; ret tt
                        else ret tt);;;
                       ret true) (locked w)
                end
       end.
Proof.
  unfold InitiateMerge, LockExclusive.
  unfold bind at 1 2, modify, ret at 1. fold (locked w). fold exclusive.
  rewrite (bind_run _ _ _ _ _ (ReadUpdateState_run exclusive (locked w))).
  rewrite persisted_state_locked.
  destruct (negb _); [done|].
  unfold bind at 1, get. change (boot_indicator (locked w)) with (boot_indicator w).
  destruct (boot_indicator w) as [old_slot|]; [|done].
  unfold GetSlotSuffix. unfold bind at 1 2, get, ret at 1.
  change (slot_suffix (locked w)) with (slot_suffix w).
  case_bool_decide; [done|].
  unfold ListSnapshots, snapshot_names. unfold bind at 1 2, get, ret at 1.
  change (snapshots_dir (locked w)) with (snapshots_dir w).
  destruct (snapshots_dir w) as [files|]; [|done].
  unfold bind at 1. rewrite all_mapped_run.
  change (dm_devices (locked w)) with (dm_devices w).
  destruct (negb _); [done|].
  pose proof (WriteUpdateState_run exclusive UpdateState.Merging (locked w)) as Hwrite.
  rewrite !bool_decide_false in Hwrite by done.
  rewrite !(bind_run _ _ _ _ _ Hwrite). cbn [negb].
  unfold bind at 1 4. rewrite switch_all_results. unfold bind at 1.
  destruct (switch_results exclusive _ _) as [[results w1]|]; [|done].
  reflexivity.
Qed.
(** ** Polling the snapshots *)

Lemma total_snapshot_reports snapshots : total (snapshot_reports exclusive snapshots).
Proof.
  induction snapshots as [|snapshot rest IH]; simpl; total_tac.
  apply total_CheckTargetMergeState. reflexivity.
Qed.

Lemma poll_snapshots_reports lock snapshots : ∀ fl w,
  poll_snapshots lock snapshots fl w =
  (reports <- snapshot_reports lock snapshots;;
   ret (fold_left note_snapshot_state reports fl)) w.
Proof.
  induction snapshots as [|snapshot rest IH]; intros fl w; simpl; [done|].
  unfold bind. destruct (CheckTargetMergeState lock snapshot w) as [[report w1]|]; [|done].
  rewrite IH. unfold bind, ret.
  by destruct (snapshot_reports lock rest w1) as [[reports w2]|].
Qed.

Lemma CheckTargetMergeState_known lock name :
  yields (λ st, st ∈ [UpdateState.MergeFailed; UpdateState.Merging;
                      UpdateState.MergeNeedsReboot; UpdateState.MergeCompleted;
                      UpdateState.Cancelled])
    (CheckTargetMergeState lock name).
Proof. unfold CheckTargetMergeState. yields_tac; set_solver. Qed.

Lemma snapshot_reports_known lock snapshots :
  yields (Forall (λ st, st ∈ [UpdateState.MergeFailed; UpdateState.Merging;
                               UpdateState.MergeNeedsReboot; UpdateState.MergeCompleted;
                               UpdateState.Cancelled]))
    (snapshot_reports lock snapshots).
Proof.
  induction snapshots as [|snapshot rest IH]; simpl.
  - apply yields_ret. constructor.
  - intros w reports w' (report & w1 & Hreport & H)%bind_Some.
    apply bind_Some in H as (reports' & w2 & Hrest & [= <- <-]).
    constructor; [by eapply CheckTargetMergeState_known | by eapply IH].
Qed.

Lemma fold_note_snapshot_state reports :
  Forall (λ st, st ∈ [UpdateState.MergeFailed; UpdateState.Merging;
                      UpdateState.MergeNeedsReboot; UpdateState.MergeCompleted;
                      UpdateState.Cancelled]) reports →
  ∀ fl,
    (merging (fold_left note_snapshot_state reports fl) = true
       ↔ merging fl = true ∨ UpdateState.Merging ∈ reports) ∧
    (failed (fold_left note_snapshot_state reports fl) = true
       ↔ failed fl = true ∨ UpdateState.MergeFailed ∈ reports) ∧
    (needs_reboot (fold_left note_snapshot_state reports fl) = true
       ↔ needs_reboot fl = true ∨ UpdateState.MergeNeedsReboot ∈ reports) ∧
    (cancelled (fold_left note_snapshot_state reports fl) = true
       ↔ cancelled fl = true ∨ UpdateState.Cancelled ∈ reports).
Proof.
  induction 1 as [|report reports Hreport _ IH]; intros fl; simpl.
  - repeat split; try (by left); by intros [?|?%elem_of_nil].
  - destruct (IH (note_snapshot_state fl report)) as (-> & -> & -> & ->).
    rewrite !elem_of_cons.
    repeat (apply elem_of_cons in Hreport as [->|Hreport]);
      [..|by apply elem_of_nil in Hreport]; simpl; clear IH; intuition discriminate.
Qed.
(** ** Removing the update state *)

Lemma DeleteBackingImage_dir name w b w' :
  ImageManager.DeleteBackingImage name w = Some (b, w') → snapshots_dir w' = snapshots_dir w.
Proof.
  unfold ImageManager.DeleteBackingImage, ImageManager.IsImageMapped. intros H.
  apply bind_Some in H as (mapped & w1 & Hmapped & H).
  apply bind_Some in Hmapped as (st & w2 & Hstate & [= <- <-]).
  rewrite GetState_run in Hstate. injection Hstate as _ <-.
  destruct (negb _); [by injection H as _ <-|].
  unfold bind, get, modify, ret in H.
  destruct (backing_images w !! name); by injection H as _ <-.
Qed.

Lemma DeleteSnapshot_dir lock name w b w' :
  DeleteSnapshot lock name w = Some (b, w') →
  snapshots_dir w' = if b then delete name <$> snapshots_dir w else snapshots_dir w.
Proof.
  unfold DeleteSnapshot. intros H.
  apply bind_Some in H as ([] & w0 & Hcheck & H).
  assert (w0 = w) as ->.
  { unfold CHECK, ret, abort in Hcheck. by destruct (bool_decide _); simplify_eq. }
  apply bind_Some in H as (ok & w1 & Hensure & H).
  apply frame_EnsureImageManager in Hensure as (_ & Hdir1 & _).
  destruct ok; cbn [negb] in H; [|by injection H as <- <-].
  apply bind_Some in H as (ok & w2 & Hunmap & H).
  apply frame_UnmapCowDevices in Hunmap as (_ & Hdir2 & _).
  destruct ok; cbn [negb] in H; [|injection H as <- <-; congruence].
  apply bind_Some in H as (image_exists & w3 & Hexists & H).
  apply frame_BackingImageExists in Hexists as (_ & Hdir3 & _).
  apply bind_Some in H as (deleted & w4 & Hdelete & H).
  assert (snapshots_dir w4 = snapshots_dir w3) as Hdir4.
  { destruct image_exists; [by eapply DeleteBackingImage_dir | by injection Hdelete as _ <-]. }
  destruct deleted; cbn [negb] in H; [|injection H as <- <-; congruence].
  unfold bind, modify, ret in H. injection H as <- <-. cbn. congruence.
Qed.

Lemma RemoveAllSnapshots_loop_dir lock snapshots : ∀ ok w r w',
  RemoveAllSnapshots_loop lock snapshots ok w = Some (r, w') →
  (is_Some (snapshots_dir w) → is_Some (snapshots_dir w')) ∧
  (∀ name, status_file w name = None → status_file w' name = None) ∧
  (r = true → ok = true ∧ ∀ name, name ∈ snapshots → status_file w' name = None).
Proof.
  induction snapshots as [|snapshot rest IH]; intros ok w r w' H; simpl in H.
  - injection H as <- <-. repeat split; try done. by intros name ?%elem_of_nil.
  - apply bind_Some in H as (unmapped & w1 & Hunmap & H).
    apply frame_UnmapPartitionWithSnapshot in Hunmap as (_ & Hdir1 & _).
    apply bind_Some in H as (removed & w2 & Hdelete & H).
    assert (snapshots_dir w2 =
            if removed then delete snapshot <$> snapshots_dir w else snapshots_dir w)
      as Hdir2.
    { destruct unmapped.
      - apply DeleteSnapshot_dir in Hdelete. by rewrite Hdelete, Hdir1.
      - injection Hdelete as <- <-. done. }
    apply IH in H as (Hsome & Hnone & Htrue).
    assert (∀ name, status_file w name = None → status_file w2 name = None) as Hstep.
    { intros name. unfold status_file. rewrite Hdir2.
      destruct removed; [|done]. destruct (snapshots_dir w) as [files|]; [|done]. simpl.
      intros Hname. destruct (decide (name = snapshot)) as [->|Hne].
      - apply lookup_delete_eq.
      - by rewrite lookup_delete_ne. }
    split; [|split].
    + intros [files Hfiles]. apply Hsome. rewrite Hdir2, Hfiles. by destruct removed.
    + intros name Hname. by apply Hnone, Hstep.
    + intros ->. destruct (Htrue eq_refl) as [Hok Hrest].
      apply andb_true_iff in Hok as [-> ->]. split; [done|].
      intros name [->|Hin]%elem_of_cons; [|by apply Hrest].
      apply Hnone. unfold status_file. rewrite Hdir2.
      destruct (snapshots_dir w) as [files|]; [|done]. simpl. apply lookup_delete_eq.
Qed.

Lemma RemoveAllSnapshots_empties lock w w' :
  RemoveAllSnapshots lock w = Some (true, w') → snapshots_dir w' = Some ∅.
Proof.
  unfold RemoveAllSnapshots, ListSnapshots. unfold bind at 1 2, get, ret at 1.
  destruct (snapshots_dir w) as [files|] eqn:Hdir; [|done]. intros H.
  apply RemoveAllSnapshots_loop_dir in H as (Hsome & Hnone & Htrue).
  destruct Hsome as [files' Hfiles']; [by rewrite Hdir|].
  rewrite Hfiles'. f_equal. apply map_empty. intros name.
  destruct (Htrue eq_refl) as [_ Hgone].
  destruct (files !! name) as [contents|] eqn:Hname.
  - specialize (Hgone name). unfold status_file in Hgone. rewrite Hfiles' in Hgone.
    apply Hgone. apply list_elem_of_fmap. exists (name, contents). split; [done|].
    by apply elem_of_map_to_list.
  - specialize (Hnone name). unfold status_file in Hnone.
    rewrite Hdir, Hfiles' in Hnone. by apply Hnone.
Qed.

Lemma RemoveAllUpdateState_inv w r w' :
  RemoveAllUpdateState exclusive w = Some (r, w') →
  if r then snapshots_dir w' = Some ∅ ∧ boot_indicator w' = None ∧
            state_file w' = Some "none"
  else state_file w' = state_file w ∧ boot_indicator w' = boot_indicator w.
Proof.
  unfold RemoveAllUpdateState, RemoveSnapshotBootIndicator. intros H.
  apply bind_Some in H as (removed & w1 & Hremove & H).
  destruct removed; cbn [negb] in H.
  - apply RemoveAllSnapshots_empties in Hremove.
    apply bind_Some in H as ([] & w2 & [= <-] & H).
    rewrite WriteUpdateState_run in H. rewrite !bool_decide_false in H by done.
    injection H as <- <-. by repeat split.
  - injection H as <- <-. apply frame_RemoveAllSnapshots in Hremove as (_ & ? & ?). done.
Qed.

Lemma RemoveAllUpdateState_again w :
  snapshots_dir w = Some ∅ → ∃ w', RemoveAllUpdateState exclusive w = Some (true, w').
Proof.
  intros Hdir.
  unfold RemoveAllUpdateState, RemoveAllSnapshots, ListSnapshots, RemoveSnapshotBootIndicator.
  unfold bind, get, ret, modify. rewrite Hdir, map_to_list_empty. simpl.
  rewrite WriteUpdateState_run. rewrite !bool_decide_false by done. by eexists.
Qed.

Lemma CheckMergeState_unverified w :
  persisted_state w = UpdateState.Unverified →
  locked w = w ∧
  CheckMergeState w =
  match boot_indicator w with
  | None => Some (UpdateState.Unverified, w)
  | Some old_slot =>
      if negb (bool_decide (slot_suffix w = old_slot)) then Some (UpdateState.Unverified, w)
      else (RemoveAllUpdateState exclusive;;; RemoveAllUpdateState exclusive;;;
            ret UpdateState.Cancelled) w
  end.
Proof.
  intros Hstate.
  assert (locked w = w) as Hlocked.
  { pose proof (ReadUpdateState_run exclusive w) as Hread. rewrite Hstate in Hread.
    apply ReadUpdateState_state_file in Hread; [|done].
    unfold locked. rewrite Hread. by apply set_state_file_same. }
  split; [done|].
  unfold CheckMergeState, LockExclusive. unfold bind at 1 2, modify, ret at 1.
  fold (locked w). fold exclusive. rewrite Hlocked.
  unfold CheckMergeState_locked.
  unfold bind at 1 2. rewrite ReadUpdateState_run, Hstate.
  unfold HandleCancelledUpdate, GetSlotSuffix. unfold bind at 1 2 3, get.
  destruct (boot_indicator w) as [old_slot|]; [|done].
  unfold bind at 1 2, get, ret at 1.
  destruct (negb _); [done|].
  unfold AcknowledgeMergeSuccess, bind, ret.
  destruct (RemoveAllUpdateState exclusive w) as [[r1 w1]|]; [|done]. simpl.
  by destruct (RemoveAllUpdateState exclusive w1) as [[r2 w2]|].
Qed.
(** ** Initiating a merge *)

(** C1, as amended.  [InitiateMerge] always returns.  Unless the state file
    holds [unverified], the boot indicator names another slot than the live
    one, the snapshots can be listed and the kernel has a device of the name
    of every snapshot (in whatever state: active or suspended), it returns
    failure, and the world is the one that taking the lock leaves, with the
    persisted state as before.  Otherwise it returns success after writing
    [merging] and then switching the snapshots in turn: the state file ends
    as [merging] when every switch succeeded and as [merge-failed] when one
    failed; no device came or went, a table changed only from its single
    snapshot target to the merge target over the same devices, and every
    snapshot whose switch succeeded had its snapshot device changed so. *)
Theorem InitiateMerge_switches w :
  ∃ b w',
    InitiateMerge w = Some (b, w') ∧
    (¬ merge_allowed w →
     b = false ∧ w' = locked w ∧ persisted_state w' = persisted_state w) ∧
    (merge_allowed w →
     b = true ∧
     ∃ w0 results w1,
       WriteUpdateState exclusive UpdateState.Merging (locked w) = Some (true, w0) ∧
       state_file w0 = Some "merging" ∧
       switch_results exclusive (snapshot_names w) w0 = Some (results, w1) ∧
       state_file w' = Some (if forallb id results then "merging" else "merge-failed") ∧
       persisted_state w' = (if forallb id results then UpdateState.Merging
                             else UpdateState.MergeFailed) ∧
       merge_step w w' ∧
       ∀ name, (name, true) ∈ zip (snapshot_names w) results →
               converted w w' name ∨ converted w w' (GetSnapshotExtraDeviceName name)).
Proof.
  rewrite InitiateMerge_run.
  case_bool_decide as Hstate; cbn [negb].
  2:{ exists false, (locked w). split; [done|]. rewrite persisted_state_locked.
      split; [done|]. intros [? _]. congruence. }
  destruct (boot_indicator w) as [old_slot|] eqn:Hindicator.
  2:{ exists false, (locked w). split; [done|]. rewrite persisted_state_locked.
      split; [done|]. intros (_ & (? & ? & _) & _). congruence. }
  case_bool_decide as Hslot.
  { exists false, (locked w). split; [done|]. rewrite persisted_state_locked.
    split; [done|]. intros (_ & (? & ? & ?) & _). congruence. }
  destruct (snapshots_dir w) as [files|] eqn:Hdir.
  2:{ exists false, (locked w). split; [done|]. rewrite persisted_state_locked.
      split; [done|]. intros (_ & _ & [? ?] & _). congruence. }
  destruct (forallb _ _) eqn:Hmapped; cbn [negb].
  2:{ exists false, (locked w). split; [done|]. rewrite persisted_state_locked.
      split; [done|]. intros (_ & _ & _ & Hall).
      apply not_true_iff_false in Hmapped. destruct Hmapped.
      apply forallb_forall. intros name Hin. apply bool_decide_eq_true.
      apply Hall. by apply list_elem_of_In. }
  assert (merge_allowed w) as Hallowed.
  { split; [done|]. split; [by exists old_slot|]. split; [by rewrite Hdir|].
    intros name Hin. rewrite forallb_forall in Hmapped.
    apply list_elem_of_In, Hmapped in Hin. by apply bool_decide_eq_true in Hin. }
  pose proof (WriteUpdateState_run exclusive UpdateState.Merging (locked w)) as Hwrite.
  rewrite !bool_decide_false in Hwrite by done.
  rewrite (bind_run _ _ _ _ _ Hwrite).
  set (w0 := set_state_file _ (set_state_file _ (locked w))) in *.
  destruct (total_switch_results (snapshot_names w) w0) as [[results w1] Hswitch].
  rewrite (bind_run _ _ _ _ _ Hswitch).
  destruct (switch_results_inv _ _ _ _ _ Hswitch) as (Hstep & Hsame & _ & Hconv).
  assert (merge_step w w0) as Hstep0 by (by apply same_devices_merge_step).
  assert (state_file w1 = Some "merging") as Hfile1 by (by destruct Hsame as (_ & -> & _)).
  destruct (forallb id results) eqn:Hall; cbn [negb].
  - exists true, w1. split; [done|]. split; [done|]. intros _. split; [done|].
    exists w0, results, w1. rewrite Hall.
    split; [done|]. split; [done|]. split; [done|]. split; [done|].
    split; [by apply (persisted_state_written w1 UpdateState.Merging)|].
    split; [by etransitivity|].
    intros name Hin. destruct (Hconv name Hin); [left|right];
      (eapply converted_before; [exact Hstep0 | done]).
  - pose proof (WriteUpdateState_run exclusive UpdateState.MergeFailed w1) as Hfailed.
    rewrite !bool_decide_false in Hfailed by done.
    rewrite (bind_run _ _ _ _ _ (bind_run _ _ _ _ _ Hfailed)).
    set (w2 := set_state_file _ (set_state_file _ w1)) in *.
    assert (merge_step w1 w2) as Hstep2 by (by apply same_devices_merge_step).
    exists true, w2. split; [done|]. split; [done|]. intros _. split; [done|].
    exists w0, results, w1. rewrite Hall.
    split; [done|]. split; [done|]. split; [done|]. split; [done|].
    split; [by apply (persisted_state_written w2 UpdateState.MergeFailed)|].
    split; [by repeat (etransitivity; [eassumption|])|].
    intros name Hin. destruct (Hconv name Hin); [left|right];
      (eapply converted_before; [exact Hstep0|]; eapply converted_after; [done | exact Hstep2]).
Qed.

(** C1, at a sample world: with the stack of [system_b] mapped the merge
    begins, and the inner device of [system_b] becomes a merge target. *)
Lemma InitiateMerge_sample :
  merge_allowed unverified_mapped ∧
  ∃ w', InitiateMerge unverified_mapped = Some (true, w') ∧
        state_file w' = Some "merging" ∧
        converted unverified_mapped w' "system_b-inner".
Proof.
  assert (merge_allowed unverified_mapped) as Hallowed.
  { split; [vm_compute; reflexivity|]. split.
    { exists "_a". split; [vm_compute; reflexivity|]. intros Heq. vm_compute in Heq.
      discriminate Heq. }
    split; [vm_compute; by eexists|]. intros name Hin. vm_compute in Hin.
    apply list_elem_of_In in Hin as [<-|[]]. vm_compute. by eexists. }
  split; [exact Hallowed|].
  eexists. split; [vm_compute; reflexivity|]. split; [reflexivity|].
  eexists _, _. split; [vm_compute; reflexivity|]. split; [vm_compute; reflexivity|].
  eexists _, _, _. repeat split; vm_compute; reflexivity.
Qed.

(** C1 as stated fails for a snapshot whose device is mapped but not
    active: [system_b] is suspended, and the merge begins all the same. *)
Lemma InitiateMerge_accepts_suspended :
  DeviceMapper.GetState "system_b" (with_device "system_b" suspend unverified_mapped)
  = Some (DmDeviceState.SUSPENDED, with_device "system_b" suspend unverified_mapped) ∧
  ∃ w', InitiateMerge (with_device "system_b" suspend unverified_mapped) = Some (true, w') ∧
        state_file w' = Some "merging".
Proof.
  split; [vm_compute; reflexivity|].
  eexists. split; [vm_compute; reflexivity | reflexivity].
Qed.
(** ** Partitions without a live snapshot *)

(** C10, as amended.  Let the parameters name the device after the
    partition and let their defaults resolve to the partition [part].  When
    [part] lacks the UPDATED attribute, or has no record file, or has a
    record in state [merge-completed], [MapPartitionWithSnapshot] returns
    with an empty path, and:
    - a partition without extents is skipped: the call succeeds and maps
      nothing at all;
    - otherwise a success means that exactly one device was added, under
      the partition's own name, whose table is made of the linear targets
      of the partition's extents (so no base, cow or snapshot device);
    - a failure leaves the set of devices as it was;
    - the call does succeed when the kernel accepts the new device. *)
Theorem MapPartitionWithSnapshot_plain lock params params' part w :
  fs_mgr.GetPartitionName params = fs_mgr.GetDeviceName params →
  fs_mgr.InitDefaults params w = Some (Some params', w) →
  partition params' = Some part →
  no_live_snapshot w (fs_mgr.GetPartitionName params) part →
  ∃ b w',
    MapPartitionWithSnapshot lock params w = Some ((b, ""), w') ∧
    (lp_extents part = [] → b = true ∧ w' = w) ∧
    (lp_extents part ≠ [] → b = true →
     dm_devices w !! fs_mgr.GetPartitionName params = None ∧
     ∃ d, dm_devices w' = <[fs_mgr.GetPartitionName params := d]> (dm_devices w) ∧
          dev_table d = DmTarget_Serialize <$>
                          fs_mgr.extents_table (block_device params) 0 (lp_extents part) ∧
          Forall (λ t, target_type (spec t) = "linear") (dev_table d)) ∧
    (b = false → dm_devices w' = dm_devices w) ∧
    (lp_extents part ≠ [] →
     creatable w (fs_mgr.GetPartitionName params) (timeout_ms params) → b = true).
Proof.
  intros Hname Hinit Hpart Hnone.
  rewrite (MapPartitionWithSnapshot_no_snapshot lock _ _ _ _ Hname Hinit Hpart Hnone).
  case_bool_decide as Hextents.
  { exists true, w. by repeat split. }
  destruct (total_CreateDevice (fs_mgr.GetPartitionName params)
              (fs_mgr.extents_table (block_device params) 0 (lp_extents part))
              (timeout_ms params) w) as [[[b path] w'] Hcreate].
  exists b, w'. rewrite (bind_run _ _ _ _ _ Hcreate). split; [reflexivity|].
  split; [done|]. split; [|split].
  - intros _ ->. apply CreateDevice_true in Hcreate as (Hfree & d & Hd & Htable & _).
    split; [done|]. exists d. split; [done|]. split; [done|].
    rewrite Htable. apply extents_table_linear.
  - intros ->. by apply CreateDevice_false in Hcreate as [? _].
  - intros _ (Hne & Hlen & Hfree & Hwait).
    rewrite CreateDevice_run in Hcreate. cbv zeta in Hcreate.
    rewrite bool_decide_false in Hcreate by done.
    destruct (_ <=? Z.of_nat _) eqn:Hlong in Hcreate; [apply Z.leb_le in Hlong; lia|].
    rewrite Hfree in Hcreate.
    rewrite bool_decide_false in Hcreate.
    2:{ destruct (lp_extents part); [done|]. simpl. discriminate. }
    destruct Hwait as [Hwait|Hwait].
    + apply Z.leb_le in Hwait. rewrite Hwait in Hcreate. simpl in Hcreate. congruence.
    + rewrite Hwait, orb_true_r in Hcreate. congruence.
Qed.

(** C10, at a sample world: after its merge was completed, [system_b] is
    mapped as the one linear device over its extent of the superpartition. *)
Lemma MapPartitionWithSnapshot_after_merge :
  no_live_snapshot merged "system_b" system_b ∧
  ∃ w' d,
    MapPartitionWithSnapshot exclusive system_b_params merged = Some ((true, ""), w') ∧
    dm_devices w' = {[ "system_b" := d ]} ∧
    dev_table d = [DmTarget_Serialize (DmTargetLinear 0 16 "super" 2048)].
Proof.
  assert (no_live_snapshot merged "system_b" system_b) as Hnone.
  { right; right. eexists. split; [vm_compute; reflexivity | reflexivity]. }
  split; [exact Hnone|].
  destruct (MapPartitionWithSnapshot_plain exclusive system_b_params system_b_defaults
              system_b merged eq_refl eq_refl eq_refl Hnone)
    as (b & w' & Hrun & _ & Hmap & _ & Hok).
  assert (b = true) as ->.
  { apply Hok; [done|]. split; [done|]. split; [vm_compute; reflexivity|].
    split; [done|]. left. simpl. lia. }
  destruct Hmap as (_ & d & Hd & Htable & _); [done..|].
  exists w', d. split; [exact Hrun|]. split; [exact Hd | exact Htable].
Defined.

(** C10 as stated fails for a partition without extents: the call succeeds
    although no device was created under the partition's name. *)
Lemma MapPartitionWithSnapshot_skips_empty_partition :
  Z.land (lp_attributes product_b) LP_PARTITION_ATTR_UPDATED = 0 ∧
  MapPartitionWithSnapshot exclusive product_b_params merged = Some ((true, ""), merged) ∧
  dm_devices merged !! "product_b" = None.
Proof. split; [reflexivity|]. split; [vm_compute; reflexivity | reflexivity]. Qed.
(** ** The result of a poll *)

(** C2.  Let the state file hold [merging], [merge-needs-reboot] or
    [merge-failed] and let the snapshots be listable.  Then
    [CheckMergeState(LockedFile* )] returns, and with [reports] the states
    that the snapshots report in turn: the result is [merging] if a snapshot
    reports [merging]; else [merge-failed] if one reports [merge-failed];
    else [merge-needs-reboot] if one reports [merge-needs-reboot], and then
    that state is written to the state file; else [cancelled] if one reports
    [cancelled]; else [merge-completed]. *)
Theorem CheckMergeState_priority w :
  persisted_state w ∈ [UpdateState.Merging; UpdateState.MergeNeedsReboot;
                       UpdateState.MergeFailed] →
  is_Some (snapshots_dir w) →
  ∃ reports w1 st w',
    snapshot_reports exclusive (snapshot_names w) w = Some (reports, w1) ∧
    CheckMergeState_locked exclusive w = Some (st, w') ∧
    (UpdateState.Merging ∈ reports → st = UpdateState.Merging ∧ w' = w1) ∧
    (UpdateState.Merging ∉ reports → UpdateState.MergeFailed ∈ reports →
     st = UpdateState.MergeFailed ∧ w' = w1) ∧
    (UpdateState.Merging ∉ reports → UpdateState.MergeFailed ∉ reports →
     UpdateState.MergeNeedsReboot ∈ reports →
     st = UpdateState.MergeNeedsReboot ∧
     WriteUpdateState exclusive UpdateState.MergeNeedsReboot w1 = Some (true, w') ∧
     state_file w' = Some "merge-needs-reboot") ∧
    (UpdateState.Merging ∉ reports → UpdateState.MergeFailed ∉ reports →
     UpdateState.MergeNeedsReboot ∉ reports → UpdateState.Cancelled ∈ reports →
     st = UpdateState.Cancelled ∧ w' = w1) ∧
    (UpdateState.Merging ∉ reports → UpdateState.MergeFailed ∉ reports →
     UpdateState.MergeNeedsReboot ∉ reports → UpdateState.Cancelled ∉ reports →
     st = UpdateState.MergeCompleted ∧ w' = w1 ∧
     Forall (eq UpdateState.MergeCompleted) reports).
Proof.
  intros Hstate [files Hdir].
  destruct (total_snapshot_reports (snapshot_names w) w) as [[reports w1] Hreports].
  pose proof (snapshot_reports_known _ _ _ _ _ Hreports) as Hknown.
  destruct (fold_note_snapshot_state reports Hknown no_flags)
    as (Hmerging & Hfailed & Hreboot & Hcancelled).
  assert (CheckMergeState_locked exclusive w =
          (fl <- poll_snapshots exclusive (snapshot_names w) no_flags;;
           if merging fl then ret UpdateState.Merging else
           if failed fl then ret UpdateState.MergeFailed else
           if needs_reboot fl then
             WriteUpdateState exclusive UpdateState.MergeNeedsReboot;;;
             ret UpdateState.MergeNeedsReboot
           else
           if cancelled fl then ret UpdateState.Cancelled else
           ret UpdateState.MergeCompleted) w) as ->.
  { unfold CheckMergeState_locked.
    rewrite (bind_run _ _ _ _ _ (ReadUpdateState_run exclusive w)).
    assert (ListSnapshots exclusive w = Some (Some (snapshot_names w), w)) as Hlist.
    { unfold ListSnapshots, snapshot_names, bind, get, ret. by rewrite Hdir. }
    destruct (persisted_state w); try (by rewrite (bind_run _ _ _ _ _ Hlist));
      exfalso;
      repeat (apply elem_of_cons in Hstate as [Hstate|Hstate]; [discriminate Hstate|]);
      by apply elem_of_nil in Hstate. }
  unfold bind at 1. rewrite poll_snapshots_reports. unfold bind at 1. rewrite Hreports.
  unfold ret at 1.
  set (fl := fold_left note_snapshot_state reports no_flags) in *.
  simpl in Hmerging, Hfailed, Hreboot, Hcancelled.
  exists reports, w1.
  destruct (merging fl).
  { exists UpdateState.Merging, w1. split; [done|]. split; [done|].
    assert (UpdateState.Merging ∈ reports) by (by destruct Hmerging as [[?|?] _]).
    by repeat split. }
  assert (UpdateState.Merging ∉ reports) as Hno_merging.
  { intros Hin. destruct Hmerging as [_ Hm]. by specialize (Hm (or_intror Hin)). }
  destruct (failed fl).
  { exists UpdateState.MergeFailed, w1. split; [done|]. split; [done|].
    assert (UpdateState.MergeFailed ∈ reports) by (by destruct Hfailed as [[?|?] _]).
    by repeat split. }
  assert (UpdateState.MergeFailed ∉ reports) as Hno_failed.
  { intros Hin. destruct Hfailed as [_ Hm]. by specialize (Hm (or_intror Hin)). }
  destruct (needs_reboot fl).
  { pose proof (WriteUpdateState_run exclusive UpdateState.MergeNeedsReboot w1) as Hwrite.
    rewrite !bool_decide_false in Hwrite by done.
    rewrite (bind_run _ _ _ _ _ Hwrite).
    eexists UpdateState.MergeNeedsReboot, _. split; [done|]. split; [reflexivity|].
    assert (UpdateState.MergeNeedsReboot ∈ reports) by (by destruct Hreboot as [[?|?] _]).
    by repeat split. }
  assert (UpdateState.MergeNeedsReboot ∉ reports) as Hno_reboot.
  { intros Hin. destruct Hreboot as [_ Hm]. by specialize (Hm (or_intror Hin)). }
  destruct (cancelled fl).
  { exists UpdateState.Cancelled, w1. split; [done|]. split; [done|].
    assert (UpdateState.Cancelled ∈ reports) by (by destruct Hcancelled as [[?|?] _]).
    by repeat split. }
  assert (UpdateState.Cancelled ∉ reports) as Hno_cancelled.
  { intros Hin. destruct Hcancelled as [_ Hm]. by specialize (Hm (or_intror Hin)). }
  exists UpdateState.MergeCompleted, w1. split; [done|]. split; [done|].
  repeat split; try done.
  apply Forall_forall. intros report Hin.
  pose proof (proj1 (Forall_forall _ _) Hknown report Hin) as Hreport.
  repeat (apply elem_of_cons in Hreport as [->|Hreport]); try done.
  by apply elem_of_nil in Hreport.
Qed.

(** C2, at a sample world: while the one snapshot is still merging, the
    poll returns [merging]. *)
Lemma CheckMergeState_while_merging :
  persisted_state merge_under_way ∈ [UpdateState.Merging; UpdateState.MergeNeedsReboot;
                                     UpdateState.MergeFailed] ∧
  is_Some (snapshots_dir merge_under_way) ∧
  ∃ w', CheckMergeState_locked exclusive merge_under_way = Some (UpdateState.Merging, w').
Proof.
  assert (persisted_state merge_under_way ∈
            [UpdateState.Merging; UpdateState.MergeNeedsReboot; UpdateState.MergeFailed])
    as Hstate.
  { vm_compute persisted_state. apply elem_of_cons; by left. }
  assert (is_Some (snapshots_dir merge_under_way)) as Hdir.
  { vm_compute. by eexists. }
  split; [exact Hstate|]. split; [exact Hdir|].
  destruct (CheckMergeState_priority merge_under_way Hstate Hdir)
    as (reports & w1 & st & w' & Hreports & Hrun & Hmerging & _).
  vm_compute in Hreports. injection Hreports as <- _.
  destruct Hmerging as [-> _]; [apply elem_of_cons; by left|].
  exists w'. exact Hrun.
Defined.
(** ** Rollback *)

(** C3, as amended.  Let the state file hold [unverified].  [CheckMergeState]
    returns.  When the boot indicator names the live slot, the result is
    [cancelled] and the final world is the one that two runs of
    [RemoveAllUpdateState] in a row leave; if the first run succeeds so does
    the second; if the second succeeds no snapshot record is left, the boot
    indicator is gone and the state file holds [none]; if it fails, which
    is when a snapshot cannot be removed, the state file and the boot
    indicator are as before.  When the boot indicator is missing or names
    another slot, the result is [unverified] and the world is unchanged. *)
Theorem CheckMergeState_rollback w :
  persisted_state w = UpdateState.Unverified →
  ∃ st w',
    CheckMergeState w = Some (st, w') ∧
    (boot_indicator w = Some (slot_suffix w) →
     st = UpdateState.Cancelled ∧
     ∃ r1 w1 r2,
       RemoveAllUpdateState exclusive w = Some (r1, w1) ∧
       RemoveAllUpdateState exclusive w1 = Some (r2, w') ∧
       (r1 = true → r2 = true) ∧
       (r2 = true →
        snapshots_dir w' = Some ∅ ∧ boot_indicator w' = None ∧
        state_file w' = Some "none" ∧ persisted_state w' = UpdateState.None) ∧
       (r2 = false →
        state_file w' = state_file w ∧ boot_indicator w' = boot_indicator w ∧
        persisted_state w' = UpdateState.Unverified)) ∧
    (boot_indicator w ≠ Some (slot_suffix w) → st = UpdateState.Unverified ∧ w' = w).
Proof.
  intros Hstate. destruct (CheckMergeState_unverified w Hstate) as [_ ->].
  destruct (boot_indicator w) as [old_slot|] eqn:Hindicator.
  2:{ exists UpdateState.Unverified, w. split; [done|]. by split. }
  case_bool_decide as Hslot; cbn [negb].
  2:{ exists UpdateState.Unverified, w. split; [done|]. split; [|done].
      intros [= ->]. done. }
  destruct (total_RemoveAllUpdateState exclusive eq_refl w) as [[r1 w1] Hfirst].
  destruct (total_RemoveAllUpdateState exclusive eq_refl w1) as [[r2 w'] Hsecond].
  rewrite (bind_run _ _ _ _ _ Hfirst), (bind_run _ _ _ _ _ Hsecond).
  exists UpdateState.Cancelled, w'. split; [done|]. split; [|by intros []; subst].
  intros _. split; [done|]. exists r1, w1, r2. split; [done|]. split; [done|].
  pose proof (RemoveAllUpdateState_inv _ _ _ Hfirst) as H1.
  pose proof (RemoveAllUpdateState_inv _ _ _ Hsecond) as H2.
  split; [|split].
  - intros ->. destruct H1 as (Hdir & _).
    destruct (RemoveAllUpdateState_again w1 Hdir) as [w2 Hagain]. congruence.
  - intros ->. destruct H2 as (? & ? & Hfile). repeat split; try done.
    by apply (persisted_state_written w' UpdateState.None).
  - intros ->. destruct r1.
    + destruct H1 as (Hdir & _).
      destruct (RemoveAllUpdateState_again w1 Hdir) as [w2 Hagain]. congruence.
    + destruct H1 as [Hfile1 Hind1], H2 as [Hfile2 Hind2].
      split; [congruence|]. split; [congruence|].
      rewrite <- Hstate. apply persisted_state_same. congruence.
Qed.

(** C3, at a sample world: after a rollback with nothing mapped, the poll
    returns [cancelled] and leaves no record, no indicator and the state
    [none]. *)
Lemma CheckMergeState_after_rollback :
  persisted_state rolled_back = UpdateState.Unverified ∧
  boot_indicator rolled_back = Some (slot_suffix rolled_back) ∧
  ∃ w', CheckMergeState rolled_back = Some (UpdateState.Cancelled, w') ∧
        snapshots_dir w' = Some ∅ ∧ boot_indicator w' = None ∧
        state_file w' = Some "none".
Proof.
  assert (persisted_state rolled_back = UpdateState.Unverified) as Hstate
    by (vm_compute; reflexivity).
  split; [exact Hstate|]. split; [reflexivity|].
  destruct (CheckMergeState_rollback rolled_back Hstate)
    as (st & w' & Hrun & Hrollback & _).
  destruct (Hrollback eq_refl) as (-> & r1 & w1 & r2 & Hfirst & Hsecond & Hboth & Hclean & _).
  assert (r1 = true) as ->.
  { vm_compute in Hfirst. by injection Hfirst as <- _. }
  destruct (Hclean (Hboth eq_refl)) as (Hdir & Hindicator & Hfile & _).
  exists w'. split; [exact Hrun|]. split; [exact Hdir|]. split; [exact Hindicator|].
  exact Hfile.
Defined.

(** C3 as stated fails when a snapshot cannot be removed: with the top
    device of [system_b] held open, the poll returns [cancelled] as well,
    but the record, the boot indicator and the state [unverified] remain. *)
Lemma CheckMergeState_rollback_busy :
  persisted_state rolled_back_busy = UpdateState.Unverified ∧
  boot_indicator rolled_back_busy = Some (slot_suffix rolled_back_busy) ∧
  ∃ w', CheckMergeState rolled_back_busy = Some (UpdateState.Cancelled, w') ∧
        is_Some (status_file w' "system_b") ∧ boot_indicator w' = Some "_b" ∧
        state_file w' = Some "unverified".
Proof.
  split; [vm_compute; reflexivity|]. split; [vm_compute; reflexivity|].
  eexists. split; [vm_compute; reflexivity|].
  split; [vm_compute; by eexists|]. split; reflexivity.
Qed.

(** ** Finishing the snapshot writes (C4) *)

(** C4.  Called in state [initiated], [FinishedSnapshotWrites] stores the
    current slot suffix in the boot indicator, makes the state file read
    [unverified], changes nothing else and returns [true]; called in state
    [unverified] it returns [true] and changes nothing; called in any other
    state it returns [false], and the persisted state, the boot indicator
    and everything else stay as they are (the lock creates the state file,
    empty, if it did not exist). *)
Theorem FinishedSnapshotWrites_transitions (file : LockedFile) (w : World) (st : UpdateState.t) :
  ReadUpdateState file w = Some (st, w) →
  match st with
  | UpdateState.Initiated =>
      FinishedSnapshotWrites w
      = Some (true, set_state_file (Some "unverified")
                      (set_boot_indicator (Some (slot_suffix w)) w))
  | UpdateState.Unverified => FinishedSnapshotWrites w = Some (true, w)
  | _ =>
      ∃ w', FinishedSnapshotWrites w = Some (false, w') ∧
            w' = set_state_file (Some (default "" (state_file w))) w ∧
            ReadUpdateState file w' = Some (st, w') ∧
            (is_Some (state_file w) → w' = w)
  end.
Proof.
  intros Hread.
  assert (FinishedSnapshotWrites w
          = (update_state <- ReadUpdateState exclusive;;
             if bool_decide (update_state = UpdateState.Unverified) then ret true else
             if negb (bool_decide (update_state = UpdateState.Initiated)) then ret false else
             contents <- GetSlotSuffix;;
             modify (set_boot_indicator (Some contents));;;
             WriteUpdateState exclusive UpdateState.Unverified)
            (set_state_file (Some (default "" (state_file w))) w)) as ->
    by reflexivity.
  assert (ReadUpdateState exclusive w = Some (st, w)) as Hread' by exact Hread.
  assert (st ≠ UpdateState.None → set_state_file (Some (default "" (state_file w))) w = w)
    as Hsame.
  { intros Hst. rewrite (ReadUpdateState_state_file _ _ _ _ Hread Hst). simpl.
    apply set_state_file_same. by eapply ReadUpdateState_state_file. }
  assert (ReadUpdateState exclusive (set_state_file (Some (default "" (state_file w))) w)
          = Some (st, set_state_file (Some (default "" (state_file w))) w)) as Hread_locked.
  { rewrite ReadUpdateState_locked. by rewrite Hread'. }
  assert (is_Some (state_file w) → set_state_file (Some (default "" (state_file w))) w = w)
    as Hexists.
  { intros [c Hc]. rewrite Hc. simpl. by apply set_state_file_same. }
  rewrite (bind_run _ _ _ _ _ Hread_locked).
  destruct st; simpl; try (eexists; split; [reflexivity|]; by repeat split).
  - rewrite Hsame by done.
    unfold bind, GetSlotSuffix, modify, get, ret, WriteUpdateState, Truncate. simpl.
    destruct w; reflexivity.
  - by rewrite Hsame.
Qed.

(** C4 at sample worlds: from [initiated], and from [merging]. *)
Lemma FinishedSnapshotWrites_from_initiated :
  ReadUpdateState exclusive (booted "initiated" None ∅)
  = Some (UpdateState.Initiated, booted "initiated" None ∅) ∧
  FinishedSnapshotWrites (booted "initiated" None ∅)
  = Some (true, booted "unverified" (Some "_b") ∅).
Proof.
  split; [reflexivity|].
  exact (FinishedSnapshotWrites_transitions exclusive (booted "initiated" None ∅)
           UpdateState.Initiated eq_refl).
Defined.
(** ** The mode of a mapped snapshot *)


(** ** The transient state is never persisted (C6) *)

#[global] Instance cancelled_not_written_preorder : PreOrder cancelled_not_written.
Proof.
  split.
  - intros w. by right.
  - intros w1 w2 w3 H12 H23. unfold cancelled_not_written in *.
    destruct H23 as [? | ->]; [by left | done].
Qed.

Lemma frame_cancelled_not_written {A} (m : M A) :
  frame same_update_state m → frame cancelled_not_written m.
Proof. apply frame_weaken. intros w w' (_ & ? & _). by right. Qed.
#[export] Hint Resolve frame_cancelled_not_written : frame.

Lemma frame_WriteUpdateState file st :
  frame cancelled_not_written (WriteUpdateState file st).
Proof.
  intros w b w'. rewrite WriteUpdateState_run.
  repeat case_bool_decide; intros [= _ <-]; [by right | by right |].
  left. simpl. by destruct st.
Qed.
#[export] Hint Resolve frame_WriteUpdateState : frame.

Lemma frame_LockExclusive : frame cancelled_not_written LockExclusive.
Proof.
  intros w lock w' [= _ <-]. unfold cancelled_not_written. simpl.
  destruct (state_file w); [by right | by left].
Qed.
#[export] Hint Resolve frame_LockExclusive : frame.

Lemma frame_RemoveAllUpdateState lock :
  frame cancelled_not_written (RemoveAllUpdateState lock).
Proof. unfold RemoveAllUpdateState, RemoveSnapshotBootIndicator. frame_tac. Qed.
#[export] Hint Resolve frame_RemoveAllUpdateState : frame.

Lemma frame_HandleCancelledUpdate lock :
  frame cancelled_not_written (HandleCancelledUpdate lock).
Proof. unfold HandleCancelledUpdate. frame_tac. Qed.
#[export] Hint Resolve frame_HandleCancelledUpdate : frame.

Lemma frame_CheckMergeState_locked lock :
  frame cancelled_not_written (CheckMergeState_locked lock).
Proof. unfold CheckMergeState_locked. frame_tac. Qed.
#[export] Hint Resolve frame_CheckMergeState_locked : frame.

Lemma frame_CheckMergeState : frame cancelled_not_written CheckMergeState.
Proof. unfold CheckMergeState, AcknowledgeMergeSuccess. frame_tac. Qed.

Lemma frame_InitiateMerge : frame cancelled_not_written InitiateMerge.
Proof. unfold InitiateMerge. frame_tac. Qed.

Lemma frame_FinishedSnapshotWrites : frame cancelled_not_written FinishedSnapshotWrites.
Proof. unfold FinishedSnapshotWrites. frame_tac. Qed.


(** ** What the record reader accepts (C7) *)

Lemma to_string_injective (a b : SnapshotState.t) : to_string a = to_string b → a = b.
Proof. by destruct a, b. Qed.

(** C7.  [ReadSnapshotStatus] returns a status exactly when the record file
    exists and its contents split at the spaces into seven tokens, the
    first of which is the token of the status' state ([none], [created],
    [merging] or [merge-completed]) and the other six of which [ParseUint]
    reads as the six sizes and counters; reading changes nothing.  Contents
    that end in a white-space character, a space or a newline for one, are
    rejected. *)
Theorem ReadSnapshotStatus_accepts_only (lock : LockedFile) (name : string) (w : World) :
  (∀ status w',
     ReadSnapshotStatus lock name w = Some (Some status, w') ↔
     w' = w ∧
     ∃ contents p1 p2 p3 p4 p5 p6,
       status_file w name = Some contents ∧
       base.Split contents " " = [to_string (state status); p1; p2; p3; p4; p5; p6] ∧
       base.ParseUint p1 UINT64_MAX = Some (device_size status) ∧
       base.ParseUint p2 UINT64_MAX = Some (snapshot_size status) ∧
       base.ParseUint p3 UINT64_MAX = Some (cow_partition_size status) ∧
       base.ParseUint p4 UINT64_MAX = Some (cow_file_size status) ∧
       base.ParseUint p5 UINT64_MAX = Some (sectors_allocated status) ∧
       base.ParseUint p6 UINT64_MAX = Some (metadata_sectors status)) ∧
  (∀ x c, base.isspace c = true →
     status_file w name = Some (x +:+ String c "") →
     ReadSnapshotStatus lock name w = Some (None, w)).
Proof.
  split; [|intros x c; apply ReadSnapshotStatus_trailing_space].
  intros status w'. split.
  - intros Hread. split; [by eapply ReadSnapshotStatus_pure|]. revert Hread.
    unfold ReadSnapshotStatus, bind, get, ret.
    destruct (status_file w name) as [contents|]; [|done].
    exists contents.
    destruct (negb _); [done|].
    destruct (base.Split contents " ")
      as [|p0 [|p1 [|p2 [|p3 [|p4 [|p5 [|p6 [|? ?]]]]]]]]; try done.
    exists p1, p2, p3, p4, p5, p6. split; [done|]. revert Hread.
    destruct (base.ParseUint p1 UINT64_MAX) as [v1|] eqn:H1;
      [|repeat case_bool_decide; done].
    destruct (base.ParseUint p2 UINT64_MAX) as [v2|] eqn:H2;
      [|repeat case_bool_decide; done].
    destruct (base.ParseUint p3 UINT64_MAX) as [v3|] eqn:H3;
      [|repeat case_bool_decide; done].
    destruct (base.ParseUint p4 UINT64_MAX) as [v4|] eqn:H4;
      [|repeat case_bool_decide; done].
    destruct (base.ParseUint p5 UINT64_MAX) as [v5|] eqn:H5;
      [|repeat case_bool_decide; done].
    destruct (base.ParseUint p6 UINT64_MAX) as [v6|] eqn:H6;
      [|repeat case_bool_decide; done].
    repeat case_bool_decide; simpl; intros [= <-]; by subst.
  - intros (-> & contents & p1 & p2 & p3 & p4 & p5 & p6 & Hfile & Hsplit
            & H1 & H2 & H3 & H4 & H5 & H6).
    unfold ReadSnapshotStatus, bind, get, ret. rewrite Hfile, Hsplit.
    cbn [length bool_decide negb]. rewrite H1, H2, H3, H4, H5, H6.
    destruct status as [st ? ? ? ? ? ?]; destruct st; reflexivity.
Qed.

(** ** Teardown is idempotent (C8) *)




(** ** Writing a record and reading it back (C9) *)

Lemma string_drop_all s : ∀ n, (String.length s ≤ n)%nat → string_drop n s = "".
Proof.
  induction s as [|c s IH]; intros [|n] Hn; simpl in *; try done; [lia|].
  apply IH. lia.
Qed.

Lemma string_app_empty_r (s : string) : s +:+ "" = s.
Proof. induction s as [|c s IH]; [done|]. by rewrite string_app_cons, IH. Qed.

Lemma write_at_start_covers old contents :
  (String.length old ≤ String.length contents)%nat → write_at_start old contents = contents.
Proof.
  intros Hlen. unfold write_at_start. rewrite string_drop_all by done.
  apply string_app_empty_r.
Qed.

(** The round trip holds as long as the record file did not hold more
    bytes than the new line has: a new file, or a line that did not get
    shorter. *)
Lemma WriteSnapshotStatus_then_read lock name status w files :
  lock_mode lock = LOCK_EX → in_range status →
  snapshots_dir w = Some files →
  (String.length (default "" (files !! name)) ≤ String.length (status_line_of status))%nat →
  ∃ w1, WriteSnapshotStatus lock name status w = Some (true, w1) ∧
        ReadSnapshotStatus lock name w1 = Some (Some status, w1).
Proof.
  intros Hlock Hrange Hdir Hlen.
  unfold WriteSnapshotStatus. rewrite CHECK_exclusive by done.
  unfold bind, get, ret, modify. simpl. rewrite Hdir.
  eexists. split; [reflexivity|].
  apply ReadSnapshotStatus_of_line; [done|].
  unfold status_file. simpl. rewrite lookup_insert_eq.
  by rewrite write_at_start_covers.
Qed.


(** * Further properties *)

(** ** The state file, written and read back *)

(** X1.  Under an exclusive lock and for every state but [Cancelled],
    [WriteUpdateState] succeeds, the state file then holds the token of the
    state and nothing else, whatever it held before, and [ReadUpdateState]
    returns the state. *)
Theorem WriteUpdateState_round_trip file st w :
  lock_mode file = LOCK_EX → st ≠ UpdateState.Cancelled →
  ∃ w1, WriteUpdateState file st w = Some (true, w1) ∧
        state_file w1 = Some (UpdateState_print st) ∧
        ReadUpdateState file w1 = Some (st, w1).
Proof.
  intros Hlock Hst. rewrite WriteUpdateState_run.
  rewrite bool_decide_false by (by destruct st).
  rewrite bool_decide_false by (rewrite Hlock; discriminate).
  eexists. split; [reflexivity|]. split; [reflexivity|].
  rewrite ReadUpdateState_run. f_equal. f_equal.
  by apply persisted_state_written.
Qed.

Lemma WriteUpdateState_over_longer :
  ∃ w1, WriteUpdateState exclusive UpdateState.None (booted "merge-needs-reboot" None ∅)
        = Some (true, w1) ∧
        state_file w1 = Some "none" ∧
        ReadUpdateState exclusive w1 = Some (UpdateState.None, w1).
Proof.
  apply (WriteUpdateState_round_trip exclusive UpdateState.None
           (booted "merge-needs-reboot" None ∅)); [reflexivity | discriminate].
Defined.

(** ** Creating a snapshot record *)

Lemma status_file_set files w name :
  status_file (set_snapshots_dir (Some files) w) name = files !! name.
Proof. reflexivity. Qed.

(** X2.  [CreateSnapshot] refuses a status one of whose four sizes is not
    a multiple of the sector size, and leaves the world as it is.  For
    aligned sizes (that fit 64 bits) and a name that has no record yet it
    succeeds, touches nothing but the records, and the record then reads
    back as the given sizes in state [created] with both counters zero,
    whatever state and counters the caller passed. *)
Theorem CreateSnapshot_record lock name status w :
  lock_mode lock = LOCK_EX →
  (sector_aligned status = false → CreateSnapshot lock name status w = Some (false, w)) ∧
  (sector_aligned status = true → in_range (created_status status) →
   is_Some (snapshots_dir w) → status_file w name = None →
   ∃ w1, CreateSnapshot lock name status w = Some (true, w1) ∧
         ReadSnapshotStatus lock name w1 = Some (Some (created_status status), w1) ∧
         same_update_state w w1 ∧ dm_devices w1 = dm_devices w ∧
         ∀ other, other ≠ name → status_file w1 other = status_file w other).
Proof.
  intros Hlock.
  assert (CreateSnapshot lock name status w =
          if sector_aligned status
          then (written <- WriteSnapshotStatus lock name (created_status status);;
                if negb written then ret false else ret true) w
          else Some (false, w)) as ->.
  { unfold CreateSnapshot, sector_aligned. rewrite CHECK_exclusive by done.
    unfold bind at 1, ret at 1.
    destruct (device_size status mod kSectorSize =? 0); [|done].
    destruct (snapshot_size status mod kSectorSize =? 0); [|done].
    destruct (cow_partition_size status mod kSectorSize =? 0); [|done].
    by destruct (cow_file_size status mod kSectorSize =? 0). }
  split; [by intros ->|].
  intros -> Hrange [files Hdir] Hfile.
  destruct (WriteSnapshotStatus_then_read lock name (created_status status) w files)
    as (w1 & Hwrite & Hread); [done..| |].
  { unfold status_file in Hfile. rewrite Hdir in Hfile. simpl in Hfile.
    rewrite Hfile. simpl. lia. }
  exists w1. rewrite (bind_run _ _ _ _ _ Hwrite). split; [done|]. split; [done|].
  pose proof (WriteSnapshotStatus_devices _ _ _ _ _ _ Hwrite) as [Hdm Hsame].
  split; [done|]. split; [done|].
  intros other Hother. revert Hwrite.
  unfold WriteSnapshotStatus. rewrite CHECK_exclusive by done.
  unfold bind, get, ret, modify. rewrite Hdir. intros [= <-].
  rewrite status_file_set. unfold status_file. rewrite Hdir.
  apply lookup_insert_ne. congruence.
Qed.

Lemma CreateSnapshot_sample :
  ∃ w1, CreateSnapshot exclusive "system_b" requested (booted "initiated" None ∅)
        = Some (true, w1) ∧
        ReadSnapshotStatus exclusive "system_b" w1
        = Some (Some (created_status requested), w1).
Proof.
  destruct (CreateSnapshot_record exclusive "system_b" requested
              (booted "initiated" None ∅) eq_refl) as [_ Hcreate].
  destruct Hcreate as (w1 & Hrun & Hread & _).
  - reflexivity.
  - vm_compute. repeat split; discriminate.
  - by eexists.
  - reflexivity.
  - exists w1. split; [exact Hrun | exact Hread].
Defined.

(** ** Cancelling an update *)

Lemma locked_locked w : locked (locked w) = locked w.
Proof. by destruct w. Qed.

Lemma locked_same w : is_Some (state_file w) → locked w = w.
Proof. intros [c Hc]. unfold locked. rewrite Hc. by apply set_state_file_same. Qed.

Lemma persisted_state_exists w :
  persisted_state w ≠ UpdateState.None → is_Some (state_file w).
Proof.
  intros Hst. pose proof (ReadUpdateState_run exclusive w) as Hread.
  apply ReadUpdateState_state_file in Hread; [by eexists | done].
Qed.

Lemma LockExclusive_run w : LockExclusive w = Some (Some exclusive, locked w).
Proof. reflexivity. Qed.

Lemma TryCancelUpdate_run w :
  TryCancelUpdate w =
  match persisted_state w with
  | UpdateState.None => Some ((true, false), locked w)
  | UpdateState.Initiated =>
      (removed <- RemoveAllUpdateState exclusive;; ret (removed, false)) (locked w)
  | UpdateState.Unverified =>
      if bool_decide (boot_indicator w = None ∨ boot_indicator w = Some (slot_suffix w))
      then (removed <- RemoveAllUpdateState exclusive;; ret (removed, false)) (locked w)
      else Some ((true, true), locked w)
  | _ => Some ((true, true), locked w)
  end.
Proof.
  unfold TryCancelUpdate. rewrite (bind_run _ _ _ _ _ (LockExclusive_run w)).
  rewrite (bind_run _ _ _ _ _ (ReadUpdateState_run exclusive (locked w))).
  rewrite persisted_state_locked.
  destruct (persisted_state w) eqn:Hstate; try reflexivity.
  rewrite bool_decide_false by done. rewrite bool_decide_false by done.
  rewrite bool_decide_true by done.
  unfold bind at 1 2, get. change (boot_indicator (locked w)) with (boot_indicator w).
  destruct (boot_indicator w) as [contents|] eqn:Hindicator.
  - unfold GetSlotSuffix. unfold bind at 1 2, get, ret at 1.
    change (slot_suffix (locked w)) with (slot_suffix w).
    case_bool_decide as Hslot.
    + rewrite bool_decide_true by (right; congruence).
      unfold bind, ret. by destruct (RemoveAllUpdateState exclusive (locked w)) as [[??]|].
    + rewrite bool_decide_false; [done|]. intros [?|?]; congruence.
  - rewrite bool_decide_true by (by left).
    unfold bind, ret. by destruct (RemoveAllUpdateState exclusive (locked w)) as [[??]|].
Qed.

Lemma CancelUpdate_run w :
  CancelUpdate w =
  if bool_decide (persisted_state w = UpdateState.None) then Some (true, locked w)
  else if bool_decide (can_cancel w) then RemoveAllUpdateState exclusive w
  else Some (false, w).
Proof.
  unfold CancelUpdate. unfold bind at 1. rewrite TryCancelUpdate_run.
  remember (bool_decide (can_cancel w)) as c eqn:Hc.
  assert (c = true ↔ can_cancel w) as Hcancel.
  { subst c. apply bool_decide_eq_true. }
  assert (∀ b, (b = true ↔ can_cancel w) → c = b) as Hc'.
  { intros b Hb. destruct b, c; intuition congruence. }
  clear Hc Hcancel.
  remember (bool_decide (boot_indicator w = None ∨ boot_indicator w = Some (slot_suffix w)))
    as rollback eqn:Hrollback. symmetry in Hrollback.
  destruct (persisted_state w) eqn:Hstate;
    [by rewrite bool_decide_true|rewrite bool_decide_false by done..];
    (rewrite locked_same by (apply persisted_state_exists; congruence)).
  - assert (c = true) as ->.
    { apply Hc'. split; [by left | done]. }
    unfold bind, ret. by destruct (RemoveAllUpdateState exclusive w) as [[[] ?]|].
  - destruct rollback.
    + assert (c = true) as ->.
      { apply Hc'. split; [|done]. right.
        by apply bool_decide_eq_true in Hrollback. }
      unfold bind, ret. by destruct (RemoveAllUpdateState exclusive w) as [[[] ?]|].
    + assert (c = false) as ->; [|done].
      apply Hc'. split; [done|]. intros [?|[_ ?]]; [congruence|].
      by apply bool_decide_eq_false in Hrollback.
  - assert (c = false) as ->; [|done].
    apply Hc'. split; [done|]. intros [?|[? _]]; congruence.
  - assert (c = false) as ->; [|done].
    apply Hc'. split; [done|]. intros [?|[? _]]; congruence.
  - assert (c = false) as ->; [|done].
    apply Hc'. split; [done|]. intros [?|[? _]]; congruence.
  - assert (c = false) as ->; [|done].
    apply Hc'. split; [done|]. intros [?|[? _]]; congruence.
  - assert (c = false) as ->; [|done].
    apply Hc'. split; [done|]. intros [?|[? _]]; congruence.
Qed.

Lemma needs_merge_cannot_cancel w :
  needs_merge w → persisted_state w ≠ UpdateState.None ∧ ¬ can_cancel w.
Proof.
  intros [Hin|(Hstate & old_slot & Hindicator & Hslot)].
  - repeat (apply elem_of_cons in Hin as [Hin|Hin];
            [split; [congruence | intros [?|[? _]]; congruence]|]).
    by apply elem_of_nil in Hin.
  - split; [congruence|]. intros [?|[_ [?|?]]]; congruence.
Qed.

(** X3.  [CancelUpdate] always returns.  With no update in progress it
    succeeds and changes nothing but for the state file that the lock
    creates.  While the update can still be cancelled (it is initiated, or
    it is unverified and the boot indicator is missing or names the live
    slot) it does what [RemoveAllUpdateState] does and returns its
    result.  Once a merge is needed (the state is merging,
    merge-needs-reboot, merge-completed or merge-failed, or it is
    unverified and the device runs from the new slot) it fails and changes
    nothing.  Whenever it succeeds the persisted state is [none]
    afterwards, and if an update was in progress no record and no boot
    indicator are left. *)
Theorem CancelUpdate_outcome w :
  ∃ b w',
    CancelUpdate w = Some (b, w') ∧
    (persisted_state w = UpdateState.None → b = true ∧ w' = locked w) ∧
    (can_cancel w → RemoveAllUpdateState exclusive w = Some (b, w')) ∧
    (needs_merge w → b = false ∧ w' = w) ∧
    (b = true →
     persisted_state w' = UpdateState.None ∧
     (persisted_state w ≠ UpdateState.None →
      snapshots_dir w' = Some ∅ ∧ boot_indicator w' = None)).
Proof.
  rewrite CancelUpdate_run.
  case_bool_decide as Hnone.
  { exists true, (locked w). split; [done|]. split; [done|].
    split; [intros [?|[? _]]; congruence|].
    split; [by intros [? _]%needs_merge_cannot_cancel|].
    intros _. by rewrite persisted_state_locked. }
  case_bool_decide as Hcancel.
  - destruct (total_RemoveAllUpdateState exclusive eq_refl w) as [[b w'] Hrun].
    exists b, w'. split; [done|]. split; [done|]. split; [done|].
    split; [by intros [_ ?]%needs_merge_cannot_cancel|].
    intros ->. apply RemoveAllUpdateState_inv in Hrun as (Hdir & Hindicator & Hfile).
    split; [by apply (persisted_state_written w' UpdateState.None)|done].
  - exists false, w. split; [done|]. split; [done|]. split; [done|]. by split.
Qed.

(** ** Beginning an update *)

Lemma BeginUpdate_write w :
  (file <- LockExclusive;;
   match file with
   | None => ret (Some false)
   | Some file =>
       st <- ReadUpdateState file;;
       if negb (bool_decide (st = UpdateState.None)) then ret (Some false) else
       written <- WriteUpdateState file UpdateState.Initiated;;
       ret (Some written)
   end) w
  = if bool_decide (persisted_state w = UpdateState.None)
    then Some (Some true, set_state_file (Some "initiated")
                            (set_state_file (Some "") (locked w)))
    else Some (Some false, locked w).
Proof.
  rewrite (bind_run _ _ _ _ _ (LockExclusive_run w)).
  rewrite (bind_run _ _ _ _ _ (ReadUpdateState_run exclusive (locked w))).
  rewrite persisted_state_locked.
  case_bool_decide; [|done]. cbn [negb].
  unfold bind. rewrite WriteUpdateState_run. by rewrite !bool_decide_false.
Qed.

(** X4.  With no update in progress [BeginUpdate] succeeds without
    waiting for a merge, and only the state file changes: it holds
    [initiated].  And whenever [BeginUpdate] succeeds, however long it
    waited and whatever happened during the wait, the state file holds
    [initiated] afterwards. *)
Theorem BeginUpdate_initiates sleep polls w :
  (persisted_state w = UpdateState.None →
   ∃ w', BeginUpdate sleep polls w = Some (Some true, w') ∧
         state_file w' = Some "initiated" ∧ dm_devices w' = dm_devices w ∧
         snapshots_dir w' = snapshots_dir w ∧ boot_indicator w' = boot_indicator w ∧
         backing_images w' = backing_images w ∧ same_config w w') ∧
  (∀ w', BeginUpdate sleep polls w = Some (Some true, w') →
         state_file w' = Some "initiated" ∧
         persisted_state w' = UpdateState.Initiated).
Proof.
  split.
  - intros Hnone. unfold BeginUpdate. unfold bind at 1.
    rewrite TryCancelUpdate_run, Hnone. cbn [negb fst snd].
    unfold bind at 1, ret at 1. cbn [negb].
    rewrite BeginUpdate_write, persisted_state_locked, Hnone.
    rewrite bool_decide_true by done.
    eexists. split; [reflexivity|]. by repeat split.
  - intros w' Hrun. unfold BeginUpdate in Hrun.
    apply bind_Some in Hrun as (cancelled & w1 & _ & Hrun).
    destruct (negb cancelled.1); [by injection Hrun|].
    apply bind_Some in Hrun as (waited & w2 & _ & Hrun).
    destruct (negb waited); [by injection Hrun|].
    rewrite BeginUpdate_write in Hrun.
    case_bool_decide; [|by injection Hrun].
    injection Hrun as <-. split; [reflexivity|].
    by apply (persisted_state_written _ UpdateState.Initiated).
Qed.

(** X5.  Called while an update is initiated, [BeginUpdate] first drops
    it: if [RemoveAllUpdateState] succeeds, the call succeeds in the world
    that is left, with no record, no boot indicator and the state
    [initiated] again; if it fails, [BeginUpdate] fails in the world that
    the failed removal leaves, so the state file still holds [initiated]. *)
Theorem BeginUpdate_restarts sleep polls w :
  persisted_state w = UpdateState.Initiated →
  ∃ removed w1 w',
    RemoveAllUpdateState exclusive w = Some (removed, w1) ∧
    BeginUpdate sleep polls w = Some (Some removed, w') ∧
    persisted_state w' = UpdateState.Initiated ∧
    if removed
    then snapshots_dir w' = Some ∅ ∧ boot_indicator w' = None ∧
         dm_devices w' = dm_devices w1
    else w' = w1.
Proof.
  intros Hstate.
  destruct (total_RemoveAllUpdateState exclusive eq_refl w) as [[removed w1] Hremove].
  pose proof (RemoveAllUpdateState_inv _ _ _ Hremove) as Hinv.
  unfold BeginUpdate. unfold bind at 1. rewrite TryCancelUpdate_run, Hstate.
  rewrite locked_same by (apply persisted_state_exists; congruence).
  rewrite (bind_run _ _ _ _ _ Hremove). unfold ret at 1. cbn [fst snd].
  destruct removed; cbn [negb].
  - destruct Hinv as (Hdir & Hindicator & Hfile).
    unfold bind at 1, ret at 1. cbn [negb].
    rewrite BeginUpdate_write.
    rewrite bool_decide_true by (by apply (persisted_state_written _ UpdateState.None)).
    eexists true, w1, _. split; [done|]. split; [reflexivity|].
    split; [by apply (persisted_state_written _ UpdateState.Initiated)|].
    by repeat split.
  - exists false, w1, w1. split; [done|]. split; [done|]. split; [|done].
    rewrite <- Hstate. apply persisted_state_same. apply Hinv.
Qed.

Lemma BeginUpdate_twice :
  ∃ w', BeginUpdate (ret tt) 0 (booted "initiated" None ∅) = Some (Some true, w') ∧
        persisted_state w' = UpdateState.Initiated.
Proof.
  destruct (BeginUpdate_restarts (ret tt) 0 (booted "initiated" None ∅) eq_refl)
    as (removed & w1 & w' & Hremove & Hrun & Hstate & _).
  vm_compute in Hremove. injection Hremove as <- _.
  exists w'. split; [exact Hrun | exact Hstate].
Defined.

(** ** Waiting for the merge *)

Lemma AcknowledgeMergeFailure_run w :
  AcknowledgeMergeFailure w =
  if bool_decide (persisted_state w = UpdateState.Merging)
     || bool_decide (persisted_state w = UpdateState.MergeNeedsReboot)
  then Some (tt, set_state_file (Some "merge-failed") (set_state_file (Some "") w))
  else Some (tt, locked w).
Proof.
  unfold AcknowledgeMergeFailure. rewrite (bind_run _ _ _ _ _ (LockExclusive_run w)).
  rewrite (bind_run _ _ _ _ _ (ReadUpdateState_run exclusive (locked w))).
  rewrite persisted_state_locked.
  destruct (bool_decide (persisted_state w = UpdateState.Merging)) eqn:Hmerging;
    destruct (bool_decide (persisted_state w = UpdateState.MergeNeedsReboot)) eqn:Hreboot;
    cbn [negb andb orb]; try done;
    (unfold bind; rewrite WriteUpdateState_run, !bool_decide_false by done;
     rewrite locked_same; [done|]; apply persisted_state_exists;
     first [apply bool_decide_eq_true in Hmerging | apply bool_decide_eq_true in Hreboot];
     congruence).
Qed.

(** X6.  [AcknowledgeMergeFailure] turns the persisted state into
    [merge-failed] when it is [merging] or [merge-needs-reboot], and leaves
    every other state as it is: a merge that was completed or cancelled in
    the meantime is not marked as failed.  Nothing but the state file
    changes. *)
Theorem AcknowledgeMergeFailure_outcome w :
  ∃ w', AcknowledgeMergeFailure w = Some (tt, w') ∧
        persisted_state w' =
          (if bool_decide (persisted_state w ∈ [UpdateState.Merging;
                                               UpdateState.MergeNeedsReboot])
           then UpdateState.MergeFailed else persisted_state w) ∧
        dm_devices w' = dm_devices w ∧ snapshots_dir w' = snapshots_dir w ∧
        boot_indicator w' = boot_indicator w ∧ backing_images w' = backing_images w ∧
        same_config w w'.
Proof.
  rewrite AcknowledgeMergeFailure_run.
  destruct (bool_decide (persisted_state w = UpdateState.Merging)) eqn:Hmerging;
    destruct (bool_decide (persisted_state w = UpdateState.MergeNeedsReboot)) eqn:Hreboot;
    cbn [orb]; eexists; (split; [reflexivity|]).
  - apply bool_decide_eq_true in Hmerging. rewrite bool_decide_true.
    + by repeat split.
    + rewrite Hmerging. apply elem_of_cons. by left.
  - apply bool_decide_eq_true in Hmerging. rewrite bool_decide_true.
    + by repeat split.
    + rewrite Hmerging. apply elem_of_cons. by left.
  - apply bool_decide_eq_true in Hreboot. rewrite bool_decide_true.
    + by repeat split.
    + rewrite Hreboot. apply elem_of_cons. right. apply elem_of_cons. by left.
  - apply bool_decide_eq_false in Hmerging. apply bool_decide_eq_false in Hreboot.
    rewrite bool_decide_false.
    + rewrite persisted_state_locked. by repeat split.
    + intros Hin. repeat (apply elem_of_cons in Hin as [Hin|Hin]; [done|]).
      by apply elem_of_nil in Hin.
Qed.

Lemma AcknowledgeMergeFailure_settled w w' :
  AcknowledgeMergeFailure w = Some (tt, w') →
  persisted_state w' ≠ UpdateState.Merging ∧
  persisted_state w' ≠ UpdateState.MergeNeedsReboot.
Proof.
  rewrite AcknowledgeMergeFailure_run.
  destruct (bool_decide (persisted_state w = UpdateState.Merging)) eqn:Hmerging;
    destruct (bool_decide (persisted_state w = UpdateState.MergeNeedsReboot)) eqn:Hreboot;
    cbn [orb]; intros [= <-];
    try (rewrite (persisted_state_written _ UpdateState.MergeFailed) by done; by split).
  rewrite persisted_state_locked.
  apply bool_decide_eq_false in Hmerging. by apply bool_decide_eq_false in Hreboot.
Qed.


(** ** First-stage mount *)

Lemma NeedSnapshotsInFirstStageMount_run w :
  NeedSnapshotsInFirstStageMount w =
  match boot_indicator w with
  | None => Some (false, w)
  | Some old_slot =>
      if bool_decide (slot_suffix w = old_slot) then Some (false, w) else
      match state_file w with
      | None => None
      | Some _ =>
          Some (bool_decide (persisted_state w ∈ [UpdateState.Unverified; UpdateState.Merging;
                                                  UpdateState.MergeFailed]), w)
      end
  end.
Proof.
  unfold NeedSnapshotsInFirstStageMount, GetSlotSuffix, LockShared.
  unfold bind at 1, get at 1.
  destruct (boot_indicator w) as [old_slot|]; [|done].
  unfold bind at 1 2, get at 1, ret at 1.
  case_bool_decide; [done|].
  unfold bind at 1 2, get at 1.
  destruct (state_file w) as [contents|]; [|done].
  unfold ret at 1. unfold bind. rewrite ReadUpdateState_run.
  destruct (persisted_state w); unfold ret; f_equal; f_equal; symmetry;
    first [ apply bool_decide_eq_true; repeat (first [by apply elem_of_cons; left
                                                    | apply elem_of_cons; right])
          | apply bool_decide_eq_false; intros Hin;
            repeat (apply elem_of_cons in Hin as [Hin|Hin]; [discriminate Hin|]);
            by apply elem_of_nil in Hin ].
Qed.

(** X8.  [NeedSnapshotsInFirstStageMount] never changes anything.  It
    answers yes exactly when the boot indicator names another slot than the
    live one and the persisted state is [unverified], [merging] or
    [merge-failed]; and it aborts the process exactly when the boot
    indicator names another slot and the state file does not exist. *)
Theorem NeedSnapshotsInFirstStageMount_iff w :
  (∀ b w', NeedSnapshotsInFirstStageMount w = Some (b, w') → w' = w) ∧
  (NeedSnapshotsInFirstStageMount w = Some (true, w) ↔
   ∃ old_slot, boot_indicator w = Some old_slot ∧ slot_suffix w ≠ old_slot ∧
     persisted_state w ∈ [UpdateState.Unverified; UpdateState.Merging;
                          UpdateState.MergeFailed]) ∧
  (NeedSnapshotsInFirstStageMount w = None ↔
   ∃ old_slot, boot_indicator w = Some old_slot ∧ slot_suffix w ≠ old_slot ∧
     state_file w = None).
Proof.
  rewrite NeedSnapshotsInFirstStageMount_run.
  destruct (boot_indicator w) as [old_slot|] eqn:Hindicator.
  2:{ split; [by intros b w' [= _ <-]|]. split; (split; [done|]); by intros (? & ? & _). }
  case_bool_decide as Hslot.
  { split; [by intros b w' [= _ <-]|].
    split; (split; [done|]); intros (? & [= <-] & ? & _); done. }
  destruct (state_file w) as [contents|] eqn:Hfile.
  - split; [by intros b w' [= _ <-]|]. split; [|split; [done|]].
    + split.
      * intros [= Hin]. exists old_slot. split; [done|]. split; [done|].
        by apply bool_decide_eq_true in Hin.
      * intros (? & _ & _ & Hin). by rewrite bool_decide_true.
    + intros (? & _ & _ & ?). done.
  - split; [done|]. split; [split; [done|]|].
    + intros (? & _ & _ & Hin).
      assert (persisted_state w = UpdateState.None) as Hnone.
      { unfold persisted_state, ReadUpdateState, bind, get, ret. by rewrite Hfile. }
      rewrite Hnone in Hin.
      repeat (apply elem_of_cons in Hin as [Hin|Hin]; [discriminate Hin|]).
      by apply elem_of_nil in Hin.
    + split; [|done]. intros _. by exists old_slot.
Qed.

(** ** After a merge was initiated *)

Lemma InitiateMerge_true w w' :
  InitiateMerge w = Some (true, w') →
  (∃ old_slot, boot_indicator w' = Some old_slot ∧ slot_suffix w' ≠ old_slot) ∧
  (persisted_state w' = UpdateState.Merging ∨ persisted_state w' = UpdateState.MergeFailed).
Proof.
  rewrite InitiateMerge_run.
  destruct (negb _); [done|].
  destruct (boot_indicator w) as [old_slot|] eqn:Hindicator; [|done].
  case_bool_decide as Hslot; [done|].
  destruct (snapshots_dir w); [|done].
  destruct (negb _); [done|].
  pose proof (WriteUpdateState_run exclusive UpdateState.Merging (locked w)) as Hwrite.
  rewrite !bool_decide_false in Hwrite by done.
  rewrite (bind_run _ _ _ _ _ Hwrite).
  set (w0 := set_state_file _ (set_state_file _ (locked w))) in *.
  intros Hrun. apply bind_Some in Hrun as (results & w1 & Hswitch & Hrun).
  apply switch_results_inv in Hswitch as (_ & Hsame & _).
  destruct Hsame as (Hconfig & Hfile & Hind).
  assert (slot_suffix w1 = slot_suffix w) as Hslot1 by apply Hconfig.
  destruct (negb (forallb id results)).
  - pose proof (WriteUpdateState_run exclusive UpdateState.MergeFailed w1) as Hfailed.
    rewrite !bool_decide_false in Hfailed by done.
    rewrite (bind_run _ _ _ _ _ (bind_run _ _ _ _ _ Hfailed)) in Hrun.
    injection Hrun as <-. split.
    + exists old_slot. split; [by rewrite <- Hindicator|]. cbn. congruence.
    + right. by apply (persisted_state_written _ UpdateState.MergeFailed).
  - injection Hrun as <-. split.
    + exists old_slot. split; [by rewrite Hind|]. congruence.
    + left. by apply (persisted_state_written _ UpdateState.Merging).
Qed.

(** X9.  Once [InitiateMerge] has succeeded there is no way back: in the
    world it leaves, first-stage mount needs the snapshots, a second
    [InitiateMerge] fails and changes nothing, and so does [CancelUpdate]. *)
Theorem InitiateMerge_commits w w' :
  InitiateMerge w = Some (true, w') →
  NeedSnapshotsInFirstStageMount w' = Some (true, w') ∧
  InitiateMerge w' = Some (false, w') ∧
  CancelUpdate w' = Some (false, w').
Proof.
  intros ((old_slot & Hindicator & Hslot) & Hstate)%InitiateMerge_true.
  assert (persisted_state w' ≠ UpdateState.None) as Hsome by (destruct Hstate; congruence).
  pose proof (locked_same w' (persisted_state_exists w' Hsome)) as Hlocked.
  split; [|split].
  - rewrite NeedSnapshotsInFirstStageMount_run, Hindicator.
    rewrite bool_decide_false by done.
    destruct (persisted_state_exists w' Hsome) as [contents ->].
    rewrite bool_decide_true; [done|].
    destruct Hstate as [-> | ->]; repeat (first [by apply elem_of_cons; left
                                                | apply elem_of_cons; right]).
  - rewrite InitiateMerge_run, Hlocked. rewrite bool_decide_false; [done|].
    destruct Hstate; congruence.
  - rewrite CancelUpdate_run. rewrite bool_decide_false by done.
    rewrite bool_decide_false; [done|].
    intros [?|[? _]]; destruct Hstate; congruence.
Qed.

Lemma InitiateMerge_commits_sample :
  ∃ w', InitiateMerge unverified_mapped = Some (true, w') ∧
        InitiateMerge w' = Some (false, w') ∧ CancelUpdate w' = Some (false, w').
Proof.
  eexists. split; [vm_compute; reflexivity|].
  apply (InitiateMerge_commits unverified_mapped). vm_compute. reflexivity.
Defined.

(** ** Between the end of the writes and the reboot *)

Lemma FinishedSnapshotWrites_initiated w :
  persisted_state w = UpdateState.Initiated →
  FinishedSnapshotWrites w
  = Some (true, set_state_file (Some "unverified")
                  (set_boot_indicator (Some (slot_suffix w)) w)).
Proof.
  intros Hstate. unfold FinishedSnapshotWrites.
  rewrite (bind_run _ _ _ _ _ (LockExclusive_run w)).
  rewrite locked_same by (apply persisted_state_exists; congruence).
  rewrite (bind_run _ _ _ _ _ (ReadUpdateState_run exclusive w)), Hstate.
  rewrite bool_decide_false by done. rewrite bool_decide_true by done. cbn [negb].
  unfold bind, GetSlotSuffix, modify, get, ret, WriteUpdateState, Truncate. simpl.
  destruct w; reflexivity.
Qed.

(** X10.  [FinishedSnapshotWrites] on an initiated update succeeds, and
    as long as the device keeps running from the same slot the update
    stays revocable and unmerged: first-stage mount does not need the
    snapshots, [InitiateMerge] fails and changes nothing, and the update
    can still be cancelled. *)
Theorem FinishedSnapshotWrites_before_reboot w :
  persisted_state w = UpdateState.Initiated →
  ∃ w', FinishedSnapshotWrites w = Some (true, w') ∧
        persisted_state w' = UpdateState.Unverified ∧
        boot_indicator w' = Some (slot_suffix w') ∧
        NeedSnapshotsInFirstStageMount w' = Some (false, w') ∧
        InitiateMerge w' = Some (false, w') ∧
        can_cancel w'.
Proof.
  intros Hstate. rewrite (FinishedSnapshotWrites_initiated w Hstate).
  eexists. split; [reflexivity|].
  set (w' := set_state_file _ _).
  assert (persisted_state w' = UpdateState.Unverified) as Hunverified.
  { by apply (persisted_state_written _ UpdateState.Unverified). }
  assert (boot_indicator w' = Some (slot_suffix w')) as Hindicator by reflexivity.
  split; [done|]. split; [done|]. split; [|split].
  - rewrite NeedSnapshotsInFirstStageMount_run, Hindicator.
    by rewrite bool_decide_true.
  - rewrite InitiateMerge_run, Hunverified, Hindicator.
    rewrite bool_decide_true by done. cbn [negb].
    rewrite bool_decide_true by done.
    by rewrite locked_same by (by eexists).
  - right. split; [done|]. by right.
Qed.

Lemma FinishedSnapshotWrites_before_reboot_sample :
  ∃ w', FinishedSnapshotWrites (booted "initiated" None ∅) = Some (true, w') ∧
        InitiateMerge w' = Some (false, w').
Proof.
  destruct (FinishedSnapshotWrites_before_reboot (booted "initiated" None ∅) eq_refl)
    as (w' & Hrun & _ & _ & _ & Hmerge & _).
  exists w'. split; [exact Hrun | exact Hmerge].
Defined.
(** ** Devices that are created and cleaned up *)

Lemma added_nil w w' : dm_devices w' = dm_devices w → added w w' [].
Proof.
  intros Hdm. split; [constructor|]. split.
  - by intros n ?%elem_of_nil.
  - intros x _. by rewrite Hdm.
Qed.

Lemma added_nil_inv w w' : added w w' [] → dm_devices w' = dm_devices w.
Proof.
  intros (_ & _ & Hrest). apply map_eq. intros x. apply Hrest. by intros ?%elem_of_nil.
Qed.

Lemma added_app w w1 w2 l1 l2 : added w w1 l1 → added w1 w2 l2 → added w w2 (l1 ++ l2).
Proof.
  intros (Hnd1 & Hnew1 & Hrest1) (Hnd2 & Hnew2 & Hrest2).
  assert (∀ n, n ∈ l1 → n ∉ l2) as Hdisjoint.
  { intros n Hin1 Hin2. destruct (Hnew1 n Hin1) as (_ & d & Hd & _).
    destruct (Hnew2 n Hin2) as (Habsent & _). congruence. }
  split; [|split].
  - apply NoDup_app. by repeat split.
  - intros n [Hin|Hin]%elem_of_app.
    + destruct (Hnew1 n Hin) as (Habsent & d & Hd & Hidle).
      split; [done|]. exists d. split; [|done].
      rewrite Hrest2; [done|]. by apply Hdisjoint.
    + destruct (Hnew2 n Hin) as (Habsent & d & Hd & Hidle).
      split; [|by exists d].
      destruct (decide (n ∈ l1)) as [Hin1|Hout].
      * destruct (Hnew1 n Hin1) as (_ & ? & ? & _). congruence.
      * by rewrite <- Hrest1.
  - intros x Hx. rewrite not_elem_of_app in Hx. destruct Hx as [Hx1 Hx2].
    by rewrite Hrest2, Hrest1.
Qed.

Lemma CreateDevice_added name table timeout_ms w b path w' :
  DeviceMapper.CreateDevice name table timeout_ms w = Some ((b, path), w') →
  added w w' (if b then [name] else []) ∧ same_files w w' ∧ images_ w' = images_ w ∧
  (b = true → name ≠ "" ∧
              ∃ d, dm_devices w' !! name = Some d ∧
                   dev_table d = DmTarget_Serialize <$> table ∧
                   dev_minor d = next_minor w).
Proof.
  rewrite CreateDevice_run. cbv zeta.
  assert (∀ w0, dm_devices w0 = dm_devices w → same_files w w0 → images_ w0 = images_ w →
                added w w0 [] ∧ same_files w w0 ∧ images_ w0 = images_ w ∧
                (false = true → name ≠ "" ∧
                   ∃ d, dm_devices w0 !! name = Some d ∧
                   dev_table d = DmTarget_Serialize <$> table ∧
                   dev_minor d = next_minor w)) as Hfalse.
  { intros w0 Hdm Hsame Himages. split; [by apply added_nil|].
    split; [done|]. split; [done|]. intros [=]. }
  case_bool_decide; [intros [= <- _ <-]; apply Hfalse; [done | reflexivity | done]|].
  destruct (_ <=? Z.of_nat _); [intros [= <- _ <-]; apply Hfalse; [done | reflexivity | done]|].
  destruct (dm_devices w !! name) eqn:Hname; [intros [= <- _ <-]; apply Hfalse; [done | reflexivity | done]|].
  case_bool_decide.
  { intros [= <- _ <-]. apply Hfalse; [|by repeat split|done].
    cbn. by apply delete_insert_id. }
  destruct (_ || _).
  - intros [= <- _ <-]. split; [|split; [by repeat split|split; [done|]]].
    + split; [apply NoDup_singleton|]. split.
      * intros n ->%list_elem_of_singleton. split; [done|].
        eexists. split; [apply lookup_insert_eq | done].
      * intros x Hx%not_elem_of_cons. cbn. apply lookup_insert_ne. by destruct Hx.
    + intros _. split; [done|]. eexists. split; [apply lookup_insert_eq|done].
  - intros [= <- _ <-]. apply Hfalse; [|by repeat split|done].
    cbn. by apply delete_insert_id.
Qed.

Lemma rev_reverse {A} (l : list A) : rev l = reverse l.
Proof. unfold reverse. apply rev_alt. Qed.

Lemma added_reverse w w' names : added w w' names → added w w' (reverse names).
Proof.
  intros (Hnd & Hnew & Hrest). split; [by rewrite reverse_Permutation|]. split.
  - intros n Hin. rewrite elem_of_reverse in Hin. by apply Hnew.
  - intros x Hx. apply Hrest. by rewrite elem_of_reverse in Hx.
Qed.

Lemma AutoDevice_destroy_run d w :
  AutoDevice_destroy d w =
  if bool_decide (AutoDevice_name d = "") then Some (tt, w)
  else match dm_devices w !! AutoDevice_name d with
       | Some dev => if bool_decide (dev_open_count dev = 0%nat)
                     then Some (tt, set_dm_devices (delete (AutoDevice_name d)) w)
                     else Some (tt, w)
       | None => Some (tt, w)
       end.
Proof.
  destruct d as [name|name]; simpl; (case_bool_decide; [done|]); unfold bind.
  - rewrite DeleteDeviceIfExists_run.
    destruct (dm_devices w !! name) as [dev|]; [|done]. by case_bool_decide.
  - rewrite UnmapImageIfExists_run, DeleteDeviceIfExists_run.
    destruct (dm_devices w !! name) as [dev|]; [|done]. by case_bool_decide.
Qed.

Lemma destroy_each_added k : ∀ w0 w,
  added w0 w (AutoDevice_name <$> k) →
  Forall (λ d, AutoDevice_name d ≠ "") k →
  ∃ w', destroy_each k w = Some (tt, w') ∧ dm_devices w' = dm_devices w0 ∧
        same_files w w' ∧ images_ w' = images_ w.
Proof.
  induction k as [|d k IH]; intros w0 w Hadded Hnames; simpl.
  - exists w. split; [done|]. split; [by apply added_nil_inv|]. by split.
  - apply Forall_cons in Hnames as [Hname Hnames].
    destruct Hadded as (Hnd & Hnew & Hrest). simpl in Hnd.
    apply NoDup_cons in Hnd as [Hfresh Hnd].
    destruct (Hnew (AutoDevice_name d)) as (Habsent & dev & Hdev & Hidle);
      [by apply elem_of_cons; left|].
    unfold bind. rewrite AutoDevice_destroy_run.
    rewrite bool_decide_false by done. rewrite Hdev, bool_decide_true by done.
    destruct (IH w0 (set_dm_devices (delete (AutoDevice_name d)) w))
      as (w' & Hrun & Hdm & Hsame & Himages); [|done|].
    { split; [done|]. split.
      - intros n Hin. destruct (Hnew n) as (? & dev' & ? & ?); [by apply elem_of_cons; right|].
        split; [done|]. exists dev'. split; [|done]. cbn.
        rewrite lookup_delete_ne; [done|]. intros <-. done.
      - intros x Hx. cbn. destruct (decide (x = AutoDevice_name d)) as [->|Hne].
        + by rewrite lookup_delete_eq.
        + rewrite lookup_delete_ne by done. apply Hrest.
          apply not_elem_of_cons. by split. }
    exists w'. split; [done|]. split; [done|]. split; [|done].
    etransitivity; [|exact Hsame]. by repeat split.
Qed.

Lemma AutoDeviceList_destroy_added l w0 w :
  added w0 w (AutoDevice_name <$> l) →
  Forall (λ d, AutoDevice_name d ≠ "") l →
  ∃ w', AutoDeviceList_destroy l w = Some (tt, w') ∧ dm_devices w' = dm_devices w0 ∧
        same_files w w' ∧ images_ w' = images_ w.
Proof.
  intros Hadded Hnames. unfold AutoDeviceList_destroy.
  rewrite rev_reverse. apply destroy_each_added.
  - rewrite fmap_reverse. by apply added_reverse.
  - by apply Forall_reverse.
Qed.

Lemma destroy_each_released k w :
  Forall (λ d, AutoDevice_name d = "") k → destroy_each k w = Some (tt, w).
Proof.
  induction 1 as [|d k Hd _ IH]; simpl; [done|].
  unfold bind. rewrite AutoDevice_destroy_run. by rewrite bool_decide_true.
Qed.

Lemma AutoDeviceList_cleanup_released l w :
  AutoDeviceList_destroy (AutoDeviceList_Release l) w = Some (tt, w).
Proof.
  unfold AutoDeviceList_destroy, AutoDeviceList_Release. apply destroy_each_released.
  rewrite rev_reverse. apply Forall_reverse, Forall_fmap, Forall_forall.
  by intros [name|name] _.
Qed.


(** X12.  [CreateDevice(name, table, path, timeout)] is all or nothing.
    On success the device [name] did not exist before, it exists now with
    the given table, active and not held open, and every other device is
    untouched.  On failure the devices are exactly those from before: a
    device that was created but could not be loaded or did not show up in
    time is deleted again.  It fails for an empty name, a name of
    [DM_NAME_LEN] or more characters, a name that is taken and an empty
    table. *)
Theorem CreateDevice_all_or_nothing name table timeout_ms w :
  ∃ b path w',
    DeviceMapper.CreateDevice name table timeout_ms w = Some ((b, path), w') ∧
    (b = true →
     dm_devices w !! name = None ∧
     ∃ d, dm_devices w' = <[name := d]> (dm_devices w) ∧
          dev_table d = DmTarget_Serialize <$> table ∧
          dev_open_count d = 0%nat ∧ dev_suspended d = false) ∧
    (b = false → dm_devices w' = dm_devices w) ∧
    (name = "" ∨ DeviceMapper.DM_NAME_LEN ≤ Z.of_nat (String.length name) ∨
     is_Some (dm_devices w !! name) ∨ table = [] → b = false).
Proof.
  rewrite CreateDevice_run. cbv zeta.
  case_bool_decide as Hname.
  { eexists false, _, _. split; [reflexivity|]. by repeat split. }
  destruct (_ <=? Z.of_nat _) eqn:Hlen.
  { eexists false, _, _. split; [reflexivity|]. by repeat split. }
  apply Z.leb_gt in Hlen.
  destruct (dm_devices w !! name) as [d0|] eqn:Hfree.
  { eexists false, _, _. split; [reflexivity|]. by repeat split. }
  case_bool_decide as Htable.
  { eexists false, _, _. split; [reflexivity|]. split; [done|]. split; [|done].
    intros _. cbn. by apply delete_insert_id. }
  destruct (_ || _).
  - eexists true, _, _. split; [reflexivity|]. split; [|split; [done|]].
    + intros _. split; [done|]. eexists. split; [reflexivity|]. by repeat split.
    + intros [?|[?|[[? ?]|?]]]; [done | lia | done | done].
  - eexists false, _, _. split; [reflexivity|]. split; [done|]. split; [|done].
    intros _. cbn. by apply delete_insert_id.
Qed.

Lemma GetDeviceString_pure name w r w' :
  DeviceMapper.GetDeviceString name w = Some (r, w') →
  w' = w ∧ (is_Some (dm_devices w !! name) → is_Some r).
Proof.
  unfold DeviceMapper.GetDeviceString, DeviceMapper.GetDeviceNumber,
    DeviceMapper.DM_DEV_STATUS, bind, get, ret.
  destruct (dm_devices w !! name); intros [= <- <-]; split; try done;
    try (by intros [? ?]).
Qed.

Lemma DeleteDevice_added name w0 w :
  added w0 w [name] →
  ∃ w', DeviceMapper.DeleteDevice name w = Some (true, w') ∧
        dm_devices w' = dm_devices w0 ∧ same_files w w' ∧ images_ w' = images_ w.
Proof.
  intros (_ & Hnew & Hrest).
  destruct (Hnew name) as (Habsent & d & Hd & Hidle); [by apply elem_of_cons; left|].
  rewrite DeleteDevice_run, Hd, bool_decide_true by done.
  eexists. split; [reflexivity|]. split; [|by repeat split].
  apply map_eq. intros x. cbn. destruct (decide (x = name)) as [->|Hne].
  - by rewrite lookup_delete_eq.
  - rewrite lookup_delete_ne by done. apply Hrest. by intros ->%list_elem_of_singleton.
Qed.

Lemma MapSnapshot_added lock name base_device cow_device timeout_ms w b path w' :
  MapSnapshot lock name base_device cow_device timeout_ms w = Some ((b, path), w') →
  same_files w w' ∧ (images_ w = true → images_ w' = true) ∧
  if b then ∃ status, record_of w name = Some status ∧
                      added w w' (snapshot_devices name status)
  else added w w' [].
Proof.
  unfold MapSnapshot. intros H.
  apply bind_Some in H as (ok & w1 & Hensure & H).
  rewrite EnsureImageManager_run in Hensure.
  assert (same_files w w1 ∧ dm_devices w1 = dm_devices w ∧
          (images_ w = true → images_ w1 = true)) as (Hfiles & Hdm & Himages).
  { destruct (images_ w) eqn:Himg; [|destruct (gsid_available w)];
      injection Hensure as <- <-;
      (split; [by repeat split|]; split; [done|]; first [done | by intros _]). }
  assert (record_of w1 name = record_of w name) as Hrecord.
  { apply record_of_same. apply Hfiles. }
  assert (∀ p, Some (false, p, w1) = Some (b, path, w') →
               same_files w w' ∧ (images_ w = true → images_ w' = true) ∧
               if b then ∃ status, record_of w name = Some status ∧
                                   added w w' (snapshot_devices name status)
               else added w w' []) as Hfalse.
  { intros p [= <- <- <-]. split; [done|]. split; [done|]. by apply added_nil. }
  destruct ok; cbn [negb] in H; [|by eapply Hfalse].
  apply bind_Some in H as (status & w2 & Hread & H).
  rewrite ReadSnapshotStatus_run in Hread. injection Hread as <- <-.
  rewrite Hrecord in H.
  destruct (record_of w name) as [status|]; [|by eapply Hfalse].
  case_bool_decide as Hcompleted; [by eapply Hfalse|].
  apply bind_Some in H as (size_ok & w2 & Hsize & H).
  assert (w2 = w1) as ->.
  { destruct (base.StartsWith base_device "/"); [|by injection Hsize as <- <-].
    unfold bind, get in Hsize. destruct (block_devices w1 !! base_device); [|by injection Hsize].
    repeat (match type of Hsize with context [if ?c then _ else _] => destruct c end);
      by injection Hsize. }
  clear Hsize.
  destruct size_ok; cbn [negb] in H; [|by eapply Hfalse].
  destruct (device_size status mod kSectorSize =? 0) eqn:Hdev; cbn [negb] in H;
    [|by eapply Hfalse].
  destruct (snapshot_size status mod kSectorSize =? 0) eqn:Hsnap; cbn [negb orb] in H;
    [|by eapply Hfalse].
  destruct (device_size status <? snapshot_size status) eqn:Hle; cbn [negb orb] in H;
    [by eapply Hfalse|].
  apply Z.eqb_eq in Hdev, Hsnap. apply Z.ltb_ge in Hle.
  apply bind_Some in H as (update_state & w2 & Hupdate & H).
  apply ReadUpdateState_pure in Hupdate as ->.
  rewrite snapshot_device_name in H by done.
  assert (∀ mode,
    (created <-
     DeviceMapper.CreateDevice (GetSnapshotDeviceName name status)
       [DmTargetSnapshot 0 (snapshot_size status / kSectorSize) base_device
          cow_device mode kSnapshotChunkSize] timeout_ms;;
     (if negb created.1 then ret (false, created.2) else
      if negb ((device_size status - snapshot_size status) / kSectorSize =? 0)
      then
        snap_dev <- DeviceMapper.GetDeviceString (GetSnapshotDeviceName name status);;
        match snap_dev with
        | Some snap_dev0 =>
            outer <-
            DeviceMapper.CreateDevice name
              [DmTargetLinear 0 (snapshot_size status / kSectorSize) snap_dev0 0;
               DmTargetLinear (snapshot_size status / kSectorSize)
                 ((device_size status - snapshot_size status) / kSectorSize)
                 base_device (snapshot_size status / kSectorSize)] timeout_ms;;
            (if negb outer.1
             then DeviceMapper.DeleteDevice (GetSnapshotDeviceName name status);;;
                  ret (false, outer.2)
             else ret (true, outer.2))
        | None => ret (false, created.2)
        end
      else ret (true, created.2))) w1 = Some (b, path, w') →
    same_files w1 w' ∧ images_ w' = images_ w1 ∧
    if b then added w1 w' (snapshot_devices name status) else added w1 w' []) as Htail.
  { clear H Hfalse. intros mode H.
    apply bind_Some in H as ([created cpath] & w2 & Hcreate & H).
    apply CreateDevice_added in Hcreate as (Hadded & Hsame & Himg & Hnew).
    destruct created; cbn [negb fst snd] in H.
    2:{ injection H as <- <- <-. done. }
    unfold snapshot_devices, GetSnapshotDeviceName in *.
    destruct (device_size status =? snapshot_size status) eqn:Heq.
    { apply Z.eqb_eq in Heq. rewrite Heq, Z.sub_diag in H. cbn [negb Z.eqb] in H.
      change (0 / kSectorSize =? 0) with true in H. cbn [negb] in H.
      injection H as <- <- <-. done. }
    apply Z.eqb_neq in Heq. cbn [negb] in *.
    assert (((device_size status - snapshot_size status) / kSectorSize =? 0) = false) as Hlin.
    { apply Z.eqb_neq. intros Hzero.
      assert (0 < (device_size status - snapshot_size status) / kSectorSize); [|lia].
      apply Z.div_str_pos. unfold kSectorSize in *. split; [lia|].
      apply Z.mod_divide in Hdev, Hsnap; try lia.
      destruct Hdev as [x Hx], Hsnap as [y Hy]. lia. }
    rewrite Hlin in H. cbn [negb] in H.
    apply bind_Some in H as (snap_dev & w3 & Hstring & H).
    apply GetDeviceString_pure in Hstring as [-> Hsome].
    destruct (Hnew eq_refl) as (_ & d & Hd & _).
    destruct snap_dev as [snap_dev|]; [|destruct Hsome as [? [=]]; by eexists].
    apply bind_Some in H as ([outer opath] & w3 & Houter & H).
    apply CreateDevice_added in Houter as (Hadded' & Hsame' & Himg' & _).
    destruct outer; cbn [negb fst snd] in H.
    - injection H as <- <- <-. split; [by etransitivity|]. split; [congruence|].
      exact (added_app _ _ _ _ _ Hadded Hadded').
    - apply bind_Some in H as (deleted & w4 & Hdelete & [= <- <- <-]).
      apply added_nil_inv in Hadded'.
      destruct (DeleteDevice_added (GetSnapshotExtraDeviceName name) w1 w3) as (w5 & Hrun & ? & ? & ?).
      { destruct Hadded as (? & Hfresh & Hrest). split; [done|]. split.
        - intros n Hn. rewrite Hadded'. by apply Hfresh.
        - intros x Hx. rewrite Hadded'. by apply Hrest. }
      rewrite Hrun in Hdelete. injection Hdelete as _ <-.
      split; [by repeat (etransitivity; [eassumption|])|]. split; [congruence|].
      by apply added_nil. }
  assert (same_files w1 w' ∧ images_ w' = images_ w1 ∧
          (if b then added w1 w' (snapshot_devices name status) else added w1 w' []) →
          same_files w w' ∧ (images_ w = true → images_ w' = true) ∧
          if b then ∃ status0, Some status = Some status0 ∧
                               added w w' (snapshot_devices name status0)
          else added w w' []) as Hfinish.
  { intros (Hsame & Himg & Hadded). split; [by etransitivity|].
    split; [intros ?; rewrite Himg; auto|].
    assert (∀ l, added w1 w' l → added w w' l) as Hback.
    { intros l (? & Hnew & Hrest). split; [done|]. split.
      - intros n Hn. rewrite <- Hdm. by apply Hnew.
      - intros x Hx. rewrite <- Hdm. by apply Hrest. }
    destruct b; [exists status; split; [done|]|]; by apply Hback. }
  destruct update_state; first [by eapply Hfalse | apply Hfinish; by eapply Htail].
Qed.


Lemma EnsureImageManager_added w b w' :
  EnsureImageManager w = Some (b, w') →
  dm_devices w' = dm_devices w ∧ same_files w w' ∧ (images_ w = true → images_ w' = true) ∧
  (b = true → images_ w' = true).
Proof.
  rewrite EnsureImageManager_run.
  destruct (images_ w) eqn:Himg; [|destruct (gsid_available w)]; intros [= <- <-];
    (split; [done|]; split; [by repeat split|]; split; [by intros|]; by intros).
Qed.

Lemma MapCowImage_added name timeout_ms w b w' :
  MapCowImage name timeout_ms w = Some (b, w') →
  added w w' (if b then [GetCowImageDeviceName name] else []) ∧ same_files w w' ∧
  (images_ w = true → images_ w' = true).
Proof.
  unfold MapCowImage. intros H.
  apply bind_Some in H as (ok & w1 & Hensure & H).
  apply EnsureImageManager_added in Hensure as (Hdm & Hsame & Himg & _).
  assert (∀ l, added w1 w' l → added w w' l) as Hback.
  { intros l (? & Hnew & Hrest). split; [done|]. split.
    - intros n Hn. rewrite <- Hdm. by apply Hnew.
    - intros x Hx. rewrite <- Hdm. by apply Hrest. }
  destruct ok; cbn [negb] in H.
  2:{ injection H as <- <-. split; [by apply added_nil|]. by split. }
  apply bind_Some in H as (w2 & w3 & [= <- <-] & H).
  apply bind_Some in H as ([mapped mpath] & w2 & Hmap & [= <- <-]).
  assert (ImageManager.MapImageDevice (GetCowImageDeviceName name)
            (if has_local_image_manager_ w1 then 0 else timeout_ms) w1
          = Some ((mapped, mpath), w2)) as Hdevice.
  { by destruct (has_local_image_manager_ w1). }
  clear Hmap. unfold ImageManager.MapImageDevice in Hdevice.
  unfold bind at 1, get in Hdevice.
  destruct (backing_images w1 !! GetCowImageDeviceName name).
  - apply CreateDevice_added in Hdevice as (Hadded & Hsame' & Himg' & _).
    split; [by apply Hback|]. split; [by etransitivity|]. intros ?. rewrite Himg'. auto.
  - injection Hdevice as <- _ <-. split; [apply Hback; by apply added_nil|]. by split.
Qed.

Lemma CreateDmTable_pure params : frame eq (fs_mgr.CreateDmTable params).
Proof.
  unfold fs_mgr.CreateDmTable, fs_mgr.InitDefaults, ReadMetadata. frame_tac.
Qed.

Lemma cow_image_name_nonempty name : GetCowImageDeviceName name ≠ "".
Proof. unfold GetCowImageDeviceName. by destruct name. Qed.

Lemma MapCowDevices_added lock params status l w b l' cow w' :
  MapCowDevices lock params status l w = Some ((b, l', cow), w') →
  ∃ new, l' = l ++ new ∧ added w w' (AutoDevice_name <$> new) ∧
         Forall (λ d, AutoDevice_name d ≠ "") new ∧
         (∀ n, n ∈ AutoDevice_name <$> new →
               n ∈ stack_names (fs_mgr.GetPartitionName params)) ∧
         same_files w w' ∧ (images_ w = true → images_ w' = true).
Proof.
  unfold MapCowDevices. intros H.
  apply bind_Some in H as (ok & w1 & Hensure & H).
  apply EnsureImageManager_added in Hensure as (Hdm & Hsame & Himg & _).
  assert (∀ l, added w1 w' l → added w w' l) as Hback.
  { intros k (? & Hnew & Hrest). split; [done|]. split.
    - intros n Hn. rewrite <- Hdm. by apply Hnew.
    - intros x Hx. rewrite <- Hdm. by apply Hrest. }
  set (P := fs_mgr.GetPartitionName params) in *.
  match goal with |- ?G => set (Q := G) end.
  assert (∀ w2 new, added w1 w2 (AutoDevice_name <$> new) →
            Forall (λ d, AutoDevice_name d ≠ "") new →
            (∀ n, n ∈ AutoDevice_name <$> new → n ∈ stack_names P) →
            same_files w1 w2 → (images_ w1 = true → images_ w2 = true) →
            ∀ b0 cow0, Some (b0, l ++ new, cow0, w2) = Some (b, l', cow, w') → Q) as Hdone.
  { intros w2 new Hadded Hnames Hstack Hsame2 Himg2 b0 cow0 [= <- <- <- <-].
    exists new. split; [done|]. split; [by apply Hback|]. split; [done|]. split; [done|].
    split; [by etransitivity | auto]. }
  assert (∀ b0 cow0, Some (b0, l, cow0, w1) = Some (b, l', cow, w') → Q) as Hnone.
  { intros b0 cow0. rewrite <- (app_nil_r l) at 1.
    apply (Hdone w1 []); [by apply added_nil | constructor | | done | done].
    by intros n ?%elem_of_nil. }
  destruct ok; cbn [negb] in H; [|by eapply Hnone].
  apply bind_Some in H as ([] & w2 & Hcheck & H).
  assert (w2 = w1) as ->.
  { unfold CHECK, ret, abort in Hcheck. by destruct (0 <? _); simplify_eq. }
  clear Hcheck.
  apply bind_Some in H as ([image_ok image_list] & w2 & Himage & H).
  cbn [fst snd] in H.
  assert (∃ new, image_list = l ++ new ∧ added w1 w2 (AutoDevice_name <$> new) ∧
            Forall (λ d, AutoDevice_name d ≠ "") new ∧
            (∀ n, n ∈ AutoDevice_name <$> new → n ∈ stack_names P) ∧
            same_files w1 w2 ∧ (images_ w1 = true → images_ w2 = true))
    as (new1 & -> & Hadded1 & Hnames1 & Hstack1 & Hsame1 & Himg1).
  { assert (∀ b0, Some (b0, l, w1) = Some (image_ok, image_list, w2) →
              ∃ new, image_list = l ++ new ∧ added w1 w2 (AutoDevice_name <$> new) ∧
                Forall (λ d, AutoDevice_name d ≠ "") new ∧
                (∀ n, n ∈ AutoDevice_name <$> new → n ∈ stack_names P) ∧
                same_files w1 w2 ∧ (images_ w1 = true → images_ w2 = true)) as Hsame_list.
    { intros b0 [= <- <- <-]. exists []. rewrite app_nil_r. split; [done|].
      split; [by apply added_nil|]. split; [constructor|].
      split; [by intros n ?%elem_of_nil|]. by split. }
    destruct (0 <? cow_file_size status); [|by eapply Hsame_list].
    destruct (GetRemainingTime (timeout_ms params) <? 0); [by eapply Hsame_list|].
    apply bind_Some in Himage as (mapped & w3 & Hmap & Himage).
    apply MapCowImage_added in Hmap as (Hadded & Hsame1 & Himg1).
    destruct mapped; cbn [negb] in Himage; injection Himage as <- <- <-.
    - exists [AutoUnmapImage (GetCowImageDeviceName P)]. split; [done|]. split; [done|].
      split; [constructor; [apply cow_image_name_nonempty | constructor]|].
      split; [|by split].
      intros n ->%list_elem_of_singleton. unfold stack_names.
      do 3 (apply elem_of_cons; right). apply elem_of_cons. by left.
    - exists []. rewrite app_nil_r. split; [done|]. split; [done|].
      split; [constructor|]. split; [by intros n ?%elem_of_nil|]. by split. }
  clear Himage.
  assert (∀ b0 cow0, Some (b0, l ++ new1, cow0, w2) = Some (b, l', cow, w') → Q) as Hhere
    by (by apply Hdone).
  destruct image_ok; cbn [negb] in H; [|by eapply Hhere].
  destruct ((0 <? cow_file_size status) && (cow_partition_size status =? 0));
    [by eapply Hhere|].
  destruct (GetRemainingTime (timeout_ms params) <? 0); [by eapply Hhere|].
  apply bind_Some in H as ([] & w3 & Hcheck & H).
  assert (w3 = w2) as ->.
  { unfold CHECK, ret, abort in Hcheck. by destruct (0 <? _); simplify_eq. }
  clear Hcheck.
  apply bind_Some in H as (table & w3 & Htable & H).
  apply CreateDmTable_pure in Htable as <-.
  destruct table as [table|]; [|by eapply Hhere].
  apply bind_Some in H as (table' & w3 & Htable' & H).
  assert (w3 = w2) as ->.
  { destruct (0 <? cow_file_size status); [|by injection Htable' as _ <-].
    apply bind_Some in Htable' as (dev & w4 & Hstring & Htable').
    apply GetDeviceString_pure in Hstring as [-> _].
    destruct dev; by injection Htable' as _ <-. }
  clear Htable'.
  destruct table' as [table'|]; [|by eapply Hhere].
  apply bind_Some in H as ([created cpath] & w3 & Hcreate & H).
  apply CreateDevice_added in Hcreate as (Hadded2 & Hsame2 & Himg2 & Hnew2).
  destruct created; cbn [negb fst snd] in H.
  - rewrite <- (assoc_L (++)) in H.
    eapply (Hdone w3 (new1 ++ [AutoUnmapDevice (GetCowName P)])); [| | | | |exact H].
    + rewrite fmap_app. by eapply added_app.
    + apply Forall_app. split; [done|]. constructor; [|constructor].
      by destruct (Hnew2 eq_refl) as [? _].
    + intros n Hn. rewrite fmap_app in Hn. apply elem_of_app in Hn as [Hn|Hn]; [by auto|].
      apply list_elem_of_singleton in Hn as ->. unfold stack_names.
      do 2 (apply elem_of_cons; right). apply elem_of_cons. by left.
    + by etransitivity.
    + intros ?. rewrite Himg2. auto.
  - eapply (Hdone w3 new1); [| | | | |exact H]; try done.
    + apply added_nil_inv in Hadded2. destruct Hadded1 as (? & Hfresh & Hrest).
      split; [done|]. split.
      * intros n Hn. rewrite Hadded2. by apply Hfresh.
      * intros x Hx. rewrite Hadded2. by apply Hrest.
    + by etransitivity.
    + intros ?. rewrite Himg2. auto.
Qed.

Lemma InitDefaults_pure params : frame eq (fs_mgr.InitDefaults params).
Proof. unfold fs_mgr.InitDefaults, ReadMetadata. frame_tac. Qed.

Lemma CreateLogicalPartition_added params w b path w' :
  fs_mgr.CreateLogicalPartition params w = Some ((b, path), w') →
  added w w' (if b then [fs_mgr.GetDeviceName params] else []) ∧ same_files w w' ∧
  images_ w' = images_ w ∧ (b = true → fs_mgr.GetDeviceName params ≠ "").
Proof.
  unfold fs_mgr.CreateLogicalPartition. intros H.
  apply bind_Some in H as (params' & w1 & Hinit & H).
  destruct params' as [params'|].
  2:{ injection H as <- <- <-. apply InitDefaults_pure in Hinit as <-.
      split; [by apply added_nil|]. by repeat split. }
  apply InitDefaults_inv in Hinit as (-> & _ & _ & _ & _ & Hname).
  destruct (partition params').
  2:{ injection H as <- <- <-. split; [by apply added_nil|]. by repeat split. }
  rewrite Hname in H.
  apply CreateDevice_added in H as (Hadded & Hsame & Himg & Hnew).
  split; [done|]. split; [done|]. split; [done|]. intros ->. by destruct (Hnew eq_refl).
Qed.

Lemma live_snapshot_pure lock params part : frame eq (live_snapshot lock params part).
Proof.
  unfold live_snapshot. frame_tac. intros w r w' Hread.
  by apply ReadSnapshotStatus_pure in Hread.
Qed.

Lemma snapshot_devices_stack name status n :
  n ∈ snapshot_devices name status → n ∈ stack_names name.
Proof.
  unfold snapshot_devices, stack_names. destruct (_ =? _); intros Hn.
  - apply list_elem_of_singleton in Hn as ->. apply elem_of_cons. by left.
  - apply elem_of_cons in Hn as [->|Hn].
    + apply elem_of_cons. right. apply elem_of_cons. by left.
    + apply list_elem_of_singleton in Hn as ->. apply elem_of_cons. by left.
Qed.

Lemma added_same_r w w2 w3 l :
  added w w2 l → dm_devices w3 = dm_devices w2 → added w w3 l.
Proof.
  intros (? & Hnew & Hrest) Hdm. split; [done|]. split.
  - intros n Hn. rewrite Hdm. by apply Hnew.
  - intros x Hx. rewrite Hdm. by apply Hrest.
Qed.

Lemma base_device_name_nonempty name : GetBaseDeviceName name ≠ "".
Proof. unfold GetBaseDeviceName. by destruct name. Qed.

Lemma MapPartitionWithSnapshot_added lock params w b path w' :
  MapPartitionWithSnapshot lock params w = Some ((b, path), w') →
  ∃ names, added w w' names ∧
           (∀ n, n ∈ names → n ∈ stack_names (fs_mgr.GetPartitionName params)) ∧
           (b = false → names = []) ∧ same_files w w'.
Proof.
  set (P := fs_mgr.GetPartitionName params).
  match goal with |- _ → ?G => set (Q := G) end.
  assert (∀ w2 p, dm_devices w2 = dm_devices w → same_files w w2 →
                  ∀ b0, Some (b0, p, w2) = Some (b, path, w') → Q) as Hnothing.
  { intros w2 p Hdm Hsame b0 [= <- <- <-]. exists []. split; [by apply added_nil|].
    split; [by intros n ?%elem_of_nil|]. by split. }
  assert (∀ l w2 p, added w w2 (AutoDevice_name <$> l) →
            Forall (λ d, AutoDevice_name d ≠ "") l → same_files w w2 →
            (AutoDeviceList_destroy l;;; ret (false, p)) w2 = Some (b, path, w') → Q)
    as Hdestroy.
  { intros l w2 p Hadded Hnames Hsame Hrun.
    destruct (AutoDeviceList_destroy_added l w w2 Hadded Hnames)
      as (w3 & Hgone & Hdm & Hsame3 & _).
    rewrite (bind_run _ _ _ _ _ Hgone) in Hrun.
    eapply (Hnothing w3); [done | by etransitivity | exact Hrun]. }
  assert (∀ l w2 p names, added w w2 names → (∀ n, n ∈ names → n ∈ stack_names P) →
            same_files w w2 →
            (AutoDeviceList_destroy (AutoDeviceList_Release l);;; ret (true, p)) w2
            = Some (b, path, w') → Q) as Hkeep.
  { intros l w2 p names Hadded Hstack Hsame Hrun.
    pose proof (AutoDeviceList_cleanup_released l w2) as Hreleased.
    rewrite (bind_run _ _ _ _ _ Hreleased) in Hrun. injection Hrun as <- <- <-.
    exists names. split; [done|]. split; [done|]. split; [by intros [=]|done]. }
  unfold MapPartitionWithSnapshot. fold P. intros H.
  case_bool_decide as Hsame_name; cbn [negb] in H; [|by eapply (Hnothing w)].
  apply bind_Some in H as (params' & w1 & Hinit & H).
  destruct params' as [params'|].
  2:{ apply InitDefaults_pure in Hinit as <-. by eapply (Hnothing w). }
  apply InitDefaults_inv in Hinit as (-> & _ & _ & _ & Hpname & Hdname).
  fold P in Hpname. rewrite <- Hsame_name in Hdname.
  assert (fs_mgr.GetDeviceName params' = P) as Hplain.
  { unfold fs_mgr.GetDeviceName. rewrite Hpname, Hdname. by destruct (negb _). }
  destruct (partition params') as [part|]; [|by eapply (Hnothing w)].
  case_bool_decide.
  { injection H as <- <- <-. exists []. split; [by apply added_nil|].
    split; [by intros n ?%elem_of_nil|]. by split. }
  apply bind_Some in H as (live & w1 & Hlive & H).
  apply live_snapshot_pure in Hlive as <-.
  destruct live as [live|]; [|by eapply (Hnothing w)].
  apply bind_Some in H as ([created cpath] & w1 & Hcreate & H).
  apply CreateLogicalPartition_added in Hcreate as (Hadded & Hsame & Himg & Hname).
  destruct created; cbn [negb fst snd] in H.
  2:{ apply added_nil_inv in Hadded. by eapply (Hnothing w1). }
  specialize (Hname eq_refl).
  destruct live as [status|].
  2:{ rewrite Hplain in *.
      eapply (Hkeep _ w1 _ [P]); [done| |done|exact H].
      intros n ->%list_elem_of_singleton. apply elem_of_cons. by left. }
  assert (fs_mgr.GetDeviceName (with_base_device params') = GetBaseDeviceName P) as Hbase.
  { unfold fs_mgr.GetDeviceName, with_base_device. cbn [device_name].
    rewrite Hpname. rewrite bool_decide_false by apply base_device_name_nonempty. done. }
  assert (fs_mgr.GetPartitionName (with_base_device params') = P) as Hpbase by exact Hpname.
  rewrite Hbase, ?Hpbase in *.
  set (base := AutoUnmapDevice (GetBaseDeviceName P)) in *.
  assert (Forall (λ d, AutoDevice_name d ≠ "") [base]) as Hbase_name.
  { constructor; [apply base_device_name_nonempty | constructor]. }
  apply bind_Some in H as (base_device & w2 & Hstring & H).
  apply GetDeviceString_pure in Hstring as [-> _].
  destruct base_device as [base_device|]; [|by eapply (Hdestroy [base] w1)].
  destruct (GetRemainingTime _ <? 0); [by eapply (Hdestroy [base] w1)|].
  apply bind_Some in H as ([[cow_ok cow_list] cow_name] & w2 & Hcow & H).
  cbn [fst snd] in H.
  apply MapCowDevices_added in Hcow
    as (new & -> & Hadded2 & Hnames2 & Hstack2 & Hsame2 & _).
  assert (∀ t, fs_mgr.GetPartitionName (with_timeout (with_base_device params') t) = P)
    as Hcowname by (intros t; exact Hpname).
  rewrite Hcowname in Hstack2.
  assert (added w w2 (AutoDevice_name <$> [base] ++ new)) as Hadded12.
  { rewrite fmap_app. by eapply added_app. }
  assert (Forall (λ d, AutoDevice_name d ≠ "") ([base] ++ new)) as Hnames12.
  { by apply Forall_app. }
  assert (same_files w w2) as Hsame12 by (by etransitivity).
  assert (∀ n, n ∈ AutoDevice_name <$> [base] ++ new → n ∈ stack_names P) as Hstack12.
  { intros n Hn. rewrite fmap_app in Hn. apply elem_of_app in Hn as [Hn|Hn]; [|by auto].
    apply list_elem_of_singleton in Hn as ->. unfold stack_names.
    do 4 (apply elem_of_cons; right). apply elem_of_cons. by left. }
  destruct cow_ok; cbn [negb] in H; [|by eapply (Hdestroy _ w2)].
  apply bind_Some in H as (cow_device & w3 & Hstring & H).
  apply GetDeviceString_pure in Hstring as [-> _].
  destruct cow_device as [cow_device|]; [|by eapply (Hdestroy _ w2)].
  cbv iota in H.
  apply bind_Some in H as ([mapped mpath] & w3 & Hmap & H).
  cbn [fst snd] in H.
  apply MapSnapshot_added in Hmap as (Hsame3 & _ & Hadded3).
  destruct mapped; cbn [negb] in H.
  - destruct Hadded3 as (status' & _ & Hadded3).
    eapply (Hkeep _ w3 _ ((AutoDevice_name <$> [base] ++ new) ++ snapshot_devices P status'));
      [by eapply added_app| |by etransitivity|exact H].
    intros n [Hn|Hn]%elem_of_app; [by auto|]. by eapply snapshot_devices_stack.
  - apply added_nil_inv in Hadded3.
    eapply (Hdestroy _ w3); [by eapply added_same_r|done|by etransitivity|exact H].
Qed.



Lemma DeleteDeviceIfExists_true name w w' :
  DeviceMapper.DeleteDeviceIfExists name w = Some (true, w') →
  dm_devices w' = delete name (dm_devices w).
Proof.
  rewrite DeleteDeviceIfExists_run.
  destruct (dm_devices w !! name) as [d|] eqn:Hd.
  - case_bool_decide; intros [= <-]. done.
  - intros [= <-]. symmetry. by apply delete_id.
Qed.

Lemma UnmapPartitionWithSnapshot_true lock P w w' :
  UnmapPartitionWithSnapshot lock P w = Some (true, w') →
  dm_devices w' =
    delete (GetBaseDeviceName P)
      (delete (GetCowImageDeviceName P)
         (delete (GetCowName P)
            (delete (GetSnapshotExtraDeviceName P) (delete P (dm_devices w))))).
Proof.
  unfold UnmapPartitionWithSnapshot, UnmapSnapshot, UnmapCowDevices. intros H.
  apply bind_Some in H as (ok & w1 & Hsnap & H).
  apply bind_Some in Hsnap as (d1 & w2 & Hd1 & Hsnap).
  destruct d1; cbn [negb] in Hsnap; [|injection Hsnap as <- <-; by injection H].
  apply DeleteDeviceIfExists_true in Hd1.
  apply bind_Some in Hsnap as (d2 & w3 & Hd2 & Hsnap).
  destruct d2; cbn [negb] in Hsnap; [|injection Hsnap as <- <-; by injection H].
  apply DeleteDeviceIfExists_true in Hd2. injection Hsnap as <- <-. cbn [negb] in H.
  apply bind_Some in H as (ok & w4 & Hcow & H).
  apply bind_Some in Hcow as (ensured & w5 & Hensure & Hcow).
  apply EnsureImageManager_added in Hensure as (Hdm5 & _).
  destruct ensured; cbn [negb] in Hcow; [|injection Hcow as <- <-; by injection H].
  apply bind_Some in Hcow as (d3 & w6 & Hd3 & Hcow).
  destruct d3; cbn [negb] in Hcow; [|injection Hcow as <- <-; by injection H].
  apply DeleteDeviceIfExists_true in Hd3.
  apply bind_Some in Hcow as (d4 & w7 & Hd4 & Hcow).
  rewrite UnmapImageIfExists_run in Hd4.
  destruct d4; cbn [negb] in Hcow; [|injection Hcow as <- <-; by injection H].
  apply DeleteDeviceIfExists_true in Hd4. injection Hcow as <- <-. cbn [negb] in H.
  apply bind_Some in H as (d5 & w8 & Hd5 & H).
  destruct d5; cbn [negb] in H; [|by injection H].
  apply DeleteDeviceIfExists_true in Hd5. injection H as <-.
  congruence.
Qed.


(** ** Deleting snapshots *)

Lemma cow_name_ne_image_name name : GetCowName name ≠ GetCowImageDeviceName name.
Proof.
  unfold GetCowName, GetCowImageDeviceName. intros Heq.
  apply (f_equal String.length) in Heq. rewrite !string_app_length in Heq.
  simpl in Heq. lia.
Qed.

Lemma DeleteDeviceIfExists_inv name w b w' :
  DeviceMapper.DeleteDeviceIfExists name w = Some (b, w') →
  (b = true ↔ releasable w name) ∧
  dm_devices w' = (if b then delete name (dm_devices w) else dm_devices w) ∧
  same_files w w' ∧ images_ w' = images_ w.
Proof.
  intros Hrun. pose proof (frame_DeleteDeviceIfExists _ _ _ _ Hrun) as Hsame.
  rewrite DeleteDeviceIfExists_run in Hrun. unfold releasable.
  destruct (dm_devices w !! name) as [d|] eqn:Hd.
  - case_bool_decide as Hopen; injection Hrun as <- <-.
    + split; [|done]. split; [|done]. intros _ d' [= <-]. done.
    + split; [|done]. split; [done|]. intros Hrel. by specialize (Hrel d eq_refl).
  - injection Hrun as <- <-. split; [|split; [|done]].
    + split; [|done]. by intros _ d' [=].
    + symmetry. by apply delete_id.
Qed.

Lemma EnsureImageManager_inv w b w' :
  EnsureImageManager w = Some (b, w') →
  (b = true ↔ images_ w = true ∨ gsid_available w = true) ∧
  dm_devices w' = dm_devices w ∧ same_files w w' ∧ (b = true → images_ w' = true).
Proof.
  intros Hrun. pose proof (frame_EnsureImageManager _ _ _ Hrun) as Hsame.
  rewrite EnsureImageManager_run in Hrun.
  destruct (images_ w) eqn:Himg; [|destruct (gsid_available w) eqn:Hgsid];
    injection Hrun as <- <-; (split; [|done]);
    split; try done; try (by left); try (by right).
  by intros [?|?].
Qed.

Lemma UnmapCowDevices_inv lock name w b w' :
  UnmapCowDevices lock name w = Some (b, w') →
  (b = true ↔ (images_ w = true ∨ gsid_available w = true) ∧
              releasable w (GetCowName name) ∧
              releasable w (GetCowImageDeviceName name)) ∧
  (b = true →
   dm_devices w' = delete (GetCowImageDeviceName name)
                     (delete (GetCowName name) (dm_devices w)) ∧
   images_ w' = true) ∧
  same_files w w'.
Proof.
  intros Hrun. pose proof (frame_UnmapCowDevices _ _ _ _ _ Hrun) as Hsame.
  split; [|split; [|done]]; revert Hrun; unfold UnmapCowDevices; intros H;
    apply bind_Some in H as (ok & w1 & Hens & H);
    apply EnsureImageManager_inv in Hens as (Hok & Hdm1 & _ & Himg1).
  - destruct ok; cbn [negb] in H;
      [|injection H as <- <-; split; [done|]; intros [? _]; by apply Hok].
    apply bind_Some in H as (d1 & w2 & Hd1 & H).
    apply DeleteDeviceIfExists_inv in Hd1 as (Hcow & Hdm2 & _ & _).
    unfold releasable in Hcow. rewrite Hdm1 in Hcow.
    destruct d1; cbn [negb] in H;
      [|injection H as <- <-; split; [done|]; intros (_ & ? & _); by apply Hcow].
    apply bind_Some in H as (d2 & w3 & Hd2 & H). rewrite UnmapImageIfExists_run in Hd2.
    apply DeleteDeviceIfExists_inv in Hd2 as (Himg & _).
    unfold releasable in Himg. rewrite Hdm2, Hdm1 in Himg.
    assert (d2 = b) as -> by (destruct d2; by injection H).
    rewrite Himg. split.
    + intros Hrel. split; [by apply Hok|]. split; [exact (proj1 Hcow eq_refl)|].
      intros d Hd. apply Hrel. rewrite lookup_delete_ne; [done|].
      apply cow_name_ne_image_name.
    + intros (_ & _ & Hrel) d Hd. apply Hrel.
      rewrite lookup_delete_ne in Hd; [done|]. apply cow_name_ne_image_name.
  - intros ->. destruct ok; cbn [negb] in H; [|by injection H].
    apply bind_Some in H as (d1 & w2 & Hd1 & H).
    apply DeleteDeviceIfExists_inv in Hd1 as (_ & Hdm2 & _ & Himg2).
    destruct d1; cbn [negb] in H; [|by injection H].
    apply bind_Some in H as (d2 & w3 & Hd2 & H). rewrite UnmapImageIfExists_run in Hd2.
    apply DeleteDeviceIfExists_inv in Hd2 as (_ & Hdm3 & _ & Himg3).
    destruct d2; cbn [negb] in H; [|by injection H]. injection H as <-.
    split; [congruence|]. rewrite Himg3, Himg2. by apply Himg1.
Qed.

Lemma DeleteBackingImage_inv name w b w' :
  ImageManager.DeleteBackingImage name w = Some (b, w') →
  (b = true ↔ dm_devices w !! name = None ∧ is_Some (backing_images w !! name)) ∧
  backing_images w' = (if b then delete name (backing_images w) else backing_images w) ∧
  dm_devices w' = dm_devices w ∧ snapshots_dir w' = snapshots_dir w.
Proof.
  unfold ImageManager.DeleteBackingImage, ImageManager.IsImageMapped. intros H.
  apply bind_Some in H as (mapped & w1 & Hmapped & H).
  apply bind_Some in Hmapped as (st & w2 & Hstate & [= <- <-]).
  rewrite GetState_run in Hstate. injection Hstate as <- <-.
  destruct (dm_devices w !! name) as [d|] eqn:Hd.
  - assert (negb (bool_decide
              ((if negb (bool_decide (dev_table d = [])) && negb (dev_suspended d)
                then DmDeviceState.ACTIVE else DmDeviceState.SUSPENDED)
               = DmDeviceState.INVALID)) = true) as Hst.
    { by destruct (negb (bool_decide (dev_table d = [])) && negb (dev_suspended d)). }
    rewrite Hst in H. injection H as <- <-. split; [|done]. split; [done|]. by intros [? _].
  - rewrite bool_decide_true in H by done. cbn [negb] in H.
    unfold bind, get, modify, ret in H.
    destruct (backing_images w !! name) as [size|] eqn:Himage; injection H as <- <-.
    + split; [|done]. split; [|done]. intros _. split; [done|by eexists].
    + split; [|done]. split; [done|]. by intros [_ [? ?]].
Qed.

Lemma status_file_delete w w' name :
  snapshots_dir w' = delete name <$> snapshots_dir w →
  status_file w' name = None ∧
  ∀ other, other ≠ name → status_file w' other = status_file w other.
Proof.
  intros Hdir. unfold status_file. rewrite Hdir.
  destruct (snapshots_dir w) as [files|]; simpl; [|done]. split.
  - apply lookup_delete_eq.
  - intros other Hne. by apply lookup_delete_ne.
Qed.

Lemma DeleteSnapshot_inv lock name w b w' :
  DeleteSnapshot lock name w = Some (b, w') →
  same_update_state w w' ∧
  (b = true ↔ (images_ w = true ∨ gsid_available w = true) ∧
              releasable w (GetCowName name) ∧
              releasable w (GetCowImageDeviceName name)) ∧
  (b = true →
   snapshots_dir w' = delete name <$> snapshots_dir w ∧
   backing_images w' = delete (GetCowImageDeviceName name) (backing_images w) ∧
   dm_devices w' = delete (GetCowImageDeviceName name)
                     (delete (GetCowName name) (dm_devices w))) ∧
  (b = false → snapshots_dir w' = snapshots_dir w ∧ backing_images w' = backing_images w).
Proof.
  intros Hrun. split; [by eapply frame_DeleteSnapshot|].
  revert Hrun. unfold DeleteSnapshot. intros H.
  apply bind_Some in H as ([] & w0 & Hcheck & H).
  assert (w0 = w) as ->.
  { unfold CHECK, ret, abort in Hcheck. by destruct (bool_decide _); simplify_eq. }
  apply bind_Some in H as (ok & w1 & Hens & H).
  apply EnsureImageManager_inv in Hens as (Hok & Hdm1 & Hsame1 & Himg1).
  destruct ok; cbn [negb] in H.
  2:{ injection H as <- <-. destruct Hsame1 as (_ & ? & ?).
      split; [|done]. split; [done|]. intros [? _]. by apply Hok. }
  apply bind_Some in H as (ok & w2 & Hunmap & H).
  apply UnmapCowDevices_inv in Hunmap as (Hcond & Hdm2 & Hsame2).
  assert (images_ w1 = true ∨ gsid_available w1 = true) as Hmanager.
  { left. by apply Himg1. }
  assert (∀ n, releasable w1 n ↔ releasable w n) as Hrel.
  { intros n. unfold releasable. by rewrite Hdm1. }
  rewrite !Hrel in Hcond.
  assert (snapshots_dir w2 = snapshots_dir w ∧ backing_images w2 = backing_images w)
    as [Hdir2 Himages2].
  { destruct Hsame1 as (_ & ? & ?), Hsame2 as (_ & ? & ?). split; congruence. }
  destruct ok; cbn [negb] in H.
  2:{ injection H as <- <-. split; [|done]. split; [done|].
      intros (_ & ? & ?). by apply Hcond. }
  destruct (Hdm2 eq_refl) as [Hdm Himg2].
  assert ((images_ w = true ∨ gsid_available w = true) ∧
          releasable w (GetCowName name) ∧
          releasable w (GetCowImageDeviceName name)) as Hyes.
  { destruct Hcond as [Hc _]. destruct (Hc eq_refl) as (_ & ? & ?).
    split; [by apply Hok|done]. }
  apply bind_Some in H as (image_exists & w3 & Hexists & H).
  unfold ImageManager.BackingImageExists, bind, get, ret in Hexists.
  injection Hexists as <- <-.
  apply bind_Some in H as (deleted & w4 & Hdelete & H).
  assert (deleted = true ∧ dm_devices w4 = dm_devices w2 ∧
          snapshots_dir w4 = snapshots_dir w2 ∧
          backing_images w4 = delete (GetCowImageDeviceName name) (backing_images w2))
    as (-> & Hdm4 & Hdir4 & Himages4).
  { destruct (bool_decide _) eqn:Himage;
      [apply bool_decide_eq_true in Himage|apply bool_decide_eq_false in Himage].
    - apply DeleteBackingImage_inv in Hdelete as (Hdeleted & Himages & ? & ?).
      assert (deleted = true) as ->.
      { apply Hdeleted. split; [|done]. rewrite Hdm. apply lookup_delete_eq. }
      done.
    - injection Hdelete as <- <-. repeat split; try done.
      symmetry. apply delete_id.
      destruct (backing_images w2 !! GetCowImageDeviceName name) eqn:Hl; [|done].
      exfalso. apply Himage. by eexists. }
  cbn [negb] in H. unfold bind, modify, ret in H. injection H as <- <-. cbn.
  split; [done|]. split; [|done]. intros _.
  rewrite Hdir4, Hdir2, Himages4, Himages2, Hdm4, Hdm, Hdm1. done.
Qed.



Lemma RemoveAllSnapshots_loop_kept lock snapshots : ∀ ok w r w',
  RemoveAllSnapshots_loop lock snapshots ok w = Some (r, w') →
  (∀ name, status_file w' name = None ∨ status_file w' name = status_file w name) ∧
  (∀ name, name ∉ snapshots → status_file w' name = status_file w name) ∧
  (NoDup snapshots → ok = true → r = false →
   ∃ name, name ∈ snapshots ∧ status_file w' name = status_file w name).
Proof.
  induction snapshots as [|snapshot rest IH]; intros ok w r w' H; simpl in H.
  - injection H as <- <-. split; [by right|]. split; [done|]. by intros _ -> [=].
  - apply bind_Some in H as (unmapped & w1 & Hunmap & H).
    apply frame_UnmapPartitionWithSnapshot in Hunmap as (_ & Hdir1 & _).
    apply bind_Some in H as (removed & w2 & Hdelete & H).
    assert (snapshots_dir w2 =
            if removed then delete snapshot <$> snapshots_dir w else snapshots_dir w)
      as Hdir2.
    { destruct unmapped.
      - apply DeleteSnapshot_dir in Hdelete. by rewrite Hdelete, Hdir1.
      - injection Hdelete as <- <-. done. }
    assert (status_file w2 snapshot = (if removed then None else status_file w snapshot) ∧
            ∀ name, name ≠ snapshot → status_file w2 name = status_file w name)
      as [Hthis Hothers].
    { destruct removed.
      - by apply status_file_delete.
      - unfold status_file. by rewrite Hdir2. }
    apply IH in H as (Hany & Hout & Hleft).
    split; [|split].
    + intros name. destruct (Hany name) as [?|Heq]; [by left|]. rewrite Heq.
      destruct (decide (name = snapshot)) as [->|Hne].
      * rewrite Hthis. destruct removed; [by left|by right].
      * right. by apply Hothers.
    + intros name [Hne Hrest]%not_elem_of_cons. rewrite (Hout name Hrest).
      by apply Hothers.
    + intros [Hfresh Hnd]%NoDup_cons -> ->.
      destruct removed; cbn [andb] in Hleft.
      * destruct (Hleft Hnd eq_refl eq_refl) as (name & Hin & Heq).
        exists name. split; [by apply elem_of_cons; right|].
        rewrite Heq. apply Hothers. by intros ->.
      * exists snapshot. split; [by apply elem_of_cons; left|].
        by rewrite (Hout snapshot Hfresh), Hthis.
Qed.



(** ** Polling one snapshot *)

Lemma IsSnapshotDevice_pure name : frame eq (IsSnapshotDevice name).
Proof.
  unfold IsSnapshotDevice, GetSingleTarget, DeviceMapper.GetState,
    DeviceMapper.DM_DEV_STATUS, DeviceMapper.GetTableStatus, DeviceMapper.GetTable.
  frame_tac.
Qed.

Lemma IsCancelledSnapshot_pure name : frame eq (IsCancelledSnapshot name).
Proof.
  unfold IsCancelledSnapshot, GetSlotSuffix, GetSuperDevice, ReadMetadata. frame_tac.
Qed.

Lemma WriteSnapshotStatus_inv lock name status w b w' :
  WriteSnapshotStatus lock name status w = Some (b, w') →
  if b then is_Some (status_file w' name) ∧ dm_devices w' = dm_devices w
  else w' = w.
Proof.
  unfold WriteSnapshotStatus. intros H.
  apply bind_Some in H as ([] & w0 & Hcheck & H).
  assert (w0 = w) as ->.
  { unfold CHECK, ret, abort in Hcheck. by destruct (bool_decide _); simplify_eq. }
  unfold bind, get, modify, ret in H.
  destruct (snapshots_dir w) as [files|] eqn:Hdir; injection H as <- <-; [|done].
  split; [|done]. unfold status_file. cbn. rewrite lookup_insert_eq. by eexists.
Qed.

Lemma OnSnapshotMergeComplete_false lock name status w w' :
  OnSnapshotMergeComplete lock name status w = Some (false, w') →
  snapshots_dir w' = snapshots_dir w.
Proof.
  unfold OnSnapshotMergeComplete. intros H.
  apply bind_Some in H as (is_snapshot & w1 & Hsnap & H).
  apply IsSnapshotDevice_pure in Hsnap as <-.
  apply bind_Some in H as (collapsed & w2 & Hcollapse & H).
  assert (snapshots_dir w2 = snapshots_dir w) as Hdir2.
  { destruct is_snapshot as [target|]; [|by injection Hcollapse as _ <-].
    apply bind_Some in Hcollapse as (w0 & w3 & [= <- <-] & Hcollapse).
    apply bind_Some in Hcollapse as (queried & w4 & Hquery & Hcollapse).
    apply QuerySnapshotStatus_pure in Hquery as <-.
    repeat (destruct (negb _); [by injection Hcollapse as _ <-|]).
    by apply frame_CollapseSnapshotDevice in Hcollapse as (_ & ? & _). }
  destruct collapsed; cbn [negb] in H; [|by injection H as <-].
  apply bind_Some in H as (deleted & w3 & Hdelete & H).
  apply DeleteSnapshot_dir in Hdelete.
  destruct deleted; cbn [negb] in H; [done|]. injection H as <-. congruence.
Qed.

(** X18.  What a poll of one snapshot does.  A poll that reports that the
    snapshot is still merging or that its merge failed has changed nothing
    at all: no record, no device, no file.  It reports merging only for a
    snapshot with a record that is not yet marked as completed.  A poll
    that reports that a reboot is needed has left the record of the
    snapshot in place. *)
Theorem CheckTargetMergeState_report lock name w st w' :
  CheckTargetMergeState lock name w = Some (st, w') →
  (st = UpdateState.Merging ∨ st = UpdateState.MergeFailed → w' = w) ∧
  (st = UpdateState.Merging →
   ∃ status, record_of w name = Some status ∧
             state status ≠ SnapshotState.MergeCompleted) ∧
  (st = UpdateState.MergeNeedsReboot → is_Some (status_file w' name)).
Proof.
  unfold CheckTargetMergeState. intros H.
  apply bind_Some in H as (snapshot_status & w1 & Hread & H).
  rewrite ReadSnapshotStatus_run in Hread. injection Hread as <- <-.
  destruct (record_of w name) as [status|] eqn:Hrecord.
  2:{ injection H as <- <-. split; [done|]. split; [discriminate|discriminate]. }
  apply bind_Some in H as (is_snapshot & w1 & Hsnap & H).
  apply IsSnapshotDevice_pure in Hsnap as <-.
  destruct is_snapshot as [target|].
  - apply bind_Some in H as (w0 & w1 & [= <- <-] & H).
    apply bind_Some in H as (queried & w1 & Hquery & H).
    apply QuerySnapshotStatus_pure in Hquery as <-.
    destruct (negb queried.1.1);
      [injection H as <- <-; split; [done|]; split; discriminate|].
    destruct (negb (bool_decide _));
      [injection H as <- <-; split; [done|]; split; discriminate|].
    destruct (negb (_ =? _)).
    + case_bool_decide as Hstate; injection H as <- <-.
      * split; [done|]. split; discriminate.
      * split; [done|]. split; [|discriminate]. intros _. by exists status.
    + apply bind_Some in H as (written & w1 & Hwrite & H).
      apply WriteSnapshotStatus_inv in Hwrite.
      destruct written; cbn [negb] in H.
      2:{ injection H as <- <-. split; [done|]. split; discriminate. }
      destruct Hwrite as [Hfile _].
      apply bind_Some in H as (completed & w2 & Hcomplete & H).
      destruct completed; cbn [negb] in H; injection H as <- <-.
      * split; [by intros [[=]|[=]]|]. split; discriminate.
      * split; [by intros [[=]|[=]]|]. split; [discriminate|]. intros _.
        apply OnSnapshotMergeComplete_false in Hcomplete.
        unfold status_file in *. by rewrite Hcomplete.
  - apply bind_Some in H as (cancelled & w1 & Hcancelled & H).
    apply IsCancelledSnapshot_pure in Hcancelled as <-.
    destruct cancelled.
    + apply bind_Some in H as (deleted & w1 & _ & [= <- <-]).
      split; [by intros [[=]|[=]]|]. split; discriminate.
    + case_bool_decide as Hstate.
      * apply bind_Some in H as (completed & w1 & _ & [= <- <-]).
        split; [by intros [[=]|[=]]|]. split; discriminate.
      * injection H as <- <-. split; [done|]. split; discriminate.
Qed.

Lemma CheckTargetMergeState_merging :
  CheckTargetMergeState exclusive "system_b" merge_under_way
  = Some (UpdateState.Merging, merge_under_way).
Proof.
  assert (∃ w', CheckTargetMergeState exclusive "system_b" merge_under_way
                = Some (UpdateState.Merging, w')) as [w' Hrun].
  { eexists. vm_compute. reflexivity. }
  destruct (CheckTargetMergeState_report _ _ _ _ _ Hrun) as (Hsame & _).
  rewrite Hrun. f_equal. f_equal. apply Hsame. left. reflexivity.
Defined.
(** ** Collapsing a merged snapshot *)

Lemma GetSingleTarget_pure name query : frame eq (GetSingleTarget name query).
Proof.
  unfold GetSingleTarget, DeviceMapper.GetState, DeviceMapper.DM_DEV_STATUS,
    DeviceMapper.GetTableStatus, DeviceMapper.GetTableInfo, DeviceMapper.GetTable.
  frame_tac.
Qed.

Lemma GetTableInfo_pure name : frame eq (DeviceMapper.GetTableInfo name).
Proof. unfold DeviceMapper.GetTableInfo, DeviceMapper.GetTable. frame_tac. Qed.

Lemma CreateDmTable_linear params w table w' :
  fs_mgr.CreateDmTable params w = Some (Some table, w') →
  w' = w ∧ Forall (λ t, target_type (spec t) = "linear") (DmTarget_Serialize <$> table).
Proof.
  unfold fs_mgr.CreateDmTable. intros H.
  apply bind_Some in H as (params' & w1 & Hinit & H).
  apply InitDefaults_pure in Hinit as <-.
  destruct params' as [params'|]; [|done].
  destruct (partition params') as [p|]; [|done].
  injection H as <- <-. split; [done|]. apply extents_table_linear.
Qed.

Lemma LoadTableAndActivate_inv name table w b w' :
  DeviceMapper.LoadTableAndActivate name table w = Some (b, w') →
  same_files w w' ∧
  if b then
    table ≠ [] ∧
    ∃ d d', dm_devices w !! name = Some d ∧
            dm_devices w' = <[name := d']> (dm_devices w) ∧
            dev_table d' = DmTarget_Serialize <$> table ∧
            dev_open_count d' = dev_open_count d ∧ dev_suspended d' = false
  else w' = w.
Proof.
  intros Hrun. split; [by eapply frame_LoadTableAndActivate|]. revert Hrun.
  unfold DeviceMapper.LoadTableAndActivate, bind, get, modify, ret.
  destruct (dm_devices w !! name) as [d|] eqn:Hd; [|by intros [= <- <-]].
  case_bool_decide as Htable; intros [= <- <-]; [done|].
  split; [done|]. by eexists d, _.
Qed.

Lemma IsSnapshotDevice_linear name w d :
  dm_devices w !! name = Some d →
  Forall (λ t, target_type (spec t) = "linear") (dev_table d) →
  IsSnapshotDevice name w = Some (None, w).
Proof.
  intros Hd Hlinear.
  unfold IsSnapshotDevice.
  assert (GetSingleTarget name Status w
          = Some (match dev_table d with
                  | [t] => Some {| spec := spec t; data := DeviceMapper.status_line w t |}
                  | _ => None
                  end, w)) as Hsingle.
  { unfold GetSingleTarget.
    rewrite (bind_run _ _ _ _ _ (GetState_run name w)). rewrite Hd.
    assert (bool_decide
              ((if negb (bool_decide (dev_table d = [])) && negb (dev_suspended d)
                then DmDeviceState.ACTIVE else DmDeviceState.SUSPENDED)
               = DmDeviceState.INVALID) = false) as ->.
    { by destruct (negb (bool_decide (dev_table d = [])) && negb (dev_suspended d)). }
    unfold DeviceMapper.GetTableStatus, DeviceMapper.GetTable, bind, get, ret.
    rewrite Hd. by destruct (dev_table d) as [|t [|t' rest]]. }
  rewrite (bind_run _ _ _ _ _ Hsingle).
  destruct (dev_table d) as [|t [|t' rest]]; [done| |done].
  apply Forall_cons in Hlinear as [Ht _].
  unfold DeviceMapper.GetTargetType. simpl. by rewrite Ht.
Qed.

Lemma snapshot_device_name_cases name status :
  GetSnapshotDeviceName name status = name ∨
  GetSnapshotDeviceName name status = GetSnapshotExtraDeviceName name.
Proof. unfold GetSnapshotDeviceName. destruct (negb _); [by right|by left]. Qed.


(** ** Unmapping a partition *)

#[global] Instance removed_only_preorder names : PreOrder (removed_only names).
Proof.
  split.
  - intros w x. by left.
  - intros w1 w2 w3 H12 H23 x.
    destruct (H23 x) as [Heq|[Hin Hnone]]; [|by right].
    rewrite Heq. apply H12.
Qed.

Lemma frame_removed_DeleteDeviceIfExists names name :
  name ∈ names → frame (removed_only names) (DeviceMapper.DeleteDeviceIfExists name).
Proof.
  intros Hin w b w' (_ & Hdm & _)%DeleteDeviceIfExists_inv x. rewrite Hdm.
  destruct b; [|by left].
  destruct (decide (x = name)) as [->|Hne].
  - right. split; [done|]. apply lookup_delete_eq.
  - left. by apply lookup_delete_ne.
Qed.

Lemma frame_removed_EnsureImageManager names : frame (removed_only names) EnsureImageManager.
Proof. intros w b w' (_ & Hdm & _)%EnsureImageManager_inv x. left. by rewrite Hdm. Qed.

Lemma frame_removed_UnmapImageIfExists names name :
  name ∈ names → frame (removed_only names) (ImageManager.UnmapImageIfExists name).
Proof.
  intros Hin w b w' Hrun. rewrite UnmapImageIfExists_run in Hrun.
  by eapply frame_removed_DeleteDeviceIfExists.
Qed.

Lemma frame_removed_UnmapPartitionWithSnapshot lock P :
  frame (removed_only (stack_names P)) (UnmapPartitionWithSnapshot lock P).
Proof.
  unfold UnmapPartitionWithSnapshot, UnmapSnapshot, UnmapCowDevices. frame_tac;
    first [apply frame_removed_EnsureImageManager
          |apply frame_removed_DeleteDeviceIfExists
          |apply frame_removed_UnmapImageIfExists];
    unfold stack_names;
    repeat (first [by apply elem_of_cons; left | apply elem_of_cons; right]).
Qed.

Lemma string_app_inj_l (s a b : string) : s +:+ a = s +:+ b → a = b.
Proof.
  induction s as [|c s IH]; [done|]. rewrite !string_app_cons. intros [= H]. by apply IH.
Qed.

Lemma stack_names_NoDup P : NoDup (stack_names P).
Proof.
  unfold stack_names, GetSnapshotExtraDeviceName, GetCowName, GetCowImageDeviceName,
    GetBaseDeviceName.
  repeat (apply NoDup_cons; split;
          [rewrite ?not_elem_of_cons; repeat split; try apply not_elem_of_nil;
           try (intros Heq; symmetry in Heq; by apply string_app_ne in Heq);
           by intros [=]%string_app_inj_l|]).
  apply NoDup_nil_2.
Qed.

Lemma UnmapPartitionWithSnapshot_releasable lock P w w' :
  UnmapPartitionWithSnapshot lock P w = Some (true, w') → teardown_possible w P.
Proof.
  intros Hrun.
  pose proof (stack_names_NoDup P) as Hnd. unfold stack_names in Hnd.
  rewrite !NoDup_cons, !not_elem_of_cons in Hnd.
  destruct Hnd as ((? & ? & ? & ? & _) & (? & ? & ? & _) & (? & ? & _) & (? & _) & _).
  revert Hrun. unfold UnmapPartitionWithSnapshot, UnmapSnapshot. intros Hstep.
  apply bind_Some in Hstep as (ok & w1 & Hsnap & Hstep).
  apply bind_Some in Hsnap as (d1 & w2 & Hd1 & Hsnap).
  apply DeleteDeviceIfExists_inv in Hd1 as (Hr1 & Hdm2 & Hsame2 & Himg2).
  destruct d1; cbn [negb] in Hsnap; [|injection Hsnap as <- <-; by injection Hstep].
  apply bind_Some in Hsnap as (d2 & w3 & Hd2 & Hsnap).
  apply DeleteDeviceIfExists_inv in Hd2 as (Hr2 & Hdm3 & Hsame3 & Himg3).
  destruct d2; cbn [negb] in Hsnap; [|injection Hsnap as <- <-; by injection Hstep].
  injection Hsnap as <- <-. cbn [negb] in Hstep.
  apply bind_Some in Hstep as (ok & w4 & Hcow & Hstep).
  apply UnmapCowDevices_inv in Hcow as (Hcond & Hdm4 & _).
  destruct ok; cbn [negb] in Hstep; [|by injection Hstep].
  destruct (proj1 Hcond eq_refl) as (Hmanager & Hr3 & Hr4).
  destruct (Hdm4 eq_refl) as [Hdm4' _].
  apply bind_Some in Hstep as (d5 & w5 & Hd5 & Hstep).
  apply DeleteDeviceIfExists_inv in Hd5 as (Hr5 & _).
  destruct d5; cbn [negb] in Hstep; [|by injection Hstep].
  assert (gsid_available w3 = gsid_available w) as Hgsid.
  { destruct Hsame2 as (((? & ? & ? & ? & ? & ? & ? & Hg2 & _) & _) & _).
    destruct Hsame3 as (((? & ? & ? & ? & ? & ? & ? & Hg3 & _) & _) & _). congruence. }
  split; [|split; [|split; [|split; [|split]]]].
  - rewrite <- Hgsid, <- Himg2, <- Himg3. exact Hmanager.
  - by apply Hr1.
  - intros d Hd. apply (proj1 Hr2 eq_refl d). rewrite Hdm2.
    by rewrite lookup_delete_ne.
  - intros d Hd. apply (Hr3 d). rewrite Hdm3, Hdm2.
    by rewrite !lookup_delete_ne.
  - intros d Hd. apply (Hr4 d). rewrite Hdm3, Hdm2.
    by rewrite !lookup_delete_ne.
  - intros d Hd. apply (proj1 Hr5 eq_refl d). rewrite Hdm4', Hdm3, Hdm2.
    by rewrite !lookup_delete_ne.
Qed.


(** ** Rewriting a record *)

(** X21.  [WriteSnapshotStatus] fails without effect when the snapshot
    directory is missing.  Otherwise, when the record file is new or holds
    no more bytes than the line of the new status, the file holds exactly
    that line afterwards and [ReadSnapshotStatus] returns the status that
    was written; no other record, no device and nothing of the update
    state is touched. *)
Theorem WriteSnapshotStatus_round_trip lock name status w :
  lock_mode lock = LOCK_EX →
  (snapshots_dir w = None → WriteSnapshotStatus lock name status w = Some (false, w)) ∧
  (in_range status → is_Some (snapshots_dir w) →
   (String.length (default "" (status_file w name))
    ≤ String.length (status_line_of status))%nat →
   ∃ w1, WriteSnapshotStatus lock name status w = Some (true, w1) ∧
         status_file w1 name = Some (status_line_of status) ∧
         ReadSnapshotStatus lock name w1 = Some (Some status, w1) ∧
         (∀ other, other ≠ name → status_file w1 other = status_file w other) ∧
         same_update_state w w1 ∧ dm_devices w1 = dm_devices w).
Proof.
  intros Hlock. split.
  - intros Hdir. unfold WriteSnapshotStatus. rewrite CHECK_exclusive by done.
    unfold bind, get, ret. by rewrite Hdir.
  - intros Hrange [files Hdir] Hlen.
    assert (status_file w name = files !! name) as Hfile.
    { unfold status_file. by rewrite Hdir. }
    rewrite Hfile in Hlen.
    assert (WriteSnapshotStatus lock name status w
            = Some (true, set_snapshots_dir
                            (Some (<[name := status_line_of status]> files)) w)) as Hrun.
    { unfold WriteSnapshotStatus. rewrite CHECK_exclusive by done.
      unfold bind, get, modify, ret. rewrite Hdir. by rewrite write_at_start_covers. }
    eexists. split; [exact Hrun|].
    assert (status_file (set_snapshots_dir (Some (<[name := status_line_of status]> files)) w)
              name = Some (status_line_of status)) as Hnew.
    { rewrite status_file_set. apply lookup_insert_eq. }
    split; [done|]. split; [by apply ReadSnapshotStatus_of_line|].
    split; [|split; [by eapply frame_WriteSnapshotStatus|done]].
    intros other Hne. rewrite status_file_set.
    rewrite lookup_insert_ne by done. unfold status_file. by rewrite Hdir.
Qed.

Lemma WriteSnapshotStatus_longer_line :
  ∃ w1, WriteSnapshotStatus exclusive "system_b" requested
          (booted "initiated" None {[ "system_b" := "created 8192 4096 4096 0 0 0" ]})
        = Some (true, w1) ∧
        ReadSnapshotStatus exclusive "system_b" w1 = Some (Some requested, w1).
Proof.
  destruct (WriteSnapshotStatus_round_trip exclusive "system_b" requested
              (booted "initiated" None {[ "system_b" := "created 8192 4096 4096 0 0 0" ]})
              eq_refl) as [_ Hwrite].
  destruct Hwrite as (w1 & Hrun & _ & Hread & _).
  - vm_compute. repeat split; discriminate.
  - eexists. reflexivity.
  - vm_compute. lia.
  - exists w1. split; [exact Hrun | exact Hread].
Defined.

(** ** First-stage mount *)

Lemma InitDefaults_partition params params' w w' p :
  fs_mgr.InitDefaults params w = Some (Some params', w') →
  partition params = Some p → partition params' = Some p.
Proof.
  unfold fs_mgr.InitDefaults, ReadMetadata, bind, get, ret.
  intros H Hp. rewrite Hp in H.
  repeat (case_match; simplify_eq/=); done.
Qed.

Lemma destroy_then_false l (p path : string) w w' :
  (AutoDeviceList_destroy l;;; ret (false, p)) w = Some ((true, path), w') → False.
Proof. intros H. by apply bind_Some in H as ([] & w1 & _ & [=]). Qed.

Lemma MapPartitionWithSnapshot_mapped lock params w path w' :
  MapPartitionWithSnapshot lock params w = Some ((true, path), w') →
  is_Some (dm_devices w' !! fs_mgr.GetPartitionName params) ∨
  ∀ p, partition params = Some p → lp_extents p = [].
Proof.
  set (P := fs_mgr.GetPartitionName params).
  unfold MapPartitionWithSnapshot. fold P. intros H.
  case_bool_decide as Hsame_name; cbn [negb] in H; [|done].
  apply bind_Some in H as (params' & w1 & Hinit & H).
  destruct params' as [params'|]; [|done].
  pose proof (λ p, InitDefaults_partition _ _ _ _ p Hinit) as Hpart.
  apply InitDefaults_inv in Hinit as (-> & _ & _ & _ & Hpname & Hdname).
  fold P in Hpname. rewrite <- Hsame_name in Hdname.
  assert (fs_mgr.GetDeviceName params' = P) as Hplain.
  { unfold fs_mgr.GetDeviceName. rewrite Hpname, Hdname. by destruct (negb _). }
  destruct (partition params') as [part|] eqn:Hpart'; [|done].
  case_bool_decide as Hextents.
  { right. intros p Hp. apply Hpart in Hp. congruence. }
  left.
  apply bind_Some in H as (live & w1 & Hlive & H).
  apply live_snapshot_pure in Hlive as <-.
  destruct live as [live|]; [|done].
  apply bind_Some in H as ([created cpath] & w1 & Hcreate & H).
  apply CreateLogicalPartition_added in Hcreate as (Hadded & _).
  destruct created; cbn [negb fst snd] in H; [|done].
  destruct live as [status|].
  2:{ rewrite Hplain in *.
      rewrite (bind_run _ _ _ _ _ (AutoDeviceList_cleanup_released _ w1)) in H.
      injection H as _ <-. destruct Hadded as (_ & Hnew & _).
      destruct (Hnew P) as (_ & d & Hd & _); [by apply elem_of_cons; left|].
      by exists d. }
  apply bind_Some in H as (base_device & w2 & Hstring & H).
  apply GetDeviceString_pure in Hstring as [-> _].
  destruct base_device as [base_device|]; [|by apply destroy_then_false in H].
  destruct (GetRemainingTime _ <? 0); [by apply destroy_then_false in H|].
  apply bind_Some in H as ([[cow_ok cow_list] cow_name] & w2 & Hcow & H).
  cbn [fst snd] in H.
  destruct cow_ok; cbn [negb] in H; [|by apply destroy_then_false in H].
  apply bind_Some in H as (cow_device & w3 & Hstring & H).
  apply GetDeviceString_pure in Hstring as [-> _].
  destruct cow_device as [cow_device|]; [|by apply destroy_then_false in H].
  cbv iota in H.
  apply bind_Some in H as ([mapped mpath] & w3 & Hmap & H).
  cbn [fst snd] in H.
  apply MapSnapshot_added in Hmap as (_ & _ & Hadded3).
  destruct mapped; cbn [negb] in H; [|by apply destroy_then_false in H].
  rewrite (bind_run _ _ _ _ _ (AutoDeviceList_cleanup_released _ w3)) in H.
  injection H as _ <-.
  destruct Hadded3 as (status' & _ & (_ & Hnew & _)).
  assert (fs_mgr.GetPartitionName (with_base_device params') = P) as Hpbase by exact Hpname.
  rewrite Hpbase in Hnew.
  destruct (Hnew P) as (_ & d & Hd & _); [|by exists d].
  unfold snapshot_devices. destruct (_ =? _).
  - by apply elem_of_cons; left.
  - apply elem_of_cons; right. by apply elem_of_cons; left.
Qed.

Lemma added_keeps w w' names x :
  added w w' names → is_Some (dm_devices w !! x) → is_Some (dm_devices w' !! x).
Proof.
  intros (_ & Hnew & Hrest) Hx. destruct (decide (x ∈ names)) as [Hin|Hout].
  - destruct (Hnew x Hin) as (_ & d & Hd & _). by exists d.
  - by rewrite (Hrest x Hout).
Qed.

Lemma map_partitions_added lock super_device md partitions : ∀ w b w',
  map_partitions lock super_device md partitions w = Some (b, w') →
  same_files w w' ∧
  (∃ names, added w w' names ∧
            ∀ n, n ∈ names → ∃ p, p ∈ partitions ∧ lp_group p ≠ kCowGroupName ∧
                                  n ∈ stack_names (lp_name p)) ∧
  (b = true → ∀ p, p ∈ partitions → lp_group p ≠ kCowGroupName → lp_extents p ≠ [] →
              is_Some (dm_devices w' !! lp_name p)).
Proof.
  induction partitions as [|p rest IH]; intros w b w' H; simpl in H.
  - injection H as <- <-. split; [done|]. split.
    + exists []. split; [by apply added_nil|]. by intros n ?%elem_of_nil.
    + by intros _ p ?%elem_of_nil.
  - case_bool_decide as Hgroup.
    + apply IH in H as (Hsame & (names & Hadded & Hnames) & Hmapped).
      split; [done|]. split.
      * exists names. split; [done|]. intros n Hn.
        destruct (Hnames n Hn) as (q & Hq & ? & ?). exists q.
        split; [by apply elem_of_cons; right|done].
      * intros Hb q [->|Hq]%elem_of_cons; [done|]. by apply Hmapped.
    + apply bind_Some in H as ([mapped path] & w1 & Hmap & H). cbn [fst negb] in H.
      pose proof (MapPartitionWithSnapshot_added _ _ _ _ _ _ Hmap)
        as (names1 & Hadded1 & Hstack1 & _ & Hsame1).
      change (fs_mgr.GetPartitionName _) with (lp_name p) in Hstack1.
      destruct mapped; cbn [negb] in H.
      * apply MapPartitionWithSnapshot_mapped in Hmap.
        change (fs_mgr.GetPartitionName _) with (lp_name p) in Hmap.
        apply IH in H as (Hsame & (names & Hadded & Hnames) & Hmapped).
        split; [by etransitivity|]. split.
        -- exists (names1 ++ names). split; [by eapply added_app|].
           intros n [Hn|Hn]%elem_of_app.
           ++ exists p. split; [by apply elem_of_cons; left|]. by split; [|apply Hstack1].
           ++ destruct (Hnames n Hn) as (q & Hq & ? & ?). exists q.
              split; [by apply elem_of_cons; right|done].
        -- intros Hb q [->|Hq]%elem_of_cons Hq_group Hq_extents; [|by apply Hmapped].
           destruct Hmap as [Hdev|Hempty]; [by eapply added_keeps|].
           exfalso. by apply Hq_extents, Hempty.
      * injection H as <- <-. split; [done|]. split; [|discriminate].
        exists names1. split; [done|]. intros n Hn. exists p.
        split; [by apply elem_of_cons; left|]. by split; [|apply Hstack1].
Qed.


(** ** Mapping a snapshot for the update engine *)


